(** * chargedkstaranalysis: candidate selection and pairing engine

    A shallow embedding of [PWGLF/Tasks/chargedkstaranalysis.cxx].

    - C++ [float] and [double] values are IEEE-754 binary32 and binary64
      numbers, modelled with the Standard Library's [spec_float] and its
      parameterised operations (precision 24 / exponent 128 for [float],
      53 / 1024 for [double]).  Implicit C++ promotions and narrowing
      conversions are written out ([to_double], [to_float]).
    - A table row is a record holding the columns the analysis reads.
    - A histogram fill is an event; a process function returns the list of
      the fills it performs, in program order.
    - ROOT's four-vector classes and the particle data base are an
      interface ([Root]) the analysis is parameterised by. *)

From Stdlib Require Import ZArith List Bool Lia Permutation.
From Stdlib Require Import Floats.SpecFloat.
Import ListNotations.

Set Implicit Arguments.
Local Open Scope Z_scope.

(** ** IEEE-754 arithmetic as the C++ code uses it *)

Module IEEE.

(** C++ [float]: binary32. C++ [double]: binary64. Both are carried by
    [spec_float]; the name tells which format a value is meant to be in. *)
Definition float := spec_float.
Definition double := spec_float.

Definition prec32 : Z := 24.
Definition emax32 : Z := 128.
Definition prec64 : Z := 53.
Definition emax64 : Z := 1024.

Definition valid_float (x : float) : bool := valid_binary prec32 emax32 x.
Definition valid_double (x : double) : bool := valid_binary prec64 emax64 x.

(** Promotion [float -> double] (exact) and narrowing [double -> float]
    (round to nearest, ties to even). *)
Definition to_double (x : float) : double :=
  match x with
  | S754_finite s m e => binary_round prec64 emax64 s m e
  | _ => x
  end.

Definition to_float (x : double) : float :=
  match x with
  | S754_finite s m e => binary_round prec32 emax32 s m e
  | _ => x
  end.

(** Integer to [float] conversion. *)
Definition float_of_int (z : Z) : float :=
  binary_normalize prec32 emax32 z 0 false.

Definition f32_add : float -> float -> float := SFadd prec32 emax32.
Definition f32_mul : float -> float -> float := SFmul prec32 emax32.
Definition f32_div : float -> float -> float := SFdiv prec32 emax32.
Definition f64_add : double -> double -> double := SFadd prec64 emax64.
Definition f64_sub : double -> double -> double := SFsub prec64 emax64.
Definition f64_mul : double -> double -> double := SFmul prec64 emax64.

(** [std::abs], [fabs], [TMath::Abs]. *)
Definition fabs (x : spec_float) : spec_float := SFabs x.

(** The comparison operators [<] and [>]; both are false on NaN. *)
Definition lt (x y : spec_float) : bool := SFltb x y.
Definition gt (x y : spec_float) : bool := SFltb y x.

Definition is_nan (x : spec_float) : bool :=
  match x with S754_nan => true | _ => false end.

(** Literals of the source, as the nearest binary64 / binary32 number. *)
Definition d_0_5 : double := S754_finite false 4503599627370496 (-53).
Definition d_0_2 : double := S754_finite false 7205759403792794 (-55).
Definition d_0_8 : double := S754_finite false 7205759403792794 (-53).
Definition d_0_497 : double := S754_finite false 8953156059212546 (-54).
Definition f_zero : float := S754_zero false.

End IEEE.
Import IEEE.

(** ** Configuration: the [Configurable]s of [chargedkstaranalysis] *)

Record Config := {
  QAbefore : bool;
  QAafter : bool;
  QAv0 : bool;
  cutzvertex : float;
  ConfV0PtMin : float;
  ConfV0DCADaughMax : float;
  ConfV0CPAMin : float;
  ConfV0TranRadV0Min : float;
  ConfV0TranRadV0Max : float;
  cMaxV0LifeTime : double;
  cMaxV0DCA : double;
  cSigmaMassKs0 : double;
  cWidthKs0 : double;
  ConfDaughEta : float;
  ConfDaughTPCnclsMin : float;
  ConfDaughDCAMin : float;
  ConfDaughPIDCuts : float;
  cfgCutPT : float;
  cfgCutEta : float;
  cfgCutDCAxy : float;
  cfgCutDCAz : float;
  nsigmaCutTPC : float;
  nsigmaCutCombined : float;
  cfgNoMixedEvents : Z;
  cfgMultFT0 : bool;
  cfgCentFT0C : bool;
  iscustomDCAcut : bool;
  ismanualDCAcut : bool;
  cfgITScluster : Z
}.

(** The default values given in the source. *)
Definition defaultConfig : Config := {|
  QAbefore := false;
  QAafter := false;
  QAv0 := false;
  cutzvertex := S754_finite false 10485760 (-20);            (* 10.0f *)
  ConfV0PtMin := S754_zero false;                            (* 0.f *)
  ConfV0DCADaughMax := S754_finite false 8388608 (-23);      (* 1.0f *)
  ConfV0CPAMin := S754_finite false 16525558 (-24);          (* 0.985f *)
  ConfV0TranRadV0Min := S754_finite false 8388608 (-24);     (* 0.5f *)
  ConfV0TranRadV0Max := S754_finite false 13107200 (-16);    (* 200.f *)
  cMaxV0LifeTime := S754_finite false 8444249301319680 (-49);  (* 15 *)
  cMaxV0DCA := S754_finite false 5404319552844595 (-54);     (* 0.3 *)
  cSigmaMassKs0 := S754_finite false 4503599627370496 (-50); (* 4 *)
  cWidthKs0 := S754_finite false 5764607523034235 (-60);     (* 0.005 *)
  ConfDaughEta := S754_finite false 13421773 (-24);          (* 0.8f *)
  ConfDaughTPCnclsMin := S754_finite false 9175040 (-17);    (* 70.f *)
  ConfDaughDCAMin := S754_finite false 16106127 (-28);       (* 0.06f *)
  ConfDaughPIDCuts := S754_finite false 8388608 (-21);       (* 4 *)
  cfgCutPT := S754_finite false 13421773 (-26);              (* 0.2f *)
  cfgCutEta := S754_finite false 13421773 (-24);             (* 0.8f *)
  cfgCutDCAxy := S754_finite false 8388608 (-22);            (* 2.0f *)
  cfgCutDCAz := S754_finite false 8388608 (-22);             (* 2.0f *)
  nsigmaCutTPC := S754_finite false 12582912 (-22);          (* 3.0 *)
  nsigmaCutCombined := S754_finite false 12582912 (-22);     (* 3.0 *)
  cfgNoMixedEvents := 5;
  cfgMultFT0 := false;
  cfgCentFT0C := true;
  iscustomDCAcut := false;
  ismanualDCAcut := true;
  cfgITScluster := 0
|}.

(** ** Table rows *)

(** A row of [EventCandidates]. *)
Record Collision := {
  c_globalIndex : Z;
  sel8 : bool;
  posX : float;
  posY : float;
  posZ : float;
  numContrib : Z;
  multZeqFT0A : float;
  multZeqFT0C : float;
  centFT0C : float;
  centFT0M : float
}.

(** A row of [TrackCandidates]. *)
Record Track := {
  t_globalIndex : Z;
  t_collisionId : Z;
  t_pt : float;
  t_eta : float;
  t_phi : float;
  sign : Z;
  isGlobalTrack : bool;
  isGlobalTrackWoDCA : bool;
  isPVContributor : bool;
  itsNCls : Z;
  dcaXY : float;
  dcaZ : float;
  hasTPC : bool;
  hasTOF : bool;
  tpcNSigmaPi : float;
  tofNSigmaPi : float;
  tpcNClsFound : Z;
  tpcNClsCrossedRows : Z;
  tpcCrossedRowsOverFindableCls : float
}.

(** A row of [aod::V0Datas]. [posTrack] and [negTrack] are the rows that
    [posTrack_as<TrackCandidates>()] and [negTrack_as<TrackCandidates>()]
    dereference to. *)
Record V0 := {
  v_collisionId : Z;
  v_pt : float;
  v_eta : float;
  v_phi : float;
  dcav0topv : float;
  yK0Short : float;
  qtarm : float;
  alpha : float;
  v0radius : float;
  dcaV0daughters : float;
  v0cosPA : float;
  distovertotmom : float -> float -> float -> float;
  mK0Short : float;
  posTrack : Track;
  negTrack : Track
}.

(** ** Histogram fills *)

Inductive Hist :=
| hVertexZRec | hmult
| hNsigmaPionTPC_before | hNsigmaPionTOF_before
| hEta_after | hDcaxy_after | hDcaz_after
| hNsigmaPionTPC_after | hNsigmaPionTOF_after
| hMassvsptvsmult | hDCAV0Daughters | hLT | hV0CosPA
| h3CKSInvMassUnlikeSign | h3CKSInvMassMixed.

(** [fill(HIST(h), x1, ..., xn)]. *)
Record FillEvent := Fill { fill_hist : Hist; fill_args : list spec_float }.

(** ** Candidate selectors *)

Section Selectors.

Variable cfg : Config.

Definition selectionTrack (candidate : Track) : bool :=
  if iscustomDCAcut cfg &&
     negb (isGlobalTrack candidate || isPVContributor candidate ||
           (cfgITScluster cfg <? itsNCls candidate))
  then false
  else if ismanualDCAcut cfg &&
          negb (isGlobalTrackWoDCA candidate || isPVContributor candidate ||
                lt (fabs (dcaXY candidate)) (cfgCutDCAxy cfg) ||
                lt (fabs (dcaZ candidate)) (cfgCutDCAz cfg) ||
                (cfgITScluster cfg <? itsNCls candidate))
  then false
  else true.

Definition selectionPID (candidate : Track) : bool :=
  if hasTOF candidate &&
     lt (f32_add (f32_mul (tofNSigmaPi candidate) (tofNSigmaPi candidate))
                 (f32_mul (tpcNSigmaPi candidate) (tpcNSigmaPi candidate)))
        (f32_mul (nsigmaCutCombined cfg) (nsigmaCutCombined cfg))
  then true
  else if negb (hasTOF candidate) &&
          lt (fabs (tpcNSigmaPi candidate)) (nsigmaCutTPC cfg)
  then true
  else false.

(** The row filters declared on [TrackCandidates]. *)
Definition acceptanceFilter (t : Track) : bool :=
  lt (fabs (t_eta t)) (cfgCutEta cfg) && gt (fabs (t_pt t)) (cfgCutPT cfg).

Definition DCAcutFilter (t : Track) : bool :=
  lt (fabs (dcaXY t)) (cfgCutDCAxy cfg) && lt (fabs (dcaZ t)) (cfgCutDCAz cfg).

(** The row filter declared on [EventCandidates]. *)
Definition posZFilter (c : Collision) : bool :=
  lt (fabs (posZ c)) (cutzvertex cfg).

Definition isSelectedV0Daughter (track : Track) (charge : float)
           (nsigmaV0Daughter : double) : bool :=
  let eta := t_eta track in
  let tpcNClsF := tpcNClsFound track in
  let dcaXY := dcaXY track in
  let sign := sign track in
  if negb (hasTPC track) then false
  else if tpcNClsCrossedRows track <? 70 then false
  else if lt (to_double (tpcCrossedRowsOverFindableCls track)) d_0_8 then false
  else if lt charge (float_of_int 0) && (0 <? sign) then false
  else if gt charge (float_of_int 0) && (sign <? 0) then false
  else if gt (fabs eta) (ConfDaughEta cfg) then false
  else if lt (float_of_int tpcNClsF) (ConfDaughTPCnclsMin cfg) then false
  else if lt (fabs dcaXY) (ConfDaughDCAMin cfg) then false
  else if gt (fabs nsigmaV0Daughter) (to_double (ConfDaughPIDCuts cfg))
  then false
  else true.

End Selectors.

(** ** ROOT: particle data base and four-vectors

    [TDatabasePDG], [ROOT::Math::PtEtaPhiMVector] and [TLorentzVector] are
    library code; the analysis is parameterised by them. *)

Class Root := {
  (** [TDatabasePDG::Instance()->GetParticle(kPiPlus)->Mass()] *)
  massPi : double;
  (** [TDatabasePDG::Instance()->GetParticle(kK0Short)->Mass()] *)
  massK0s : double;
  (** [ROOT::Math::PtEtaPhiMVector] with its constructor, [operator+],
      [Rapidity()], [Pt()] and [M()] *)
  PtEtaPhiMVector : Type;
  PtEtaPhiMVector_new : double -> double -> double -> double -> PtEtaPhiMVector;
  lv_add : PtEtaPhiMVector -> PtEtaPhiMVector -> PtEtaPhiMVector;
  lv_Rapidity : PtEtaPhiMVector -> double;
  lv_Pt : PtEtaPhiMVector -> double;
  lv_M : PtEtaPhiMVector -> double;
  (** [TLorentzVector] with [SetPtEtaPhiM], [operator+], [Rapidity()],
      [Pt()] and [M()] *)
  TLorentzVector : Type;
  tlv_SetPtEtaPhiM : double -> double -> double -> double -> TLorentzVector;
  tlv_add : TLorentzVector -> TLorentzVector -> TLorentzVector;
  tlv_Rapidity : TLorentzVector -> double;
  tlv_Pt : TLorentzVector -> double;
  tlv_M : TLorentzVector -> double
}.

Section Task.

Context {root : Root}.
Variable cfg : Config.

(** *** Composite-candidate (topology) selection *)

(** The quantities [SelectionV0] derives from its arguments. *)
Definition arm (candidate : V0) : float :=
  f32_div (qtarm candidate) (alpha candidate).

Definition CtauK0s (collision : Collision) (candidate : V0) : float :=
  to_float
    (f64_mul
       (to_double (distovertotmom candidate (posX collision) (posY collision)
                                  (posZ collision)))
       massK0s).

Definition lowmasscutks0 : float :=
  to_float (f64_sub d_0_497 (f64_mul (cWidthKs0 cfg) (cSigmaMassKs0 cfg))).

Definition highmasscutks0 : float :=
  to_float (f64_add d_0_497 (f64_mul (cWidthKs0 cfg) (cSigmaMassKs0 cfg))).

Definition SelectionV0 (collision : Collision) (candidate : V0)
           (multiplicity : float) : bool * list FillEvent :=
  if gt (fabs (to_double (dcav0topv candidate))) (cMaxV0DCA cfg)
  then (false, [])
  else if gt (to_double (fabs (yK0Short candidate))) d_0_5 then (false, [])
  else
    let arm := arm candidate in
    let pT := v_pt candidate in
    let tranRad := v0radius candidate in
    let dcaDaughv0 := dcaV0daughters candidate in
    let cpav0 := v0cosPA candidate in
    let CtauK0s := CtauK0s collision candidate in
    if lt pT (ConfV0PtMin cfg) then (false, [])
    else if gt dcaDaughv0 (ConfV0DCADaughMax cfg) then (false, [])
    else if lt cpav0 (ConfV0CPAMin cfg) then (false, [])
    else if lt tranRad (ConfV0TranRadV0Min cfg) then (false, [])
    else if gt tranRad (ConfV0TranRadV0Max cfg) then (false, [])
    else if gt (fabs (to_double CtauK0s)) (cMaxV0LifeTime cfg) ||
            lt (mK0Short candidate) lowmasscutks0 ||
            gt (mK0Short candidate) highmasscutks0 then (false, [])
    else if lt (to_double arm) d_0_2 then (false, [])
    else
      (true,
       if QAv0 cfg then
         [ Fill hLT [CtauK0s];
           Fill hMassvsptvsmult
                [mK0Short candidate; v_pt candidate; multiplicity];
           Fill hDCAV0Daughters [dcaV0daughters candidate];
           Fill hV0CosPA [v0cosPA candidate] ]
       else []).

(** *** Collision classifier *)

(** The multiplicity estimate; the same three statements open
    [processSE] and the body of [processME]. *)
Definition eventMultiplicity (collision : Collision) : float :=
  let multiplicity := f_zero in
  let multiplicity :=
    if cfgMultFT0 cfg
    then f32_add (multZeqFT0A collision) (multZeqFT0C collision)
    else multiplicity in
  let multiplicity :=
    if negb (cfgMultFT0 cfg) && cfgCentFT0C cfg
    then centFT0C collision else multiplicity in
  let multiplicity :=
    if negb (cfgMultFT0 cfg) && negb (cfgCentFT0C cfg)
    then centFT0M collision else multiplicity in
  multiplicity.

(** *** Same-event engine *)

(** The data member of [chargedkstaranalysis] written by [processSE]. *)
Record TaskState := { CKSVector : PtEtaPhiMVector }.

(** The vectors filled by the track loop. *)
Record PionLists := {
  pions : list PtEtaPhiMVector;
  PionIndex : list Z;
  PioncollIndex : list Z
}.

(** The vectors filled by the V0 loop. *)
Record KshortLists := {
  kshorts : list PtEtaPhiMVector;
  V0collIndex : list Z;
  KshortPosDaughIndex : list Z;
  KshortNegDaughIndex : list Z
}.

Definition noPions : PionLists :=
  {| pions := []; PionIndex := []; PioncollIndex := [] |}.

Definition noKshorts : KshortLists :=
  {| kshorts := []; V0collIndex := [];
     KshortPosDaughIndex := []; KshortNegDaughIndex := [] |}.

(** One iteration of [for (auto track1 : tracks)]. *)
Definition trackStep (acc : list FillEvent * PionLists) (track1 : Track)
  : list FillEvent * PionLists :=
  let '(fills, pl) := acc in
  let fills :=
    if QAbefore cfg
    then fills ++ [ Fill hNsigmaPionTPC_before [tpcNSigmaPi track1];
                    Fill hNsigmaPionTOF_before [tofNSigmaPi track1] ]
    else fills in
  if negb (selectionPID cfg track1) then (fills, pl)
  else if negb (selectionTrack cfg track1) then (fills, pl)
  else
    let fills :=
      if QAafter cfg
      then fills ++ [ Fill hEta_after [t_eta track1];
                      Fill hDcaxy_after [dcaXY track1];
                      Fill hDcaz_after [dcaZ track1];
                      Fill hNsigmaPionTPC_after [tpcNSigmaPi track1];
                      Fill hNsigmaPionTOF_after [tofNSigmaPi track1] ]
      else fills in
    let temp1 :=
      PtEtaPhiMVector_new (to_double (t_pt track1)) (to_double (t_eta track1))
                          (to_double (t_phi track1)) massPi in
    (fills,
     {| pions := pions pl ++ [temp1];
        PionIndex := PionIndex pl ++ [t_globalIndex track1];
        PioncollIndex := PioncollIndex pl ++ [t_collisionId track1] |}).

(** One iteration of [for (auto& v0 : V0s)]. *)
Definition v0Step (collision : Collision) (multiplicity : float)
           (acc : list FillEvent * KshortLists) (v0 : V0)
  : list FillEvent * KshortLists :=
  let '(fills, kl) := acc in
  let postrack := posTrack v0 in
  let negtrack := negTrack v0 in
  let nTPCSigmaPos := to_double (tpcNSigmaPi postrack) in
  let nTPCSigmaNeg := to_double (tpcNSigmaPi negtrack) in
  if negb (isSelectedV0Daughter cfg postrack (float_of_int 1) nTPCSigmaPos)
  then (fills, kl)
  else if negb (isSelectedV0Daughter cfg negtrack (float_of_int (-1))
                                     nTPCSigmaNeg)
  then (fills, kl)
  else
    let '(ok, qa) := SelectionV0 collision v0 multiplicity in
    if negb ok then (fills ++ qa, kl)
    else
      let temp2 :=
        PtEtaPhiMVector_new (to_double (v_pt v0)) (to_double (v_eta v0))
                            (to_double (v_phi v0)) massK0s in
      (fills ++ qa,
       {| kshorts := kshorts kl ++ [temp2];
          V0collIndex := V0collIndex kl ++ [v_collisionId v0];
          KshortPosDaughIndex :=
            KshortPosDaughIndex kl ++ [t_globalIndex postrack];
          KshortNegDaughIndex :=
            KshortNegDaughIndex kl ++ [t_globalIndex negtrack] |}).

(** [v.at(i)]: the vectors indexed together have the same length, and
    the loops stay below it (see [trackLoop_lengths], [v0Loop_lengths]);
    the default stands for the exception [at] throws out of range. *)
Definition at_ {A : Type} (d : A) (l : list A) (i : nat) : A := nth i l d.

Definition nullVector : PtEtaPhiMVector :=
  PtEtaPhiMVector_new f_zero f_zero f_zero f_zero.

(** The body of the inner pairing loop, for the pion at position [i1]
    and the composite at position [i3]. *)
Definition pairBodySE (multiplicity : float) (pl : PionLists)
           (kl : KshortLists) (st : TaskState) (i1 i3 : nat)
  : TaskState * list FillEvent :=
  if at_ 0 (PionIndex pl) i1 =? at_ 0 (KshortPosDaughIndex kl) i3 then (st, [])
  else if at_ 0 (PionIndex pl) i1 =? at_ 0 (KshortNegDaughIndex kl) i3
  then (st, [])
  else if negb (at_ 0 (PioncollIndex pl) i1 =? at_ 0 (V0collIndex kl) i3)
  then (st, [])
  else
    let v := lv_add (at_ nullVector (pions pl) i1)
                    (at_ nullVector (kshorts kl) i3) in
    let st := {| CKSVector := v |} in
    if lt (fabs (lv_Rapidity v)) d_0_5
    then (st, [Fill h3CKSInvMassUnlikeSign [multiplicity; lv_Pt v; lv_M v]])
    else (st, []).

Definition innerLoopSE (multiplicity : float) (pl : PionLists)
           (kl : KshortLists) (acc : TaskState * list FillEvent) (i1 : nat)
  : TaskState * list FillEvent :=
  fold_left
    (fun acc i3 =>
       let '(st', out) := pairBodySE multiplicity pl kl (fst acc) i1 i3 in
       (st', snd acc ++ out))
    (seq 0 (length (kshorts kl))) acc.

Definition pairLoopSE (multiplicity : float) (pl : PionLists)
           (kl : KshortLists) (st : TaskState) : TaskState * list FillEvent :=
  if negb (length (pions pl) =? 0)%nat && negb (length (kshorts kl) =? 0)%nat
  then fold_left (innerLoopSE multiplicity pl kl)
                 (seq 0 (length (pions pl))) (st, [])
  else (st, []).

(** The track loop and the V0 loop, from the fills made so far. *)
Definition trackLoop (fills : list FillEvent) (tracks : list Track)
  : list FillEvent * PionLists :=
  fold_left trackStep tracks (fills, noPions).

Definition v0Loop (collision : Collision) (multiplicity : float)
           (fills : list FillEvent) (V0s : list V0)
  : list FillEvent * KshortLists :=
  fold_left (v0Step collision multiplicity) V0s (fills, noKshorts).

(** The fills of the event counter. *)
Definition eventFills (collision : Collision) : list FillEvent :=
  [ Fill hVertexZRec [posZ collision];
    Fill hmult [eventMultiplicity collision] ].

Definition processSE (st : TaskState) (collision : Collision)
           (tracks : list Track) (V0s : list V0) : TaskState * list FillEvent :=
  if negb (sel8 collision) then (st, [])
  else
    let multiplicity := eventMultiplicity collision in
    let fills := eventFills collision in
    let '(fills, pl) := trackLoop fills tracks in
    let '(fills, kl) := v0Loop collision multiplicity fills V0s in
    let '(st', out) := pairLoopSE multiplicity pl kl st in
    (st', fills ++ out).

(** *** Mixed-event engine *)

(** One element of the range [pair]: two collisions, the tracks of the
    first and the V0s of the second. *)
Definition MixedPair : Type := Collision * list Track * Collision * list V0.

(** The body of the loop over the combinations [(t1, t2)]. *)
Definition pairBodyME (c2 : Collision) (multiplicity : float)
           (t1 : Track) (t2 : V0) : list FillEvent :=
  if negb (selectionTrack cfg t1) then []
  else if negb (selectionPID cfg t1) then []
  else
    let '(ok, qa) := SelectionV0 c2 t2 multiplicity in
    if negb ok then qa
    else
      let postrack := posTrack t2 in
      let negtrack := negTrack t2 in
      let nTPCSigmaPos := to_double (tpcNSigmaPi postrack) in
      let nTPCSigmaNeg := to_double (tpcNSigmaPi negtrack) in
      if negb (isSelectedV0Daughter cfg postrack (float_of_int 1) nTPCSigmaPos)
      then qa
      else if negb (isSelectedV0Daughter cfg negtrack (float_of_int (-1))
                                         nTPCSigmaNeg)
      then qa
      else
        let pi := tlv_SetPtEtaPhiM (to_double (t_pt t1)) (to_double (t_eta t1))
                                   (to_double (t_phi t1)) massPi in
        let KSh := tlv_SetPtEtaPhiM (to_double (v_pt t2)) (to_double (v_eta t2))
                                    (to_double (v_phi t2)) massK0s in
        let CKSmix := tlv_add pi KSh in
        if lt (fabs (tlv_Rapidity CKSmix)) d_0_5
        then qa ++ [Fill h3CKSInvMassMixed
                         [multiplicity; tlv_Pt CKSmix; tlv_M CKSmix]]
        else qa.

(** [CombinationsFullIndexPolicy(tracks1, tracks2)]: every row of the
    first table with every row of the second, the second running faster. *)
Definition combinationsFull {A B : Type} (l1 : list A) (l2 : list B)
  : list (A * B) :=
  flat_map (fun a => map (fun b => (a, b)) l2) l1.

(** The body of [for (auto& [c1, tracks1, c2, tracks2] : pair)]. *)
Definition mixedPairBody (p : MixedPair) : list FillEvent :=
  let '(c1, tracks1, c2, tracks2) := p in
  if negb (sel8 c1) then []
  else if negb (sel8 c2) then []
  else
    let multiplicity := eventMultiplicity c1 in
    flat_map (fun '(t1, t2) => pairBodyME c2 multiplicity t1 t2)
             (combinationsFull tracks1 tracks2).

(** [processME], given the collision pairs the framework's [pair]
    object supplies. *)
Definition processME (pairs : list MixedPair) : list FillEvent :=
  flat_map mixedPairBody pairs.

End Task.

(** ** Histogram registration: [init]

    [init] declares the histograms of the two registries,
    [rEventSelection] and [histos].  A declaration is kept with its
    registry, name, type, axes and the [callSumw2] argument; the titles of
    histograms and axes are display text and are left out. *)

Inductive HistType := kTH1F | kTHnSparseF.

Inductive Registry := rEventSelection | histos.

(** [AxisSpec{nBins, binMin, binMax}]; the bounds are [double]s, a [float]
    literal being promoted. *)
Record AxisSpec := {
  a_nBins : Z;
  a_binMin : double;
  a_binMax : double
}.

Record HistSpec := {
  h_registry : Registry;
  h_name : Hist;
  h_type : HistType;
  h_axes : list AxisSpec;
  h_callSumw2 : bool
}.

(** [Configurable<int> nBins], read by [init] only. *)
Record HistConfig := { nBins : Z }.

Definition defaultHistConfig : HistConfig := {| nBins := 100 |}.

Module Literal.

Definition f_0_45 : float := S754_finite false 15099494 (-25).
Definition f_0_55 : float := S754_finite false 9227469 (-24).
Definition f_0_95 : float := S754_finite false 15938355 (-24).
Definition f_1 : float := S754_finite false 8388608 (-23).
Definition f_m1 : float := S754_finite true 8388608 (-23).
Definition f_5 : float := S754_finite false 10485760 (-21).
Definition f_10 : float := S754_finite false 10485760 (-20).
Definition f_m10 : float := S754_finite true 10485760 (-20).
Definition f_20 : float := S754_finite false 10485760 (-19).
Definition f_50 : float := S754_finite false 13107200 (-18).
Definition f_100 : float := S754_finite false 13107200 (-17).
Definition f_200 : float := S754_finite false 13107200 (-16).
Definition d_0 : double := S754_zero false.
Definition d_0_6 : double := S754_finite false 5404319552844595 (-53).
Definition d_1_5 : double := S754_finite false 6755399441055744 (-52).
Definition d_10 : double := S754_finite false 5629499534213120 (-49).
Definition d_m10 : double := S754_finite true 5629499534213120 (-49).
Definition d_200 : double := S754_finite false 7036874417766400 (-45).

End Literal.

Definition axis (n : Z) (lo hi : double) : AxisSpec :=
  {| a_nBins := n; a_binMin := lo; a_binMax := hi |}.

(** [registry.add(name, title, type, axes)]: [callSumw2] defaults to
    false. *)
Definition add (r : Registry) (name : Hist) (type : HistType)
           (axes : list AxisSpec) (callSumw2 : bool) : HistSpec :=
  {| h_registry := r; h_name := name; h_type := type; h_axes := axes;
     h_callSumw2 := callSumw2 |}.

(** The declarations [init] makes, in program order. *)
Definition init (cfg : Config) (hcfg : HistConfig) : list HistSpec :=
  let K0ShortMassAxis :=
    axis 200 (to_double Literal.f_0_45) (to_double Literal.f_0_55) in
  let vertexZAxis := axis (nBins hcfg) Literal.d_m10 Literal.d_10 in
  let ptAxis := axis 200 (to_double f_zero) (to_double Literal.f_20) in
  let multAxis := axis 100 (to_double f_zero) (to_double Literal.f_100) in
  let nsigmaAxis :=
    axis 200 (to_double Literal.f_m10) (to_double Literal.f_10) in
  [ add rEventSelection hVertexZRec kTH1F [vertexZAxis] false;
    add rEventSelection hmult kTH1F
        [axis 200 (to_double f_zero) (to_double Literal.f_200)] false ] ++
  (if QAbefore cfg && QAafter cfg
   then [ add histos hNsigmaPionTPC_before kTH1F [nsigmaAxis] false;
          add histos hNsigmaPionTOF_before kTH1F [nsigmaAxis] false;
          add histos hEta_after kTH1F
              [axis 200 (to_double Literal.f_m1) (to_double Literal.f_1)]
              false;
          add histos hDcaxy_after kTH1F [nsigmaAxis] false;
          add histos hDcaz_after kTH1F [nsigmaAxis] false;
          add histos hNsigmaPionTPC_after kTH1F [nsigmaAxis] false;
          add histos hNsigmaPionTOF_after kTH1F [nsigmaAxis] false ]
   else []) ++
  (if QAv0 cfg
   then [ add histos hMassvsptvsmult kTHnSparseF
              [K0ShortMassAxis; ptAxis; multAxis] true;
          add histos hDCAV0Daughters kTH1F
              [axis 50 (to_double f_zero) (to_double Literal.f_5)] false;
          add histos hLT kTH1F
              [axis 100 (to_double f_zero) (to_double Literal.f_50)] false;
          add histos hV0CosPA kTH1F
              [axis 100 (to_double Literal.f_0_95) (to_double Literal.f_1)]
              false ]
   else []) ++
  [ add histos h3CKSInvMassUnlikeSign kTHnSparseF
        [axis 200 Literal.d_0 Literal.d_200;
         axis 200 (to_double f_zero) (to_double Literal.f_20);
         axis 90 Literal.d_0_6 Literal.d_1_5] true;
    add histos h3CKSInvMassMixed kTHnSparseF
        [axis 200 Literal.d_0 Literal.d_200;
         axis 200 (to_double f_zero) (to_double Literal.f_20);
         axis 90 Literal.d_0_6 Literal.d_1_5] true ].

(** ** Event mixing: the collision pairs supplied to [processME] *)

(** Modelled from the spec: the binning policy [binningOnPositions], whose
    code is the framework's [ColumnBinningPolicy].  The source only names
    its two columns, [PosZ] and [NumContrib], and its axes; the bucket a
    value falls in is left to the two functions of the policy. *)
Record BinningPolicy := {
  vertexBucket : float -> Z;
  multiplicityBucket : Z -> Z
}.

Section Mixing.

Context {root : Root}.
Variable binning : BinningPolicy.

(** Modelled from the spec: the two-dimensional bin key (vertex z-position
    bucket, multiplicity-estimator bucket). *)
Definition binKey (c : Collision) : Z * Z :=
  (vertexBucket binning (posZ c), multiplicityBucket binning (numContrib c)).

Definition sameBin (c1 c2 : Collision) : bool :=
  (fst (binKey c1) =? fst (binKey c2)) && (snd (binKey c1) =? snd (binKey c2)).

(** Modelled from the spec: the pairing policy of the framework's [Pair]
    range, which is not part of [chargedkstaranalysis.cxx].  Each
    collision is paired with at most [n] collisions of its own bin that
    come after it, so that no collision is paired with itself and no pair
    is supplied twice. *)
Fixpoint mixedCollisionPairs (n : nat) (collisions : list Collision)
  : list (Collision * Collision) :=
  match collisions with
  | [] => []
  | c1 :: rest =>
      map (fun c2 => (c1, c2)) (firstn n (filter (sameBin c1) rest)) ++
      mixedCollisionPairs n rest
  end.

(** Modelled from the spec: the range [pair], each collision pair coming
    with the tracks of the first collision and the V0s of the second. *)
Definition pairRange (cfg : Config) (collisions : list Collision)
           (tracks : list Track) (V0s : list V0) : list MixedPair :=
  map (fun '(c1, c2) =>
         (c1, filter (fun t => t_collisionId t =? c_globalIndex c1) tracks,
          c2, filter (fun v => v_collisionId v =? c_globalIndex c2) V0s))
      (mixedCollisionPairs (Z.to_nat (cfgNoMixedEvents cfg)) collisions).

(** [processME] on the tables the framework hands it. *)
Definition processME_tables (cfg : Config) (collisions : list Collision)
           (tracks : list Track) (V0s : list V0) : list FillEvent :=
  processME cfg (pairRange cfg collisions tracks V0s).

End Mixing.

(** * The vocabulary of the properties

    ** The selectors, cut by cut *)

Section Cuts.

Context {root : Root}.
Variable cfg : Config.

(** The two track-selection policies of [selectionTrack]: the condition
    under [iscustomDCAcut] and the condition under [ismanualDCAcut]. *)
Definition policyA (candidate : Track) : bool :=
  isGlobalTrack candidate || isPVContributor candidate ||
  (cfgITScluster cfg <? itsNCls candidate).

Definition policyB (candidate : Track) : bool :=
  isGlobalTrackWoDCA candidate || isPVContributor candidate ||
  lt (fabs (dcaXY candidate)) (cfgCutDCAxy cfg) ||
  lt (fabs (dcaZ candidate)) (cfgCutDCAz cfg) ||
  (cfgITScluster cfg <? itsNCls candidate).

(** The checks of [isSelectedV0Daughter] other than the two on the
    charge sign. *)
Definition daughterChecksExceptCharge (track : Track)
           (nsigmaV0Daughter : double) : bool :=
  hasTPC track &&
  negb (tpcNClsCrossedRows track <? 70) &&
  negb (lt (to_double (tpcCrossedRowsOverFindableCls track)) d_0_8) &&
  negb (gt (fabs (t_eta track)) (ConfDaughEta cfg)) &&
  negb (lt (float_of_int (tpcNClsFound track)) (ConfDaughTPCnclsMin cfg)) &&
  negb (lt (fabs (dcaXY track)) (ConfDaughDCAMin cfg)) &&
  negb (gt (fabs nsigmaV0Daughter) (to_double (ConfDaughPIDCuts cfg))).

(** The charge-compatibility check: [true] when it rejects. *)
Definition chargeMismatch (charge : float) (sign : Z) : bool :=
  (lt charge (float_of_int 0) && (0 <? sign)) ||
  (gt charge (float_of_int 0) && (sign <? 0)).

(** The cuts of [SelectionV0] on decay geometry and kinematics. *)
Definition passesTopology (candidate : V0) : bool :=
  negb (gt (fabs (to_double (dcav0topv candidate))) (cMaxV0DCA cfg)) &&
  negb (gt (to_double (fabs (yK0Short candidate))) d_0_5) &&
  negb (lt (v_pt candidate) (ConfV0PtMin cfg)) &&
  negb (gt (dcaV0daughters candidate) (ConfV0DCADaughMax cfg)) &&
  negb (lt (v0cosPA candidate) (ConfV0CPAMin cfg)) &&
  negb (lt (v0radius candidate) (ConfV0TranRadV0Min cfg)) &&
  negb (gt (v0radius candidate) (ConfV0TranRadV0Max cfg)).

Definition passesLifetime (collision : Collision) (candidate : V0) : bool :=
  negb (gt (fabs (to_double (CtauK0s collision candidate)))
           (cMaxV0LifeTime cfg)).

Definition passesMassWindow (candidate : V0) : bool :=
  negb (lt (mK0Short candidate) (lowmasscutks0 cfg)) &&
  negb (gt (mK0Short candidate) (highmasscutks0 cfg)).

Definition passesArmenteros (candidate : V0) : bool :=
  negb (lt (to_double (arm candidate)) d_0_2).

(** Every cut but the mass window. *)
Definition passesAllButMass (collision : Collision) (candidate : V0) : bool :=
  passesTopology candidate && passesLifetime collision candidate &&
  passesArmenteros candidate.

(** Every cut but the Armenteros-Podolanski one. *)
Definition passesAllButArmenteros (collision : Collision) (candidate : V0)
  : bool :=
  passesTopology candidate && passesLifetime collision candidate &&
  passesMassWindow candidate.

End Cuts.

(** ** The same-event engine, row by row *)

Section SameEventRows.

Context {root : Root}.
Variable cfg : Config.

(** The vector the pairing loop assigns to [CKSVector] for the pion at
    [i1] and the composite at [i3]. *)
Definition pairVectorSE (pl : PionLists) (kl : KshortLists) (i1 i3 : nat)
  : PtEtaPhiMVector :=
  lv_add (at_ nullVector (pions pl) i1) (at_ nullVector (kshorts kl) i3).

(** The fills of the pairing loop, pair by pair. *)
Definition pairFillsSE (multiplicity : float) (pl : PionLists)
           (kl : KshortLists) (st : TaskState) : list FillEvent :=
  flat_map
    (fun i1 =>
       flat_map (fun i3 => snd (pairBodySE multiplicity pl kl st i1 i3))
                (seq 0 (length (kshorts kl))))
    (seq 0 (length (pions pl))).

Definition acceptPion (track1 : Track) : bool :=
  selectionPID cfg track1 && selectionTrack cfg track1.

Definition pionVector (track1 : Track) : PtEtaPhiMVector :=
  PtEtaPhiMVector_new (to_double (t_pt track1)) (to_double (t_eta track1))
                      (to_double (t_phi track1)) massPi.

(** The fills of one iteration of the track loop. *)
Definition trackFills (track1 : Track) : list FillEvent :=
  (if QAbefore cfg
   then [ Fill hNsigmaPionTPC_before [tpcNSigmaPi track1];
          Fill hNsigmaPionTOF_before [tofNSigmaPi track1] ]
   else []) ++
  (if acceptPion track1 && QAafter cfg
   then [ Fill hEta_after [t_eta track1];
          Fill hDcaxy_after [dcaXY track1];
          Fill hDcaz_after [dcaZ track1];
          Fill hNsigmaPionTPC_after [tpcNSigmaPi track1];
          Fill hNsigmaPionTOF_after [tofNSigmaPi track1] ]
   else []).

Definition daughtersSelected (v0 : V0) : bool :=
  isSelectedV0Daughter cfg (posTrack v0) (float_of_int 1)
                       (to_double (tpcNSigmaPi (posTrack v0))) &&
  isSelectedV0Daughter cfg (negTrack v0) (float_of_int (-1))
                       (to_double (tpcNSigmaPi (negTrack v0))).

Definition acceptV0 (collision : Collision) (multiplicity : float) (v0 : V0)
  : bool :=
  daughtersSelected v0 && fst (SelectionV0 cfg collision v0 multiplicity).

Definition kshortVector (v0 : V0) : PtEtaPhiMVector :=
  PtEtaPhiMVector_new (to_double (v_pt v0)) (to_double (v_eta v0))
                      (to_double (v_phi v0)) massK0s.

(** The fills of one iteration of the V0 loop. *)
Definition v0Fills (collision : Collision) (multiplicity : float) (v0 : V0)
  : list FillEvent :=
  if daughtersSelected v0
  then snd (SelectionV0 cfg collision v0 multiplicity) else [].

(** The sum formed for a pion row and a composite row. *)
Definition pairVector (t : Track) (v : V0) : PtEtaPhiMVector :=
  lv_add (pionVector t) (kshortVector v).

(** What the pairing loop fills for an accepted pion row and an accepted
    composite row. *)
Definition pairFillRows (multiplicity : float) (t : Track) (v : V0)
  : list FillEvent :=
  if negb (t_globalIndex t =? t_globalIndex (posTrack v)) &&
     negb (t_globalIndex t =? t_globalIndex (negTrack v)) &&
     (t_collisionId t =? v_collisionId v) &&
     lt (fabs (lv_Rapidity (pairVector t v))) d_0_5
  then [Fill h3CKSInvMassUnlikeSign
             [multiplicity; lv_Pt (pairVector t v); lv_M (pairVector t v)]]
  else [].

(** The lists the two selection loops produce from the accepted rows. *)
Definition pionListsOf (P : list Track) : PionLists :=
  {| pions := map pionVector P;
     PionIndex := map t_globalIndex P;
     PioncollIndex := map t_collisionId P |}.

Definition kshortListsOf (K : list V0) : KshortLists :=
  {| kshorts := map kshortVector K;
     V0collIndex := map v_collisionId K;
     KshortPosDaughIndex := map (fun v => t_globalIndex (posTrack v)) K;
     KshortNegDaughIndex := map (fun v => t_globalIndex (negTrack v)) K |}.

(** The fills of the selection part of [processSE]: the event counter,
    the track loop and the V0 loop. *)
Definition selectionFillsSE (collision : Collision) (tracks : list Track)
           (V0s : list V0) : list FillEvent :=
  eventFills cfg collision ++ flat_map trackFills tracks ++
  flat_map (v0Fills collision (eventMultiplicity cfg collision)) V0s.

(** The fills of the pairing part of [processSE]. *)
Definition massFillsSE (collision : Collision) (tracks : list Track)
           (V0s : list V0) : list FillEvent :=
  flat_map
    (fun t =>
       flat_map (pairFillRows (eventMultiplicity cfg collision) t)
                (filter (acceptV0 collision (eventMultiplicity cfg collision))
                        V0s))
    (filter acceptPion tracks).

(** The fills of the two invariant-mass histograms. *)
Definition isMassFill (f : FillEvent) : bool :=
  match fill_hist f with
  | h3CKSInvMassUnlikeSign | h3CKSInvMassMixed => true
  | _ => false
  end.

End SameEventRows.

(** ** The mixed-event engine, pair by pair *)

Section MixedEventRows.

Context {root : Root}.

(** The sum formed for a track of the first collision and a composite of
    the second. *)
Definition mixVector (t1 : Track) (t2 : V0) : TLorentzVector :=
  tlv_add
    (tlv_SetPtEtaPhiM (to_double (t_pt t1)) (to_double (t_eta t1))
                      (to_double (t_phi t1)) massPi)
    (tlv_SetPtEtaPhiM (to_double (v_pt t2)) (to_double (v_eta t2))
                      (to_double (v_phi t2)) massK0s).

End MixedEventRows.

(** ** The steps of rounding to nearest *)

(** The location of a remainder [r] in [0, d): exact, or below, at or
    above the middle. *)
Definition locate (r d : Z) : location :=
  if r =? 0 then loc_Exact else loc_Inexact (2 * r ?= d).

Section RoundingSteps.

Variables prec emax : Z.

(** The mantissa [m] at exponent [ex] brought to the exponent [e1]:
    the quotient and the location of the remainder. *)
Definition scale_to (m ex e1 : Z) : Z * location :=
  if e1 <=? ex
  then (m * 2 ^ (ex - e1), loc_Exact)
  else (m / 2 ^ (e1 - ex), locate (m mod 2 ^ (e1 - ex)) (2 ^ (e1 - ex))).

(** The last step of [binary_round_aux]: what a rounded mantissa and its
    exponent are turned into. *)
Definition classify (sx : bool) (m e : Z) : spec_float :=
  match m with
  | Z0 => S754_zero sx
  | Zpos p => if e <=? emax - prec then S754_finite sx p e else S754_infinity sx
  | Zneg _ => S754_nan
  end.

Definition finish (sx : bool) (m e : Z) : spec_float :=
  let n := Z.max 0 (fexp prec emax (Zdigits2 m + e) - e) in
  classify sx (m / 2 ^ n) (e + n).

End RoundingSteps.

(** A number that is zero, negative or NaN. *)
Definition notPositive (x : spec_float) : Prop :=
  match x with
  | S754_zero _ | S754_nan => True
  | S754_infinity s | S754_finite s _ _ => s = true
  end.

(** The centre of the window as a [double] and as a [float]. *)
Definition nominalMantissa64 : positive := 8953156059212546.
Definition nominalMantissa32 : positive := 16676553.

(** ** Fills against the declared histograms *)

Definition Hist_eq_dec (a b : Hist) : {a = b} + {a <> b}.
Proof. decide equality. Defined.

Definition Hist_eqb (a b : Hist) : bool :=
  if Hist_eq_dec a b then true else false.

Definition Registry_eqb (a b : Registry) : bool :=
  match a, b with
  | rEventSelection, rEventSelection | histos, histos => true
  | _, _ => false
  end.

(** The registry each [fill] statement of the source goes through:
    [rEventSelection.fill] for the two event counters, [histos.fill] for
    every other histogram. *)
Definition fillRegistry (h : Hist) : Registry :=
  match h with
  | hVertexZRec | hmult => rEventSelection
  | _ => histos
  end.

(** A fill is served by a declaration of the same registry and name with
    as many axes as the fill has coordinates. *)
Definition declares (s : HistSpec) (f : FillEvent) : bool :=
  Registry_eqb (h_registry s) (fillRegistry (fill_hist f)) &&
  Hist_eqb (h_name s) (fill_hist f) &&
  (length (h_axes s) =? length (fill_args f))%nat.

Definition registered (specs : list HistSpec) (f : FillEvent) : bool :=
  existsb (fun s => declares s f) specs.

(** The number of fills of the histogram [h]. *)
Definition countHist (h : Hist) (fills : list FillEvent) : nat :=
  length (filter (fun f => Hist_eqb (fill_hist f) h) fills).

(** The four histograms filled by [SelectionV0]. *)
Definition isV0QAHist (h : Hist) : bool :=
  match h with
  | hMassvsptvsmult | hDCAV0Daughters | hLT | hV0CosPA => true
  | _ => false
  end.

(** The two histograms filled for every track row and the five filled for
    every accepted pion. *)
Definition isBeforeHist (h : Hist) : bool :=
  match h with
  | hNsigmaPionTPC_before | hNsigmaPionTOF_before => true
  | _ => false
  end.

Definition isAfterHist (h : Hist) : bool :=
  match h with
  | hEta_after | hDcaxy_after | hDcaz_after
  | hNsigmaPionTPC_after | hNsigmaPionTOF_after => true
  | _ => false
  end.

(** An axis ROOT can book: at least one bin, and a lower bound below the
    upper bound. *)
Definition axisWellFormed (a : AxisSpec) : bool :=
  (0 <? a_nBins a) && lt (a_binMin a) (a_binMax a).

(** ** The vectors the same-event pairing loop writes to [CKSVector] *)

Section SameEventState.

Context {root : Root}.
Variable cfg : Config.

(** The vector written for the pion at [i1] and the composite at [i3], if
    any. *)
Definition pairWritesSE (pl : PionLists) (kl : KshortLists) (i1 i3 : nat)
  : list PtEtaPhiMVector :=
  if negb (at_ 0 (PionIndex pl) i1 =? at_ 0 (KshortPosDaughIndex kl) i3) &&
     negb (at_ 0 (PionIndex pl) i1 =? at_ 0 (KshortNegDaughIndex kl) i3) &&
     (at_ 0 (PioncollIndex pl) i1 =? at_ 0 (V0collIndex kl) i3)
  then [pairVectorSE pl kl i1 i3]
  else [].

(** The same for an accepted pion row and an accepted composite row. *)
Definition pairWrites (t : Track) (v : V0) : list PtEtaPhiMVector :=
  if negb (t_globalIndex t =? t_globalIndex (posTrack v)) &&
     negb (t_globalIndex t =? t_globalIndex (negTrack v)) &&
     (t_collisionId t =? v_collisionId v)
  then [pairVector t v]
  else [].

(** The vectors [processSE] writes, in loop order. *)
Definition writesSE (collision : Collision) (tracks : list Track)
           (V0s : list V0) : list PtEtaPhiMVector :=
  flat_map
    (fun t =>
       flat_map (pairWrites t)
                (filter (acceptV0 cfg collision
                                  (eventMultiplicity cfg collision)) V0s))
    (filter (acceptPion cfg) tracks).

End SameEventState.

(** ** Rows that differ in their identity only *)

(** The row [t] under another [globalIndex] and [collisionId]. *)
Definition withIdentity (t : Track) (gid cid : Z) : Track := {|
  t_globalIndex := gid; t_collisionId := cid;
  t_pt := t_pt t; t_eta := t_eta t; t_phi := t_phi t;
  sign := sign t;
  isGlobalTrack := isGlobalTrack t;
  isGlobalTrackWoDCA := isGlobalTrackWoDCA t;
  isPVContributor := isPVContributor t;
  itsNCls := itsNCls t;
  dcaXY := dcaXY t; dcaZ := dcaZ t;
  hasTPC := hasTPC t; hasTOF := hasTOF t;
  tpcNSigmaPi := tpcNSigmaPi t; tofNSigmaPi := tofNSigmaPi t;
  tpcNClsFound := tpcNClsFound t;
  tpcNClsCrossedRows := tpcNClsCrossedRows t;
  tpcCrossedRowsOverFindableCls := tpcCrossedRowsOverFindableCls t
|}.

(** ** The mixed-event engine, selector by selector *)

Section MixedEventSelectors.

Context {root : Root}.
Variable cfg : Config.

(** The two track checks that open the body of the combination loop. *)
Definition acceptTrackME (t1 : Track) : bool :=
  selectionTrack cfg t1 && selectionPID cfg t1.

(** The pairs [processME] does not skip. *)
Definition bothSel8 (p : MixedPair) : bool :=
  let '(c1, _, c2, _) := p in sel8 c1 && sel8 c2.

(** What the combination loop fills for an accepted track and an accepted
    composite. *)
Definition mixFillRows (multiplicity : float) (t1 : Track) (t2 : V0)
  : list FillEvent :=
  if lt (fabs (tlv_Rapidity (mixVector t1 t2))) d_0_5
  then [Fill h3CKSInvMassMixed
             [multiplicity; tlv_Pt (mixVector t1 t2); tlv_M (mixVector t1 t2)]]
  else [].

End MixedEventSelectors.

(** A number that is a zero or negative, and not NaN. *)
Definition zeroOrNegative (x : spec_float) : Prop :=
  match x with
  | S754_zero _ => True
  | S754_nan => False
  | S754_infinity s | S754_finite s _ _ => s = true
  end.

(** ** Sample data

    An instance of [Root] and rows on which the engine can be evaluated.
    The four-vectors of [sampleRoot] are stand-ins that keep the four
    coordinates they are built from: the sum adds coordinate-wise and the
    rapidity is read off the second coordinate. *)

Module Sample.

Definition Vec4 : Type := double * double * double * double.

Definition vec4_new (pt eta phi m : double) : Vec4 := (pt, eta, phi, m).

Definition vec4_add (a b : Vec4) : Vec4 :=
  let '(pt1, eta1, phi1, m1) := a in
  let '(pt2, eta2, phi2, m2) := b in
  (f64_add pt1 pt2, f64_add eta1 eta2, f64_add phi1 phi2, f64_add m1 m2).

Definition vec4_pt (a : Vec4) : double := let '(pt, _, _, _) := a in pt.
Definition vec4_eta (a : Vec4) : double := let '(_, eta, _, _) := a in eta.
Definition vec4_m (a : Vec4) : double := let '(_, _, _, m) := a in m.

Definition sampleRoot : Root := {|
  massPi := S754_finite false 5028553251167638 (-55);    (* 0.13957039 *)
  massK0s := S754_finite false 8964162856701840 (-54);   (* 0.497611 *)
  PtEtaPhiMVector := Vec4;
  PtEtaPhiMVector_new := vec4_new;
  lv_add := vec4_add;
  lv_Rapidity := vec4_eta;
  lv_Pt := vec4_pt;
  lv_M := vec4_m;
  TLorentzVector := Vec4;
  tlv_SetPtEtaPhiM := vec4_new;
  tlv_add := vec4_add;
  tlv_Rapidity := vec4_eta;
  tlv_Pt := vec4_pt;
  tlv_M := vec4_m
|}.

Definition f_0_1 : float := S754_finite false 13421773 (-27).
Definition f_0_25 : float := S754_finite false 8388608 (-25).
Definition f_0_497 : float := S754_finite false 16676553 (-25).
Definition f_0_5 : float := S754_finite false 8388608 (-24).
Definition f_0_99 : float := S754_finite false 16609444 (-24).
Definition f_1 : float := S754_finite false 8388608 (-23).
Definition f_3 : float := S754_finite false 12582912 (-22).
Definition f_5 : float := S754_finite false 10485760 (-21).

Definition collision0 : Collision := {|
  c_globalIndex := 0; sel8 := true;
  posX := f_zero; posY := f_zero; posZ := f_1;
  numContrib := 40;
  multZeqFT0A := f_5; multZeqFT0C := f_5;
  centFT0C := f_5; centFT0M := f_5
|}.

(** A track that passes the PID, both track policies and the daughter
    checks. *)
Definition track (id : Z) (charge : Z) : Track := {|
  t_globalIndex := id; t_collisionId := 0;
  t_pt := f_1; t_eta := f_0_1; t_phi := f_1;
  sign := charge;
  isGlobalTrack := true; isGlobalTrackWoDCA := true;
  isPVContributor := true;
  itsNCls := 7;
  dcaXY := f_0_1; dcaZ := f_0_1;
  hasTPC := true; hasTOF := false;
  tpcNSigmaPi := f_0_5; tofNSigmaPi := f_zero;
  tpcNClsFound := 120; tpcNClsCrossedRows := 130;
  tpcCrossedRowsOverFindableCls := f_1
|}.

(** A composite candidate that passes every cut of [SelectionV0] under
    [defaultConfig], with the given Armenteros-Podolanski variables,
    mass and daughters. *)
Definition v0 (qt al m : float) (pos neg : Track) : V0 := {|
  v_collisionId := 0;
  v_pt := f_1; v_eta := f_0_1; v_phi := f_1;
  dcav0topv := f_0_1;
  yK0Short := f_0_1;
  qtarm := qt;
  alpha := al;
  v0radius := f_1;
  dcaV0daughters := f_0_5;
  v0cosPA := f_0_99;
  distovertotmom := fun _ _ _ => f_5;
  mK0Short := m;
  posTrack := pos;
  negTrack := neg
|}.

(** qt = 0.1, alpha = 0.25: the ratio 0.4 passes the cut at 0.2. *)
Definition goodV0 (pos neg : Z) : V0 :=
  v0 f_0_1 f_0_25 f_0_497 (track pos 1) (track neg (-1)).

(** qt = 0.1, alpha = +0. *)
Definition v0AlphaZero : V0 :=
  v0 f_0_1 (S754_zero false) f_0_497 (track 1 1) (track 2 (-1)).

(** A collision that fails the [sel8] trigger selection. *)
Definition collisionNoSel8 : Collision := {|
  c_globalIndex := 1; sel8 := false;
  posX := f_zero; posY := f_zero; posZ := f_1;
  numContrib := 40;
  multZeqFT0A := f_5; multZeqFT0C := f_5;
  centFT0C := f_5; centFT0M := f_5
|}.

Definition state0 : @TaskState sampleRoot :=
  @Build_TaskState sampleRoot (vec4_new f_zero f_zero f_zero f_zero).

End Sample.

(** [defaultConfig] with both track policies switched on. *)
Definition cfgPolicyA : Config :=
  {| QAbefore := false; QAafter := false; QAv0 := false;
     cutzvertex := cutzvertex defaultConfig;
     ConfV0PtMin := ConfV0PtMin defaultConfig;
     ConfV0DCADaughMax := ConfV0DCADaughMax defaultConfig;
     ConfV0CPAMin := ConfV0CPAMin defaultConfig;
     ConfV0TranRadV0Min := ConfV0TranRadV0Min defaultConfig;
     ConfV0TranRadV0Max := ConfV0TranRadV0Max defaultConfig;
     cMaxV0LifeTime := cMaxV0LifeTime defaultConfig;
     cMaxV0DCA := cMaxV0DCA defaultConfig;
     cSigmaMassKs0 := cSigmaMassKs0 defaultConfig;
     cWidthKs0 := cWidthKs0 defaultConfig;
     ConfDaughEta := ConfDaughEta defaultConfig;
     ConfDaughTPCnclsMin := ConfDaughTPCnclsMin defaultConfig;
     ConfDaughDCAMin := ConfDaughDCAMin defaultConfig;
     ConfDaughPIDCuts := ConfDaughPIDCuts defaultConfig;
     cfgCutPT := cfgCutPT defaultConfig;
     cfgCutEta := cfgCutEta defaultConfig;
     cfgCutDCAxy := cfgCutDCAxy defaultConfig;
     cfgCutDCAz := cfgCutDCAz defaultConfig;
     nsigmaCutTPC := nsigmaCutTPC defaultConfig;
     nsigmaCutCombined := nsigmaCutCombined defaultConfig;
     cfgNoMixedEvents := 5;
     cfgMultFT0 := false; cfgCentFT0C := true;
     iscustomDCAcut := true; ismanualDCAcut := true;
     cfgITScluster := 0 |}.

(** The configuration [cfg] with other QA switches, PID thresholds and
    track-policy switches. *)
Definition reconfigure (cfg : Config) (qaBefore qaAfter qaV0 : bool)
           (tpcCut combinedCut : float) (custom manual : bool) : Config :=
  {| QAbefore := qaBefore; QAafter := qaAfter; QAv0 := qaV0;
     cutzvertex := cutzvertex cfg;
     ConfV0PtMin := ConfV0PtMin cfg;
     ConfV0DCADaughMax := ConfV0DCADaughMax cfg;
     ConfV0CPAMin := ConfV0CPAMin cfg;
     ConfV0TranRadV0Min := ConfV0TranRadV0Min cfg;
     ConfV0TranRadV0Max := ConfV0TranRadV0Max cfg;
     cMaxV0LifeTime := cMaxV0LifeTime cfg;
     cMaxV0DCA := cMaxV0DCA cfg;
     cSigmaMassKs0 := cSigmaMassKs0 cfg;
     cWidthKs0 := cWidthKs0 cfg;
     ConfDaughEta := ConfDaughEta cfg;
     ConfDaughTPCnclsMin := ConfDaughTPCnclsMin cfg;
     ConfDaughDCAMin := ConfDaughDCAMin cfg;
     ConfDaughPIDCuts := ConfDaughPIDCuts cfg;
     cfgCutPT := cfgCutPT cfg;
     cfgCutEta := cfgCutEta cfg;
     cfgCutDCAxy := cfgCutDCAxy cfg;
     cfgCutDCAz := cfgCutDCAz cfg;
     nsigmaCutTPC := tpcCut;
     nsigmaCutCombined := combinedCut;
     cfgNoMixedEvents := cfgNoMixedEvents cfg;
     cfgMultFT0 := cfgMultFT0 cfg; cfgCentFT0C := cfgCentFT0C cfg;
     iscustomDCAcut := custom; ismanualDCAcut := manual;
     cfgITScluster := cfgITScluster cfg |}.

(** [defaultConfig] with the given QA switches. *)
Definition cfgQA (qaBefore qaAfter qaV0 : bool) : Config :=
  reconfigure defaultConfig qaBefore qaAfter qaV0
              (nsigmaCutTPC defaultConfig) (nsigmaCutCombined defaultConfig)
              (iscustomDCAcut defaultConfig) (ismanualDCAcut defaultConfig).

(** ** Sample rows at the edges of the selectors *)

Module EdgeSample.

Definition f_m0_25 : float := S754_finite true 8388608 (-25).

(** A track as [Sample.track], with the given PID columns. *)
Definition pion (tof : bool) (nsTPC nsTOF : float) : Track := {|
  t_globalIndex := 1; t_collisionId := 0;
  t_pt := Sample.f_1; t_eta := Sample.f_0_1; t_phi := Sample.f_1;
  sign := 1;
  isGlobalTrack := true; isGlobalTrackWoDCA := true;
  isPVContributor := true;
  itsNCls := 7;
  dcaXY := Sample.f_0_1; dcaZ := Sample.f_0_1;
  hasTPC := true; hasTOF := tof;
  tpcNSigmaPi := nsTPC; tofNSigmaPi := nsTOF;
  tpcNClsFound := 120; tpcNClsCrossedRows := 130;
  tpcCrossedRowsOverFindableCls := Sample.f_1
|}.

(** A composite candidate none of whose measured columns is a number. *)
Definition nanV0 : V0 := {|
  v_collisionId := 0;
  v_pt := S754_nan; v_eta := Sample.f_0_1; v_phi := Sample.f_1;
  dcav0topv := S754_nan;
  yK0Short := S754_nan;
  qtarm := Sample.f_0_1;
  alpha := S754_nan;
  v0radius := S754_nan;
  dcaV0daughters := S754_nan;
  v0cosPA := S754_nan;
  distovertotmom := fun _ _ _ => S754_nan;
  mK0Short := S754_nan;
  posTrack := Sample.track 1 1;
  negTrack := Sample.track 2 (-1)
|}.

(** qt = 0.1, alpha = -0.25: the ratio is -0.4. *)
Definition v0AlphaNegative : V0 :=
  Sample.v0 Sample.f_0_1 f_m0_25 Sample.f_0_497
            (Sample.track 1 1) (Sample.track 2 (-1)).

End EdgeSample.

(** ** Sample collisions for event mixing *)

Module MixingSample.

(** Buckets of width 5 in the number of contributors; two buckets in z,
    split at zero. *)
Definition binning : BinningPolicy := {|
  vertexBucket := fun z => if lt z f_zero then 0 else 1;
  multiplicityBucket := fun n => n / 5
|}.

Definition collisionAt (id : Z) (z : float) (n : Z) : Collision := {|
  c_globalIndex := id; sel8 := true;
  posX := f_zero; posY := f_zero; posZ := z;
  numContrib := n;
  multZeqFT0A := Sample.f_5; multZeqFT0C := Sample.f_5;
  centFT0C := Sample.f_5; centFT0M := Sample.f_5
|}.

Definition cA : Collision := collisionAt 0 Sample.f_1 41.
Definition cB : Collision := collisionAt 1 Sample.f_1 90.
Definition cC : Collision := collisionAt 2 Sample.f_0_5 43.

End MixingSample.

(** * Facts

    ** Comparisons *)

Lemma SFcompare_antisym (x y : spec_float) :
  SFcompare y x = option_map CompOpp (SFcompare x y).
Proof.
  destruct x as [sx | sx | | sx mx ex], y as [sy | sy | | sy my ey]; simpl;
    try reflexivity;
    try (destruct sx; reflexivity);
    try (destruct sy; reflexivity);
    try (destruct sx, sy; reflexivity).
  assert (Hm : Pos.compare_cont Eq my mx = CompOpp (Pos.compare_cont Eq mx my))
    by (rewrite (Pos.compare_cont_antisym mx my Eq); reflexivity).
  destruct sx, sy; try reflexivity;
    rewrite (Z.compare_antisym ex ey);
    destruct (ex ?= ey); simpl; try reflexivity;
    rewrite Hm; destruct (Pos.compare_cont Eq mx my); reflexivity.
Qed.

(** [x < y] excludes [y <= x]. *)
Lemma lt_not_ge (x y : spec_float) : lt x y = true -> SFleb y x = false.
Proof.
  unfold lt, SFltb, SFleb. rewrite (SFcompare_antisym x y).
  destruct (SFcompare x y) as [[ | | ] | ]; simpl; congruence.
Qed.

Lemma filter_none {A : Type} (p : A -> bool) (l : list A) :
  (forall x, In x l -> p x = false) -> filter p l = [].
Proof.
  induction l as [ | a l IH ]; intros H; simpl; [ reflexivity | ].
  rewrite (H a (or_introl eq_refl)). apply IH.
  intros x Hx. apply H. now right.
Qed.

Lemma filter_all {A : Type} (p : A -> bool) (l : list A) :
  (forall x, In x l -> p x = true) -> filter p l = l.
Proof.
  induction l as [ | a l IH ]; intros H; simpl; [ reflexivity | ].
  rewrite (H a (or_introl eq_refl)). f_equal. apply IH.
  intros x Hx. apply H. now right.
Qed.

Lemma In_firstn {A : Type} (n : nat) (l : list A) (x : A) :
  In x (firstn n l) -> In x l.
Proof.
  revert l. induction n as [ | n IH ]; intros [ | a l ]; simpl;
    try contradiction.
  intros [H | H]; auto.
Qed.

Lemma flat_map_seq_nth {A B : Type} (l : list A) (g : nat -> list B)
      (f : A -> list B) (start : nat) :
  (forall i a, nth_error l i = Some a -> g (start + i)%nat = f a) ->
  flat_map g (seq start (length l)) = flat_map f l.
Proof.
  revert start. induction l as [ | a l IH ]; intros start H; simpl.
  - reflexivity.
  - f_equal.
    + rewrite <- (H 0%nat a eq_refl). f_equal. lia.
    + apply IH. intros i b Hi.
      rewrite <- (H (S i) b Hi). f_equal. lia.
Qed.

(** ** Track and PID acceptance *)

(** What [selectionTrack] computes: each enabled policy must pass. *)
Lemma selectionTrack_policies (cfg : Config) (candidate : Track) :
  selectionTrack cfg candidate =
  (negb (iscustomDCAcut cfg) || policyA cfg candidate) &&
  (negb (ismanualDCAcut cfg) || policyB cfg candidate).
Proof.
  unfold selectionTrack. fold (policyA cfg candidate) (policyB cfg candidate).
  destruct (iscustomDCAcut cfg), (ismanualDCAcut cfg),
    (policyA cfg candidate), (policyB cfg candidate); reflexivity.
Qed.

(** A row that passed [DCAcutFilter] passes policy B. *)
Lemma DCAcutFilter_policyB (cfg : Config) (candidate : Track) :
  DCAcutFilter cfg candidate = true -> policyB cfg candidate = true.
Proof.
  unfold DCAcutFilter, policyB. intros H.
  apply andb_true_iff in H. destruct H as [Hxy _]. rewrite Hxy.
  now rewrite !orb_true_r.
Qed.

Lemma policyA_true_iff (cfg : Config) (candidate : Track) :
  policyA cfg candidate = true <->
  isGlobalTrack candidate = true \/ isPVContributor candidate = true \/
  cfgITScluster cfg < itsNCls candidate.
Proof.
  unfold policyA. rewrite !orb_true_iff, Z.ltb_lt. tauto.
Qed.

(** C6. With policy A configured ([iscustomDCAcut] set) and policy B
    either not configured or satisfied by the row filter [DCAcutFilter]
    that every row of [TrackCandidates] has passed, [selectionTrack]
    returns true iff the candidate is a global track, or a PV contributor,
    or has more ITS clusters than [cfgITScluster]; it returns false iff
    all three fail. *)
Theorem selectionTrack_policyA (cfg : Config) (candidate : Track) :
  iscustomDCAcut cfg = true ->
  ismanualDCAcut cfg = false \/ DCAcutFilter cfg candidate = true ->
  (selectionTrack cfg candidate = true <->
   isGlobalTrack candidate = true \/ isPVContributor candidate = true \/
   cfgITScluster cfg < itsNCls candidate) /\
  (selectionTrack cfg candidate = false <->
   isGlobalTrack candidate = false /\ isPVContributor candidate = false /\
   ~ cfgITScluster cfg < itsNCls candidate).
Proof.
  intros HA HB.
  assert (Hsel : selectionTrack cfg candidate = policyA cfg candidate).
  { rewrite selectionTrack_policies, HA. simpl.
    destruct HB as [HB | HB].
    - rewrite HB. simpl. apply andb_true_r.
    - rewrite (DCAcutFilter_policyB _ _ HB), orb_true_r. apply andb_true_r. }
  rewrite Hsel. split.
  - apply policyA_true_iff.
  - rewrite <- not_true_iff_false, policyA_true_iff.
    destruct (isGlobalTrack candidate), (isPVContributor candidate);
      intuition congruence.
Qed.

Lemma selectionTrack_policyA_witness :
  iscustomDCAcut cfgPolicyA = true /\
  DCAcutFilter cfgPolicyA (Sample.track 1 1) = true /\
  (selectionTrack cfgPolicyA (Sample.track 1 1) = true <->
   isGlobalTrack (Sample.track 1 1) = true \/
   isPVContributor (Sample.track 1 1) = true \/
   cfgITScluster cfgPolicyA < itsNCls (Sample.track 1 1)).
Proof.
  split; [ reflexivity | ]. split; [ reflexivity | ].
  apply (selectionTrack_policyA cfgPolicyA (Sample.track 1 1));
    [ reflexivity | right; reflexivity ].
Defined.

(** C7. [selectionPID] returns true iff the candidate has a TOF
    measurement and tofNSigmaPi^2 + tpcNSigmaPi^2 (in [float] arithmetic)
    is below nsigmaCutCombined^2, or it has no TOF measurement and
    |tpcNSigmaPi| is below nsigmaCutTPC. *)
Theorem selectionPID_iff (cfg : Config) (candidate : Track) :
  selectionPID cfg candidate = true <->
  (hasTOF candidate = true /\
   lt (f32_add (f32_mul (tofNSigmaPi candidate) (tofNSigmaPi candidate))
               (f32_mul (tpcNSigmaPi candidate) (tpcNSigmaPi candidate)))
      (f32_mul (nsigmaCutCombined cfg) (nsigmaCutCombined cfg)) = true) \/
  (hasTOF candidate = false /\
   lt (fabs (tpcNSigmaPi candidate)) (nsigmaCutTPC cfg) = true).
Proof.
  unfold selectionPID.
  destruct (hasTOF candidate); simpl.
  - destruct (lt _ _); intuition congruence.
  - destruct (lt _ _); intuition congruence.
Qed.

(** ** Composite-daughter and composite-candidate acceptance *)

Section CutsFacts.

Context {root : Root}.
Variable cfg : Config.

Lemma isSelectedV0Daughter_cuts (track : Track) (charge : float)
      (nsigmaV0Daughter : double) :
  isSelectedV0Daughter cfg track charge nsigmaV0Daughter =
  daughterChecksExceptCharge cfg track nsigmaV0Daughter &&
  negb (chargeMismatch charge (sign track)).
Proof.
  unfold isSelectedV0Daughter, daughterChecksExceptCharge, chargeMismatch.
  destruct (hasTPC track), (tpcNClsCrossedRows track <? 70),
    (lt (to_double (tpcCrossedRowsOverFindableCls track)) d_0_8),
    (lt charge (float_of_int 0)), (0 <? sign track),
    (gt charge (float_of_int 0)), (sign track <? 0),
    (gt (fabs (t_eta track)) (ConfDaughEta cfg)),
    (lt (float_of_int (tpcNClsFound track)) (ConfDaughTPCnclsMin cfg)),
    (lt (fabs (dcaXY track)) (ConfDaughDCAMin cfg)),
    (gt (fabs nsigmaV0Daughter) (to_double (ConfDaughPIDCuts cfg)));
    reflexivity.
Qed.

Lemma SelectionV0_cuts (collision : Collision) (candidate : V0)
      (multiplicity : float) :
  fst (SelectionV0 cfg collision candidate multiplicity) =
  passesTopology cfg candidate && passesLifetime cfg collision candidate &&
  passesMassWindow cfg candidate && passesArmenteros candidate.
Proof.
  unfold SelectionV0, passesTopology, passesLifetime, passesMassWindow,
    passesArmenteros.
  repeat match goal with
         | |- context [if ?b then (false, _) else _] =>
             destruct b; simpl; [ reflexivity | ]
         end.
  destruct (gt (fabs (to_double (CtauK0s collision candidate)))
               (cMaxV0LifeTime cfg)); simpl; [ reflexivity | ].
  destruct (lt (mK0Short candidate) (lowmasscutks0 cfg)); simpl;
    [ reflexivity | ].
  destruct (gt (mK0Short candidate) (highmasscutks0 cfg)); simpl;
    [ reflexivity | ].
  destruct (lt (to_double (arm candidate)) d_0_2); reflexivity.
Qed.

(** A rejected candidate fills nothing. *)
Lemma SelectionV0_rejected_no_fill (collision : Collision) (candidate : V0)
      (multiplicity : float) :
  fst (SelectionV0 cfg collision candidate multiplicity) = false ->
  snd (SelectionV0 cfg collision candidate multiplicity) = [].
Proof.
  unfold SelectionV0.
  repeat match goal with
         | |- context [if ?b then (false, _) else _] =>
             destruct b; simpl; [ reflexivity | ]
         end.
  discriminate.
Qed.

(** Division by a zero: the quotient is NaN for a zero or NaN dividend,
    and an infinity whose sign is the product of the signs otherwise. *)
Lemma f32_div_zero (x : float) (s : bool) :
  f32_div x (S754_zero s) =
  match x with
  | S754_zero _ | S754_nan => S754_nan
  | S754_infinity sx | S754_finite sx _ _ => S754_infinity (xorb sx s)
  end.
Proof. destruct x; reflexivity. Qed.

Lemma passesArmenteros_alpha_zero (candidate : V0) (s : bool) :
  alpha candidate = S754_zero s ->
  passesArmenteros candidate = true <-> arm candidate <> S754_infinity true.
Proof.
  intros Ha. unfold passesArmenteros, arm. rewrite Ha, f32_div_zero.
  destruct (qtarm candidate) as [sx | sx | | sx mx ex]; simpl;
    try (split; [ discriminate | reflexivity ]);
    destruct (xorb sx s); simpl;
    split; try discriminate; try reflexivity; congruence.
Qed.

End CutsFacts.

Lemma chargeMismatch_iff (charge : float) (s : Z) :
  chargeMismatch charge s = true <->
  (lt charge (float_of_int 0) = true /\ 0 < s) \/
  (gt charge (float_of_int 0) = true /\ s < 0).
Proof.
  unfold chargeMismatch.
  rewrite orb_true_iff, !andb_true_iff, !Z.ltb_lt. tauto.
Qed.

(** C10. A track whose sign is 0 passes the charge check of
    [isSelectedV0Daughter] for the requested charge +1 and for the
    requested charge -1 (indeed for any): the outcome is that of the other
    checks.  For any track that passes the other checks, the function
    rejects iff the requested charge is negative and the sign positive, or
    the requested charge positive and the sign negative. *)
Theorem isSelectedV0Daughter_sign_zero (cfg : Config) (track : Track)
        (nsigmaV0Daughter : double) :
  sign track = 0 ->
  (forall charge : float,
      isSelectedV0Daughter cfg track charge nsigmaV0Daughter =
      daughterChecksExceptCharge cfg track nsigmaV0Daughter) /\
  isSelectedV0Daughter cfg track (float_of_int 1) nsigmaV0Daughter =
  isSelectedV0Daughter cfg track (float_of_int (-1)) nsigmaV0Daughter /\
  (forall (other : Track) (charge : float),
      daughterChecksExceptCharge cfg other nsigmaV0Daughter = true ->
      (isSelectedV0Daughter cfg other charge nsigmaV0Daughter = false <->
       (lt charge (float_of_int 0) = true /\ 0 < sign other) \/
       (gt charge (float_of_int 0) = true /\ sign other < 0))).
Proof.
  intros Hs.
  assert (H0 : forall charge,
             isSelectedV0Daughter cfg track charge nsigmaV0Daughter =
             daughterChecksExceptCharge cfg track nsigmaV0Daughter).
  { intros charge. rewrite isSelectedV0Daughter_cuts, Hs.
    unfold chargeMismatch. simpl. rewrite !andb_false_r. simpl.
    apply andb_true_r. }
  split; [ exact H0 | ]. split.
  - now rewrite !H0.
  - intros other charge Hother.
    rewrite isSelectedV0Daughter_cuts, Hother, <- chargeMismatch_iff. simpl.
    destruct (chargeMismatch charge (sign other)); simpl; intuition congruence.
Qed.

Lemma isSelectedV0Daughter_sign_zero_witness :
  isSelectedV0Daughter defaultConfig (Sample.track 1 0) (float_of_int 1)
                       (to_double Sample.f_0_5) = true /\
  isSelectedV0Daughter defaultConfig (Sample.track 1 0) (float_of_int (-1))
                       (to_double Sample.f_0_5) = true.
Proof.
  destruct (isSelectedV0Daughter_sign_zero defaultConfig (Sample.track 1 0)
              (to_double Sample.f_0_5) eq_refl) as [H _].
  rewrite !H. split; reflexivity.
Defined.

(** C1, as the code has it. [SelectionV0] does not guard alpha. When alpha
    is zero the [float] ratio qtarm/alpha is NaN (for a zero or NaN qtarm)
    or an infinity whose sign is the product of the signs, and evaluating
    it is not an error; the candidate is accepted exactly when every other
    cut passes and the ratio is not -infinity. *)
Theorem SelectionV0_alpha_zero {root : Root} (cfg : Config)
        (collision : Collision) (candidate : V0) (multiplicity : float)
        (s : bool) :
  alpha candidate = S754_zero s ->
  arm candidate =
  match qtarm candidate with
  | S754_zero _ | S754_nan => S754_nan
  | S754_infinity sx | S754_finite sx _ _ => S754_infinity (xorb sx s)
  end /\
  (fst (SelectionV0 cfg collision candidate multiplicity) = true <->
   passesAllButArmenteros cfg collision candidate = true /\
   arm candidate <> S754_infinity true).
Proof.
  intros Ha. split.
  - unfold arm. rewrite Ha. apply f32_div_zero.
  - rewrite SelectionV0_cuts, <- (passesArmenteros_alpha_zero candidate Ha).
    unfold passesAllButArmenteros. rewrite !andb_true_iff. tauto.
Qed.

Lemma SelectionV0_alpha_zero_witness :
  alpha Sample.v0AlphaZero = S754_zero false /\
  arm Sample.v0AlphaZero = S754_infinity false /\
  (fst (@SelectionV0 Sample.sampleRoot defaultConfig Sample.collision0
                     Sample.v0AlphaZero Sample.f_5) = true <->
   @passesAllButArmenteros Sample.sampleRoot defaultConfig Sample.collision0
                           Sample.v0AlphaZero = true /\
   arm Sample.v0AlphaZero <> S754_infinity true).
Proof.
  split; [ reflexivity | ]. split; [ reflexivity | ].
  apply (@SelectionV0_alpha_zero Sample.sampleRoot defaultConfig
           Sample.collision0 Sample.v0AlphaZero Sample.f_5 false eq_refl).
Defined.

(** C1, as stated, fails: under the default configuration a candidate with
    alpha = +0 and qtarm = 0.1 that passes the other cuts is accepted. *)
Lemma SelectionV0_alpha_zero_accepted :
  alpha Sample.v0AlphaZero = S754_zero false /\
  fst (@SelectionV0 Sample.sampleRoot defaultConfig Sample.collision0
                    Sample.v0AlphaZero Sample.f_5) = true.
Proof. split; reflexivity. Qed.

(** ** Same-event engine *)

Section SameEvent.

Context {root : Root}.
Variable cfg : Config.

(** C5. A collision whose [sel8] flag is false is skipped before any
    fill: [processSE] returns the empty list of fills (and leaves the
    state as it was). *)
Theorem processSE_sel8_false (st : TaskState) (collision : Collision)
        (tracks : list Track) (V0s : list V0) :
  sel8 collision = false ->
  processSE cfg st collision tracks V0s = (st, []).
Proof.
  intros H. unfold processSE. rewrite H. reflexivity.
Qed.

(** The fills of one pair do not depend on the state it starts from. *)
Lemma pairBodySE_fills_state (multiplicity : float) (pl : PionLists)
      (kl : KshortLists) (st1 st2 : TaskState) (i1 i3 : nat) :
  snd (pairBodySE multiplicity pl kl st1 i1 i3) =
  snd (pairBodySE multiplicity pl kl st2 i1 i3).
Proof.
  unfold pairBodySE.
  repeat match goal with
         | |- context [if ?b then _ else _] => destruct b; simpl
         end; reflexivity.
Qed.

(** What one pair fills. *)
Lemma pairBodySE_fills (multiplicity : float) (pl : PionLists)
      (kl : KshortLists) (st : TaskState) (i1 i3 : nat) :
  snd (pairBodySE multiplicity pl kl st i1 i3) =
  if negb (at_ 0 (PionIndex pl) i1 =? at_ 0 (KshortPosDaughIndex kl) i3) &&
     negb (at_ 0 (PionIndex pl) i1 =? at_ 0 (KshortNegDaughIndex kl) i3) &&
     (at_ 0 (PioncollIndex pl) i1 =? at_ 0 (V0collIndex kl) i3) &&
     lt (fabs (lv_Rapidity (pairVectorSE pl kl i1 i3))) d_0_5
  then [Fill h3CKSInvMassUnlikeSign
             [multiplicity; lv_Pt (pairVectorSE pl kl i1 i3);
              lv_M (pairVectorSE pl kl i1 i3)]]
  else [].
Proof.
  unfold pairBodySE, pairVectorSE.
  destruct (at_ 0 (PionIndex pl) i1 =? at_ 0 (KshortPosDaughIndex kl) i3);
    simpl; [ reflexivity | ].
  destruct (at_ 0 (PionIndex pl) i1 =? at_ 0 (KshortNegDaughIndex kl) i3);
    simpl; [ reflexivity | ].
  destruct (at_ 0 (PioncollIndex pl) i1 =? at_ 0 (V0collIndex kl) i3);
    simpl; [ | reflexivity ].
  destruct (lt _ d_0_5); reflexivity.
Qed.

Lemma innerLoopSE_fills (multiplicity : float) (pl : PionLists)
      (kl : KshortLists) (st0 : TaskState) (i1 : nat) (l : list nat)
      (acc : TaskState * list FillEvent) :
  snd (fold_left
         (fun acc i3 =>
            let '(st', out) :=
              pairBodySE multiplicity pl kl (fst acc) i1 i3 in
            (st', snd acc ++ out)) l acc) =
  snd acc ++
  flat_map (fun i3 => snd (pairBodySE multiplicity pl kl st0 i1 i3)) l.
Proof.
  revert acc. induction l as [ | i3 l IH ]; intros acc; simpl.
  - now rewrite app_nil_r.
  - rewrite IH.
    destruct (pairBodySE multiplicity pl kl (fst acc) i1 i3) as [st' out] eqn:E.
    simpl. rewrite <- app_assoc. f_equal. f_equal.
    rewrite (pairBodySE_fills_state multiplicity pl kl st0 (fst acc) i1 i3), E.
    reflexivity.
Qed.

Lemma outerLoopSE_fills (multiplicity : float) (pl : PionLists)
      (kl : KshortLists) (st0 : TaskState) (l : list nat)
      (acc : TaskState * list FillEvent) :
  snd (fold_left (innerLoopSE multiplicity pl kl) l acc) =
  snd acc ++
  flat_map
    (fun i1 =>
       flat_map (fun i3 => snd (pairBodySE multiplicity pl kl st0 i1 i3))
                (seq 0 (length (kshorts kl)))) l.
Proof.
  revert acc. induction l as [ | i1 l IH ]; intros acc; simpl.
  - now rewrite app_nil_r.
  - rewrite IH. unfold innerLoopSE.
    rewrite (innerLoopSE_fills multiplicity pl kl st0 i1).
    now rewrite <- app_assoc.
Qed.

Lemma pairLoopSE_fills (multiplicity : float) (pl : PionLists)
      (kl : KshortLists) (st st0 : TaskState) :
  snd (pairLoopSE multiplicity pl kl st) = pairFillsSE multiplicity pl kl st0.
Proof.
  unfold pairLoopSE, pairFillsSE.
  destruct (length (kshorts kl)) as [ | nk ] eqn:Ek.
  - rewrite andb_false_r. simpl.
    induction (seq 0 (length (pions pl))); simpl; auto.
  - destruct (length (pions pl)) as [ | np ] eqn:Ep; [ reflexivity | ].
    change (negb (S np =? 0)%nat && negb (S nk =? 0)%nat) with true.
    cbv iota. rewrite (outerLoopSE_fills multiplicity pl kl st0).
    rewrite Ek. reflexivity.
Qed.

Lemma trackStep_spec (fills : list FillEvent) (pl : PionLists)
      (track1 : Track) :
  trackStep cfg (fills, pl) track1 =
  (fills ++ trackFills cfg track1,
   if acceptPion cfg track1
   then {| pions := pions pl ++ [pionVector track1];
           PionIndex := PionIndex pl ++ [t_globalIndex track1];
           PioncollIndex := PioncollIndex pl ++ [t_collisionId track1] |}
   else pl).
Proof.
  unfold trackStep, trackFills, acceptPion, pionVector.
  destruct (QAbefore cfg), (selectionPID cfg track1),
    (selectionTrack cfg track1), (QAafter cfg); simpl;
    rewrite <- ?app_assoc, ?app_nil_r; reflexivity.
Qed.

Lemma trackLoop_gen (tracks : list Track) (fills : list FillEvent)
      (pl : PionLists) :
  fold_left (trackStep cfg) tracks (fills, pl) =
  (fills ++ flat_map (trackFills cfg) tracks,
   {| pions := pions pl ++ map pionVector (filter (acceptPion cfg) tracks);
      PionIndex :=
        PionIndex pl ++ map t_globalIndex (filter (acceptPion cfg) tracks);
      PioncollIndex :=
        PioncollIndex pl ++
        map t_collisionId (filter (acceptPion cfg) tracks) |}).
Proof.
  revert fills pl. induction tracks as [ | t tracks IH ]; intros fills pl.
  - simpl. rewrite !app_nil_r. destruct pl; reflexivity.
  - cbn [fold_left]. rewrite trackStep_spec, IH. cbn [flat_map filter map].
    rewrite <- app_assoc. f_equal.
    destruct (acceptPion cfg t); simpl; rewrite <- ?app_assoc; reflexivity.
Qed.

Lemma trackLoop_spec (tracks : list Track) (fills : list FillEvent) :
  trackLoop cfg fills tracks =
  (fills ++ flat_map (trackFills cfg) tracks,
   {| pions := map pionVector (filter (acceptPion cfg) tracks);
      PionIndex := map t_globalIndex (filter (acceptPion cfg) tracks);
      PioncollIndex := map t_collisionId (filter (acceptPion cfg) tracks) |}).
Proof. unfold trackLoop. now rewrite trackLoop_gen. Qed.

Lemma v0Step_spec (collision : Collision) (multiplicity : float)
      (fills : list FillEvent) (kl : KshortLists) (v0 : V0) :
  v0Step cfg collision multiplicity (fills, kl) v0 =
  (fills ++ v0Fills cfg collision multiplicity v0,
   if acceptV0 cfg collision multiplicity v0
   then {| kshorts := kshorts kl ++ [kshortVector v0];
           V0collIndex := V0collIndex kl ++ [v_collisionId v0];
           KshortPosDaughIndex :=
             KshortPosDaughIndex kl ++ [t_globalIndex (posTrack v0)];
           KshortNegDaughIndex :=
             KshortNegDaughIndex kl ++ [t_globalIndex (negTrack v0)] |}
   else kl).
Proof.
  unfold v0Step, v0Fills, acceptV0, daughtersSelected, kshortVector.
  destruct (isSelectedV0Daughter cfg (posTrack v0) _ _); simpl;
    [ | now rewrite app_nil_r ].
  destruct (isSelectedV0Daughter cfg (negTrack v0) _ _); simpl;
    [ | now rewrite app_nil_r ].
  destruct (SelectionV0 cfg collision v0 multiplicity) as [[ | ] qa];
    reflexivity.
Qed.

Lemma v0Loop_gen (collision : Collision) (multiplicity : float)
      (V0s : list V0) (fills : list FillEvent) (kl : KshortLists) :
  fold_left (v0Step cfg collision multiplicity) V0s (fills, kl) =
  (fills ++ flat_map (v0Fills cfg collision multiplicity) V0s,
   let accepted := filter (acceptV0 cfg collision multiplicity) V0s in
   {| kshorts := kshorts kl ++ map kshortVector accepted;
      V0collIndex := V0collIndex kl ++ map v_collisionId accepted;
      KshortPosDaughIndex :=
        KshortPosDaughIndex kl ++
        map (fun v => t_globalIndex (posTrack v)) accepted;
      KshortNegDaughIndex :=
        KshortNegDaughIndex kl ++
        map (fun v => t_globalIndex (negTrack v)) accepted |}).
Proof.
  revert fills kl. induction V0s as [ | v V0s IH ]; intros fills kl.
  - simpl. rewrite !app_nil_r. destruct kl; reflexivity.
  - cbn [fold_left]. rewrite v0Step_spec, IH. cbn [flat_map filter map].
    rewrite <- app_assoc. f_equal.
    destruct (acceptV0 cfg collision multiplicity v); simpl;
      rewrite <- ?app_assoc; reflexivity.
Qed.

Lemma v0Loop_spec (collision : Collision) (multiplicity : float)
      (V0s : list V0) (fills : list FillEvent) :
  v0Loop cfg collision multiplicity fills V0s =
  (fills ++ flat_map (v0Fills cfg collision multiplicity) V0s,
   let accepted := filter (acceptV0 cfg collision multiplicity) V0s in
   {| kshorts := map kshortVector accepted;
      V0collIndex := map v_collisionId accepted;
      KshortPosDaughIndex :=
        map (fun v => t_globalIndex (posTrack v)) accepted;
      KshortNegDaughIndex :=
        map (fun v => t_globalIndex (negTrack v)) accepted |}).
Proof. unfold v0Loop. now rewrite v0Loop_gen. Qed.

(** The vectors indexed together have the same length. *)
Lemma trackLoop_lengths (tracks : list Track) (fills : list FillEvent) :
  let pl := snd (trackLoop cfg fills tracks) in
  length (PionIndex pl) = length (pions pl) /\
  length (PioncollIndex pl) = length (pions pl).
Proof. rewrite trackLoop_spec. simpl. now rewrite !length_map. Qed.

Lemma v0Loop_lengths (collision : Collision) (multiplicity : float)
      (V0s : list V0) (fills : list FillEvent) :
  let kl := snd (v0Loop cfg collision multiplicity fills V0s) in
  length (V0collIndex kl) = length (kshorts kl) /\
  length (KshortPosDaughIndex kl) = length (kshorts kl) /\
  length (KshortNegDaughIndex kl) = length (kshorts kl).
Proof. rewrite v0Loop_spec. simpl. now rewrite !length_map. Qed.

Lemma at_map {A B : Type} (h : A -> B) (d : B) (l : list A) (i : nat) (a : A) :
  nth_error l i = Some a -> at_ d (map h l) i = h a.
Proof.
  intros H. unfold at_. apply nth_error_nth. now apply map_nth_error.
Qed.

Lemma pairFillsSE_rows (multiplicity : float) (P : list Track) (K : list V0)
      (st : TaskState) :
  pairFillsSE multiplicity (pionListsOf P) (kshortListsOf K) st =
  flat_map (fun t => flat_map (pairFillRows multiplicity t) K) P.
Proof.
  unfold pairFillsSE. simpl. rewrite !length_map.
  apply flat_map_seq_nth. intros i1 t Ht.
  apply flat_map_seq_nth. intros i3 v Hv. simpl.
  rewrite pairBodySE_fills. unfold pairVectorSE, pairFillRows, pairVector.
  simpl.
  rewrite (at_map t_globalIndex 0 P i1 Ht),
    (at_map t_collisionId 0 P i1 Ht),
    (at_map pionVector nullVector P i1 Ht),
    (at_map (fun v => t_globalIndex (posTrack v)) 0 K i3 Hv),
    (at_map (fun v => t_globalIndex (negTrack v)) 0 K i3 Hv),
    (at_map v_collisionId 0 K i3 Hv),
    (at_map kshortVector nullVector K i3 Hv).
  reflexivity.
Qed.

(** What [processSE] fills, whatever state it starts from. *)
Lemma processSE_fills (st : TaskState) (collision : Collision)
      (tracks : list Track) (V0s : list V0) :
  snd (processSE cfg st collision tracks V0s) =
  if sel8 collision
  then selectionFillsSE cfg collision tracks V0s ++
       massFillsSE cfg collision tracks V0s
  else [].
Proof.
  unfold processSE. destruct (sel8 collision); simpl; [ | reflexivity ].
  rewrite trackLoop_spec, v0Loop_spec. cbv zeta.
  match goal with
  | |- context [pairLoopSE ?m ?pl ?kl ?s] =>
      pose proof (pairLoopSE_fills m pl kl s s) as Hp;
      destruct (pairLoopSE m pl kl s) as [st' out]
  end.
  simpl in Hp. subst out. simpl snd.
  unfold selectionFillsSE, massFillsSE.
  rewrite <- (pairFillsSE_rows (eventMultiplicity cfg collision)
                (filter (acceptPion cfg) tracks)
                (filter (acceptV0 cfg collision (eventMultiplicity cfg collision))
                        V0s) st).
  unfold pionListsOf, kshortListsOf, eventFills. simpl.
  rewrite <- ?app_assoc. reflexivity.
Qed.

Lemma SelectionV0_no_mass_fill (collision : Collision) (candidate : V0)
      (multiplicity : float) (f : FillEvent) :
  In f (snd (SelectionV0 cfg collision candidate multiplicity)) ->
  isMassFill f = false.
Proof.
  unfold SelectionV0.
  repeat match goal with
         | |- context [if ?b then (false, _) else _] =>
             destruct b; simpl; [ contradiction | ]
         end.
  destruct (QAv0 cfg); simpl; [ | contradiction ].
  intros [H | [H | [H | [H | []]]]]; subst f; reflexivity.
Qed.

Lemma selectionFillsSE_no_mass_fill (collision : Collision)
      (tracks : list Track) (V0s : list V0) (f : FillEvent) :
  In f (selectionFillsSE cfg collision tracks V0s) -> isMassFill f = false.
Proof.
  unfold selectionFillsSE. rewrite !in_app_iff, !in_flat_map.
  intros [H | [[t [_ H]] | [v [_ H]]]].
  - destruct H as [H | [H | []]]; subst f; reflexivity.
  - unfold trackFills in H. apply in_app_iff in H. destruct H as [H | H].
    + destruct (QAbefore cfg); simpl in H; [ | contradiction ].
      destruct H as [H | [H | []]]; subst f; reflexivity.
    + destruct (acceptPion cfg t && QAafter cfg); simpl in H; [ | contradiction ].
      destruct H as [H | [H | [H | [H | [H | []]]]]]; subst f; reflexivity.
  - unfold v0Fills in H.
    destruct (daughtersSelected cfg v); [ | contradiction ].
    eapply SelectionV0_no_mass_fill; eauto.
Qed.

End SameEvent.

(** ** Mixed-event engine *)

Section MixedEvent.

Context {root : Root}.
Variable cfg : Config.

Lemma pairBodyME_mass_fill (c2 : Collision) (multiplicity : float)
      (t1 : Track) (t2 : V0) (f : FillEvent) :
  In f (pairBodyME cfg c2 multiplicity t1 t2) ->
  isMassFill f = true ->
  f = Fill h3CKSInvMassMixed
           [multiplicity; tlv_Pt (mixVector t1 t2); tlv_M (mixVector t1 t2)] /\
  lt (fabs (tlv_Rapidity (mixVector t1 t2))) d_0_5 = true.
Proof.
  unfold pairBodyME. intros Hin Hm.
  assert (Hqa : forall g,
             In g (snd (SelectionV0 cfg c2 t2 multiplicity)) ->
             isMassFill g = false)
    by (intros g; apply SelectionV0_no_mass_fill).
  destruct (selectionTrack cfg t1); simpl in Hin; [ | contradiction ].
  destruct (selectionPID cfg t1); simpl in Hin; [ | contradiction ].
  destruct (SelectionV0 cfg c2 t2 multiplicity) as [ok qa]. simpl in Hqa.
  assert (Hno : In f qa -> False)
    by (intros H; apply Hqa in H; congruence).
  destruct ok; simpl in Hin; [ | tauto ].
  destruct (isSelectedV0Daughter cfg (posTrack t2) _ _); simpl in Hin;
    [ | tauto ].
  destruct (isSelectedV0Daughter cfg (negTrack t2) _ _); simpl in Hin;
    [ | tauto ].
  fold (mixVector t1 t2) in Hin.
  destruct (lt (fabs (tlv_Rapidity (mixVector t1 t2))) d_0_5) eqn:Hy;
    [ | tauto ].
  apply in_app_iff in Hin. destruct Hin as [Hin | [Hin | []]]; [ tauto | ].
  now subst f.
Qed.

Lemma processME_in (pairs : list MixedPair) (f : FillEvent) :
  In f (processME cfg pairs) ->
  exists c1 tracks1 c2 tracks2 t1 t2,
    In (c1, tracks1, c2, tracks2) pairs /\
    sel8 c1 = true /\ sel8 c2 = true /\
    In t1 tracks1 /\ In t2 tracks2 /\
    In f (pairBodyME cfg c2 (eventMultiplicity cfg c1) t1 t2).
Proof.
  unfold processME. rewrite in_flat_map.
  intros [[[[c1 tracks1] c2] tracks2] [Hp Hf]].
  unfold mixedPairBody in Hf.
  destruct (sel8 c1) eqn:H1; simpl in Hf; [ | contradiction ].
  destruct (sel8 c2) eqn:H2; simpl in Hf; [ | contradiction ].
  apply in_flat_map in Hf. destruct Hf as [[t1 t2] [Hc Hf]].
  unfold combinationsFull in Hc. apply in_flat_map in Hc.
  destruct Hc as [a [Ha Hb]]. apply in_map_iff in Hb.
  destruct Hb as [b [Hab Hb]]. inversion Hab; subst a b.
  exists c1, tracks1, c2, tracks2, t1, t2. auto 10.
Qed.

End MixedEvent.

(** ** The properties of the pairing engines *)

Section Engines.

Context {root : Root}.
Variable cfg : Config.

Lemma pairFillRows_in (multiplicity : float) (t : Track) (v : V0)
      (f : FillEvent) :
  In f (pairFillRows multiplicity t v) ->
  f = Fill h3CKSInvMassUnlikeSign
           [multiplicity; lv_Pt (pairVector t v); lv_M (pairVector t v)] /\
  t_globalIndex t <> t_globalIndex (posTrack v) /\
  t_globalIndex t <> t_globalIndex (negTrack v) /\
  t_collisionId t = v_collisionId v /\
  lt (fabs (lv_Rapidity (pairVector t v))) d_0_5 = true.
Proof.
  unfold pairFillRows.
  destruct (t_globalIndex t =? t_globalIndex (posTrack v)) eqn:Hp; simpl;
    [ contradiction | ].
  destruct (t_globalIndex t =? t_globalIndex (negTrack v)) eqn:Hn; simpl;
    [ contradiction | ].
  destruct (t_collisionId t =? v_collisionId v) eqn:Hc; simpl;
    [ | contradiction ].
  destruct (lt (fabs (lv_Rapidity (pairVector t v))) d_0_5) eqn:Hy;
    [ | contradiction ].
  intros [H | []]. subst f.
  apply Z.eqb_neq in Hp, Hn. apply Z.eqb_eq in Hc. auto.
Qed.

(** Every mass fill of [processSE] is the fill of one accepted pion row
    and one accepted composite row. *)
Lemma processSE_mass_fill_in (st : TaskState) (collision : Collision)
      (tracks : list Track) (V0s : list V0) (f : FillEvent) :
  In f (snd (processSE cfg st collision tracks V0s)) ->
  isMassFill f = true ->
  exists t v,
    In t (filter (acceptPion cfg) tracks) /\
    In v (filter (acceptV0 cfg collision (eventMultiplicity cfg collision)) V0s) /\
    In f (pairFillRows (eventMultiplicity cfg collision) t v).
Proof.
  rewrite processSE_fills. destruct (sel8 collision); [ | contradiction ].
  rewrite in_app_iff. intros [H | H] Hm.
  - apply selectionFillsSE_no_mass_fill in H. congruence.
  - unfold massFillsSE in H. apply in_flat_map in H.
    destruct H as [t [Ht H]]. apply in_flat_map in H.
    destruct H as [v [Hv H]]. eauto.
Qed.

(** C3. No mass fill has |rapidity| >= 0.5. Same-event: every mass fill
    of [processSE] is made for a pion row and a composite row of its
    input whose summed vector has |Rapidity()| < 0.5, hence not >= 0.5.
    Mixed-event: every mass fill of [processME] is made for a track of
    the first collision and a composite of the second collision of one of
    the supplied pairs whose summed vector has |Rapidity()| < 0.5, hence
    not >= 0.5. *)
Theorem rapidity_gate :
  (forall (st : TaskState) (collision : Collision) (tracks : list Track)
          (V0s : list V0) (f : FillEvent),
      In f (snd (processSE cfg st collision tracks V0s)) ->
      isMassFill f = true ->
      exists t v,
        In t tracks /\ In v V0s /\
        f = Fill h3CKSInvMassUnlikeSign
                 [eventMultiplicity cfg collision;
                  lv_Pt (pairVector t v); lv_M (pairVector t v)] /\
        lt (fabs (lv_Rapidity (pairVector t v))) d_0_5 = true /\
        SFleb d_0_5 (fabs (lv_Rapidity (pairVector t v))) = false) /\
  (forall (pairs : list MixedPair) (f : FillEvent),
      In f (processME cfg pairs) ->
      isMassFill f = true ->
      exists c1 tracks1 c2 tracks2 t1 t2,
        In (c1, tracks1, c2, tracks2) pairs /\
        In t1 tracks1 /\ In t2 tracks2 /\
        f = Fill h3CKSInvMassMixed
                 [eventMultiplicity cfg c1;
                  tlv_Pt (mixVector t1 t2); tlv_M (mixVector t1 t2)] /\
        lt (fabs (tlv_Rapidity (mixVector t1 t2))) d_0_5 = true /\
        SFleb d_0_5 (fabs (tlv_Rapidity (mixVector t1 t2))) = false).
Proof.
  split.
  - intros st collision tracks V0s f Hin Hm.
    destruct (processSE_mass_fill_in st collision tracks V0s f Hin Hm)
      as [t [v [Ht [Hv Hf]]]].
    apply filter_In in Ht, Hv.
    apply pairFillRows_in in Hf. destruct Hf as [Hf [_ [_ [_ Hy]]]].
    exists t, v. repeat split; try tauto. now apply lt_not_ge.
  - intros pairs f Hin Hm.
    destruct (processME_in cfg pairs f Hin)
      as [c1 [tracks1 [c2 [tracks2 [t1 [t2 [Hp [_ [_ [H1 [H2 Hf]]]]]]]]]]].
    destruct (pairBodyME_mass_fill cfg c2 _ t1 t2 f Hf Hm) as [Hf' Hy].
    exists c1, tracks1, c2, tracks2, t1, t2.
    repeat split; try tauto. now apply lt_not_ge.
Qed.

(** C4. In [processSE], every mass fill is made for an accepted pion row
    and an accepted composite row such that the pion's [globalIndex]
    differs from the [globalIndex] of the composite's positive daughter
    and of its negative daughter.  A pair that shares a daughter identity
    fills nothing.  The mass fills are those of each (pion, composite)
    pair taken on its own, in loop order: skipping one pair does not drop
    the pion's pairs with the other composites. *)
Theorem same_event_no_self_overlap :
  (forall (st : TaskState) (collision : Collision) (tracks : list Track)
          (V0s : list V0) (f : FillEvent),
      In f (snd (processSE cfg st collision tracks V0s)) ->
      isMassFill f = true ->
      exists t v,
        In t (filter (acceptPion cfg) tracks) /\
        In v (filter (acceptV0 cfg collision (eventMultiplicity cfg collision))
                     V0s) /\
        In f (pairFillRows (eventMultiplicity cfg collision) t v) /\
        t_globalIndex t <> t_globalIndex (posTrack v) /\
        t_globalIndex t <> t_globalIndex (negTrack v)) /\
  (forall (multiplicity : float) (t : Track) (v : V0),
      t_globalIndex t = t_globalIndex (posTrack v) \/
      t_globalIndex t = t_globalIndex (negTrack v) ->
      pairFillRows multiplicity t v = []) /\
  (forall (st : TaskState) (collision : Collision) (tracks : list Track)
          (V0s : list V0),
      filter isMassFill (snd (processSE cfg st collision tracks V0s)) =
      if sel8 collision
      then
        flat_map
          (fun t =>
             flat_map
               (pairFillRows (eventMultiplicity cfg collision) t)
               (filter (acceptV0 cfg collision (eventMultiplicity cfg collision))
                       V0s))
          (filter (acceptPion cfg) tracks)
      else []).
Proof.
  split; [ | split ].
  - intros st collision tracks V0s f Hin Hm.
    destruct (processSE_mass_fill_in st collision tracks V0s f Hin Hm)
      as [t [v [Ht [Hv Hf]]]].
    exists t, v. repeat split; try assumption;
      apply pairFillRows_in in Hf; tauto.
  - intros multiplicity t v H. unfold pairFillRows.
    destruct H as [H | H]; rewrite <- H, Z.eqb_refl; simpl;
      rewrite ?andb_false_r; reflexivity.
  - intros st collision tracks V0s. rewrite processSE_fills.
    destruct (sel8 collision); [ | reflexivity ].
    rewrite filter_app.
    rewrite (filter_none isMassFill (selectionFillsSE cfg collision tracks V0s)
               (@selectionFillsSE_no_mass_fill _ cfg collision tracks V0s)).
    simpl. apply filter_all.
    intros g Hg. unfold massFillsSE in Hg. apply in_flat_map in Hg.
    destruct Hg as [t [_ Hg]]. apply in_flat_map in Hg.
    destruct Hg as [v [_ Hg]]. apply pairFillRows_in in Hg.
    destruct Hg as [Hg _]. now subst g.
Qed.

(** C9. The fills of [processSE] do not depend on the state
    ([CKSVector]) it is called in; in particular a second run on the same
    collision, tracks and V0s, started from the state the first run left,
    makes the same fills in the same order. *)
Theorem processSE_deterministic :
  (forall (st1 st2 : TaskState) (collision : Collision)
          (tracks : list Track) (V0s : list V0),
      snd (processSE cfg st1 collision tracks V0s) =
      snd (processSE cfg st2 collision tracks V0s)) /\
  (forall (st : TaskState) (collision : Collision)
          (tracks : list Track) (V0s : list V0),
      snd (processSE cfg (fst (processSE cfg st collision tracks V0s))
                     collision tracks V0s) =
      snd (processSE cfg st collision tracks V0s)).
Proof.
  split; intros; now rewrite !processSE_fills.
Qed.

End Engines.

(** ** The engines on the sample rows *)

Section SampleRuns.

#[local] Existing Instance Sample.sampleRoot.

(** The mass fill made for pion 1 and the composite with daughters 3, 4. *)
Definition sampleMassFill : FillEvent :=
  Fill h3CKSInvMassUnlikeSign
       [Sample.f_5;
        lv_Pt (pairVector (Sample.track 1 1) (Sample.goodV0 3 4));
        lv_M (pairVector (Sample.track 1 1) (Sample.goodV0 3 4))].

Lemma rapidity_gate_witness :
  exists t v,
    In t [Sample.track 1 1; Sample.track 5 1] /\
    In v [Sample.goodV0 1 2; Sample.goodV0 3 4] /\
    sampleMassFill =
    Fill h3CKSInvMassUnlikeSign
         [eventMultiplicity defaultConfig Sample.collision0;
          lv_Pt (pairVector t v); lv_M (pairVector t v)] /\
    lt (fabs (lv_Rapidity (pairVector t v))) d_0_5 = true /\
    SFleb d_0_5 (fabs (lv_Rapidity (pairVector t v))) = false.
Proof.
  apply (proj1 (rapidity_gate defaultConfig)
               Sample.state0 Sample.collision0
               [Sample.track 1 1; Sample.track 5 1]
               [Sample.goodV0 1 2; Sample.goodV0 3 4] sampleMassFill).
  - vm_compute. auto.
  - reflexivity.
Defined.

Lemma same_event_no_self_overlap_witness :
  exists t v,
    In t (filter (acceptPion defaultConfig)
                 [Sample.track 1 1; Sample.track 5 1]) /\
    In v (filter (acceptV0 defaultConfig Sample.collision0
                           (eventMultiplicity defaultConfig Sample.collision0))
                 [Sample.goodV0 1 2; Sample.goodV0 3 4]) /\
    In sampleMassFill
       (pairFillRows (eventMultiplicity defaultConfig Sample.collision0) t v) /\
    t_globalIndex t <> t_globalIndex (posTrack v) /\
    t_globalIndex t <> t_globalIndex (negTrack v).
Proof.
  apply (proj1 (same_event_no_self_overlap defaultConfig)
               Sample.state0 Sample.collision0
               [Sample.track 1 1; Sample.track 5 1]
               [Sample.goodV0 1 2; Sample.goodV0 3 4] sampleMassFill).
  - vm_compute. auto.
  - reflexivity.
Defined.

Lemma processSE_sel8_false_witness :
  sel8 Sample.collisionNoSel8 = false /\
  processSE defaultConfig Sample.state0 Sample.collisionNoSel8
            [Sample.track 1 1; Sample.track 5 1]
            [Sample.goodV0 3 4] = (Sample.state0, []).
Proof.
  split; [ reflexivity | ].
  apply (processSE_sel8_false defaultConfig Sample.state0
           Sample.collisionNoSel8 [Sample.track 1 1; Sample.track 5 1]
           [Sample.goodV0 3 4] eq_refl).
Defined.

(** Pion 1 is the positive daughter of the first composite: that pair is
    skipped, and pion 1 still pairs with the second composite; pion 5
    pairs with both. *)
Example scenario_shared_daughter :
  let fills := pairFillRows Sample.f_5 in
  filter isMassFill
         (snd (processSE defaultConfig Sample.state0 Sample.collision0
                         [Sample.track 1 1; Sample.track 5 1]
                         [Sample.goodV0 1 2; Sample.goodV0 3 4])) =
  fills (Sample.track 1 1) (Sample.goodV0 3 4) ++
  fills (Sample.track 5 1) (Sample.goodV0 1 2) ++
  fills (Sample.track 5 1) (Sample.goodV0 3 4) /\
  fills (Sample.track 1 1) (Sample.goodV0 1 2) = [] /\
  fills (Sample.track 1 1) (Sample.goodV0 3 4) = [sampleMassFill].
Proof. repeat split; vm_compute; reflexivity. Qed.

(** One pion in the first collision and one composite in the second, both
    passing every cut: exactly one fill of the mixed-event histogram. *)
Example scenario_mixed_one_fill :
  let v := mixVector (Sample.track 1 1) (Sample.goodV0 3 4) in
  processME defaultConfig
            [(Sample.collision0, [Sample.track 1 1],
              Sample.collision0, [Sample.goodV0 3 4])] =
  [Fill h3CKSInvMassMixed [Sample.f_5; tlv_Pt v; tlv_M v]].
Proof. vm_compute. reflexivity. Qed.

(** A collision that fails [sel8] is excluded from mixing, on either
    side of the pair. *)
Example scenario_mixed_no_sel8 :
  processME defaultConfig
            [(Sample.collisionNoSel8, [Sample.track 1 1],
              Sample.collision0, [Sample.goodV0 3 4]);
             (Sample.collision0, [Sample.track 1 1],
              Sample.collisionNoSel8, [Sample.goodV0 3 4])] = [].
Proof. reflexivity. Qed.

(** The sample rows hold numbers of their formats. *)
Example sample_rows_valid :
  forallb valid_float
          [Sample.f_0_1; Sample.f_0_25; Sample.f_0_497; Sample.f_0_5;
           Sample.f_0_99; Sample.f_1; Sample.f_3; Sample.f_5;
           cutzvertex defaultConfig; ConfV0PtMin defaultConfig;
           ConfV0DCADaughMax defaultConfig; ConfV0CPAMin defaultConfig;
           ConfV0TranRadV0Min defaultConfig; ConfV0TranRadV0Max defaultConfig;
           ConfDaughEta defaultConfig; ConfDaughTPCnclsMin defaultConfig;
           ConfDaughDCAMin defaultConfig; ConfDaughPIDCuts defaultConfig;
           cfgCutPT defaultConfig; cfgCutEta defaultConfig;
           cfgCutDCAxy defaultConfig; cfgCutDCAz defaultConfig;
           nsigmaCutTPC defaultConfig; nsigmaCutCombined defaultConfig]
  = true /\
  forallb valid_double
          [d_0_5; d_0_2; d_0_8; d_0_497; massPi; massK0s;
           cMaxV0LifeTime defaultConfig; cMaxV0DCA defaultConfig;
           cSigmaMassKs0 defaultConfig; cWidthKs0 defaultConfig]
  = true.
Proof. split; reflexivity. Qed.

End SampleRuns.

(** ** Event mixing *)

Section MixingFacts.

Variable binning : BinningPolicy.

Lemma sameBin_eq (c1 c2 : Collision) :
  sameBin binning c1 c2 = true -> binKey binning c1 = binKey binning c2.
Proof.
  unfold sameBin. rewrite andb_true_iff, !Z.eqb_eq.
  destruct (binKey binning c1), (binKey binning c2); simpl.
  intros [-> ->]. reflexivity.
Qed.

Lemma mixedCollisionPairs_same_bin (n : nat) (collisions : list Collision)
      (c1 c2 : Collision) :
  In (c1, c2) (mixedCollisionPairs binning n collisions) ->
  binKey binning c1 = binKey binning c2 /\
  In c1 collisions /\ In c2 collisions.
Proof.
  induction collisions as [ | c rest IH ]; simpl; [ contradiction | ].
  rewrite in_app_iff, in_map_iff. intros [[c' [Heq Hin]] | Hin].
  - inversion Heq; subst c c'. apply In_firstn, filter_In in Hin.
    destruct Hin as [Hin Hbin]. auto using sameBin_eq.
  - destruct (IH Hin) as [Hk [H1 H2]]. auto.
Qed.

(** C8. Every collision pair supplied to the pairing loop of the
    mixed-event engine consists of two collisions of the input with equal
    bin keys (vertex z-position bucket, multiplicity-estimator bucket);
    no pair is formed across bins. *)
Theorem mixed_pairs_same_bin (cfg : Config) (collisions : list Collision)
        (tracks : list Track) (V0s : list V0)
        (c1 c2 : Collision) (tracks1 : list Track) (tracks2 : list V0) :
  In (c1, tracks1, c2, tracks2) (pairRange binning cfg collisions tracks V0s) ->
  binKey binning c1 = binKey binning c2 /\
  In c1 collisions /\ In c2 collisions.
Proof.
  unfold pairRange. rewrite in_map_iff.
  intros [[a b] [Heq Hin]]. inversion Heq; subst.
  eapply mixedCollisionPairs_same_bin; eauto.
Qed.

End MixingFacts.

Lemma mixed_pairs_same_bin_witness :
  pairRange MixingSample.binning defaultConfig
            [MixingSample.cA; MixingSample.cB; MixingSample.cC] [] [] =
  [(MixingSample.cA, [], MixingSample.cC, [])] /\
  binKey MixingSample.binning MixingSample.cA =
  binKey MixingSample.binning MixingSample.cC.
Proof.
  split; [ reflexivity | ].
  apply (@mixed_pairs_same_bin MixingSample.binning defaultConfig
           [MixingSample.cA; MixingSample.cB; MixingSample.cC] [] []
           MixingSample.cA MixingSample.cC [] []).
  left. reflexivity.
Defined.

(** * Rounding to nearest in [spec_float]

    What the narrowing conversion and the [double] operations of
    [lowmasscutks0] and [highmasscutks0] need: [binary_round] never
    crosses a number of the target format.

    ** Powers of two and binary digits *)

Lemma pow2_pos (k : Z) : 0 <= k -> 0 < 2 ^ k.
Proof. intros. apply Z.pow_pos_nonneg; lia. Qed.

Lemma pow2_lt_inv (a b : Z) : 0 <= b -> 2 ^ a < 2 ^ b -> a < b.
Proof.
  intros Hb H. destruct (Z_lt_le_dec a b) as [ | Hle ]; [ assumption | ].
  assert (2 ^ b <= 2 ^ a) by (apply Z.pow_le_mono_r; lia). lia.
Qed.

Lemma digits2_pos_bounds (m : positive) :
  2 ^ (Zpos (digits2_pos m) - 1) <= Zpos m < 2 ^ Zpos (digits2_pos m).
Proof.
  induction m as [ m IH | m IH | ]; simpl digits2_pos;
    rewrite ?Pos2Z.inj_succ.
  - replace (Z.succ (Zpos (digits2_pos m)) - 1)
      with (Z.succ (Zpos (digits2_pos m) - 1)) by lia.
    rewrite !Z.pow_succ_r by lia. lia.
  - replace (Z.succ (Zpos (digits2_pos m)) - 1)
      with (Z.succ (Zpos (digits2_pos m) - 1)) by lia.
    rewrite !Z.pow_succ_r by lia. lia.
  - simpl. lia.
Qed.

Lemma digits2_pos_unique (m : positive) (d : Z) :
  2 ^ (d - 1) <= Zpos m < 2 ^ d -> Zpos (digits2_pos m) = d.
Proof.
  intros [Hlo Hhi]. pose proof (digits2_pos_bounds m) as [Hlo' Hhi'].
  assert (0 < d).
  { destruct (Z_lt_le_dec 0 d); [ assumption | ].
    assert (2 ^ d <= 2 ^ 0) by (destruct (Z_lt_le_dec d 0);
      [ rewrite Z.pow_neg_r by lia; simpl; lia | apply Z.pow_le_mono_r; lia ]).
    simpl in *. lia. }
  assert (d - 1 < Zpos (digits2_pos m)) by (apply pow2_lt_inv; lia).
  assert (Zpos (digits2_pos m) - 1 < d) by (apply pow2_lt_inv; lia).
  lia.
Qed.

(** [Pos.iter xO m d] is [m * 2^d]. *)
Lemma iter_xO (m d : positive) : Zpos (Pos.iter xO m d) = Zpos m * 2 ^ Zpos d.
Proof.
  change (Pos.iter xO m d) with (shift_pos d m).
  rewrite shift_pos_correct.
  change (Zpower_pos 2 d) with (2 ^ Zpos d). lia.
Qed.

Lemma digits2_pos_shift (m d : positive) :
  Zpos (digits2_pos (Pos.iter xO m d)) = Zpos (digits2_pos m) + Zpos d.
Proof.
  apply digits2_pos_unique. rewrite iter_xO.
  pose proof (digits2_pos_bounds m) as [Hlo Hhi].
  replace (Zpos (digits2_pos m) + Zpos d - 1)
    with ((Zpos (digits2_pos m) - 1) + Zpos d) by lia.
  rewrite !Z.pow_add_r by lia.
  assert (0 < 2 ^ Zpos d) by (apply pow2_pos; lia). nia.
Qed.

Lemma digits2_pos_le (m1 m2 : positive) :
  Zpos m1 <= Zpos m2 -> Zpos (digits2_pos m1) <= Zpos (digits2_pos m2).
Proof.
  intros H. pose proof (digits2_pos_bounds m1) as [Hlo1 _].
  pose proof (digits2_pos_bounds m2) as [_ Hhi2].
  assert (Zpos (digits2_pos m1) - 1 < Zpos (digits2_pos m2))
    by (apply pow2_lt_inv; lia).
  lia.
Qed.

(** ** Shifting right with a round bit and a sticky bit *)

Lemma iter_pos_nat {A : Type} (f : A -> A) (n : positive) (x : A) :
  iter_pos f n x = Nat.iter (Pos.to_nat n) f x.
Proof.
  revert x. induction n as [ n IH | n IH | ]; intros x; simpl iter_pos.
  - rewrite !IH, Pos2Nat.inj_xI.
    replace (S (2 * Pos.to_nat n)) with (Pos.to_nat n + S (Pos.to_nat n))%nat
      by lia.
    rewrite Nat.iter_add. f_equal. now rewrite Nat.iter_succ_r.
  - rewrite !IH, Pos2Nat.inj_xO.
    replace (2 * Pos.to_nat n)%nat with (Pos.to_nat n + Pos.to_nat n)%nat
      by lia.
    now rewrite Nat.iter_add.
  - reflexivity.
Qed.

Lemma shr_1_spec (mrs : shr_record) (m : Z) (k : Z) :
  0 <= m -> 0 <= k ->
  shr_m mrs = m / 2 ^ k ->
  loc_of_shr_record mrs = locate (m mod 2 ^ k) (2 ^ k) ->
  shr_m (shr_1 mrs) = m / 2 ^ (k + 1) /\
  loc_of_shr_record (shr_1 mrs) = locate (m mod 2 ^ (k + 1)) (2 ^ (k + 1)).
Proof.
  intros Hm Hk Hq Hl.
  assert (Hp : 0 < 2 ^ k) by now apply pow2_pos.
  rewrite Z.pow_add_r by lia. change (2 ^ 1) with 2.
  pose proof (Z.div_mod m (2 ^ k) ltac:(lia)) as Hdm.
  pose proof (Z.mod_pos_bound m (2 ^ k) Hp) as Hr.
  set (q := m / 2 ^ k) in *. set (r := m mod 2 ^ k) in *.
  assert (Hq0 : 0 <= q) by (apply Z.div_pos; lia).
  pose proof (Z.div_mod q 2 ltac:(lia)) as Hq2.
  pose proof (Z.mod_pos_bound q 2 ltac:(lia)) as Hb.
  assert (Hdiv : m / (2 ^ k * 2) = q / 2).
  { symmetry. apply (Z.div_unique m (2 ^ k * 2) (q / 2) (r + 2 ^ k * (q mod 2)));
      nia. }
  assert (Hmod : m mod (2 ^ k * 2) = r + 2 ^ k * (q mod 2)).
  { symmetry. apply (Z.mod_unique m (2 ^ k * 2) (q / 2) (r + 2 ^ k * (q mod 2)));
      nia. }
  rewrite Hdiv, Hmod.
  destruct mrs as [mm rr ss]. simpl in Hq, Hl. subst mm.
  assert (Hloc : (rr || ss) = negb (r =? 0)).
  { unfold locate in Hl. destruct (r =? 0); destruct rr, ss; simpl in *;
      congruence. }
  unfold shr_1.
  assert (E1 : forall p, Zpos p~1 / 2 = Zpos p)
    by (intros p; symmetry; apply (Z.div_unique _ 2 _ 1); lia).
  assert (E2 : forall p, Zpos p~1 mod 2 = 1)
    by (intros p; symmetry; apply (Z.mod_unique _ 2 (Zpos p) 1); lia).
  assert (E3 : forall p, Zpos p~0 / 2 = Zpos p)
    by (intros p; symmetry; apply (Z.div_unique _ 2 _ 0); lia).
  assert (E4 : forall p, Zpos p~0 mod 2 = 0)
    by (intros p; symmetry; apply (Z.mod_unique _ 2 (Zpos p) 0); lia).
  destruct q as [ | [ p | p | ] | p ]; try lia; rewrite Hloc;
    rewrite ?E1, ?E2, ?E3, ?E4;
    change (0 / 2) with 0; change (0 mod 2) with 0;
    change (1 / 2) with 0; change (1 mod 2) with 1;
    (split; [ reflexivity | ]);
    unfold locate; simpl loc_of_shr_record;
    repeat match goal with
           | |- context [?a =? ?b] => destruct (Z.eqb_spec a b)
           | |- context [?a ?= ?b] => destruct (Z.compare_spec a b)
           end; simpl; try reflexivity; lia.
Qed.

Lemma shr_iter (m : Z) (n : nat) :
  0 <= m ->
  shr_m (Nat.iter n shr_1 (Build_shr_record m false false)) =
  m / 2 ^ Z.of_nat n /\
  loc_of_shr_record (Nat.iter n shr_1 (Build_shr_record m false false)) =
  locate (m mod 2 ^ Z.of_nat n) (2 ^ Z.of_nat n).
Proof.
  intros Hm. induction n as [ | n [IHm IHl] ].
  - simpl. rewrite Z.div_1_r, Z.mod_1_r. split; reflexivity.
  - rewrite Nat2Z.inj_succ. unfold Z.succ. simpl Nat.iter.
    apply shr_1_spec; auto; lia.
Qed.

Lemma shr_spec (m e n : Z) :
  0 <= m -> 0 <= n ->
  shr_m (fst (shr (Build_shr_record m false false) e n)) = m / 2 ^ n /\
  loc_of_shr_record (fst (shr (Build_shr_record m false false) e n)) =
  locate (m mod 2 ^ n) (2 ^ n) /\
  snd (shr (Build_shr_record m false false) e n) = e + n.
Proof.
  intros Hm Hn. destruct n as [ | p | p ]; try lia.
  - simpl. rewrite Z.div_1_r, Z.mod_1_r. repeat split. lia.
  - unfold shr. simpl fst. simpl snd. rewrite iter_pos_nat.
    destruct (shr_iter (Pos.to_nat p) Hm) as [H1 H2].
    rewrite positive_nat_Z in H1, H2. auto.
Qed.

(** ** The steps of [binary_round] *)

Section Format.

Variables prec emax : Z.
Hypothesis Hprec : 0 < prec.

Local Notation "'fx'" := (SpecFloat.fexp prec emax).
Local Notation "'emn'" := (SpecFloat.emin prec emax).

Lemma fexp_mono (a b : Z) : a <= b -> fx a <= fx b.
Proof. unfold SpecFloat.fexp. lia. Qed.

Lemma fexp_ge_emin (a : Z) : emn <= fx a.
Proof. unfold SpecFloat.fexp. lia. Qed.

Lemma shr_fexp_exact (m e : Z) :
  0 <= m ->
  let n := Z.max 0 (fx (Zdigits2 m + e) - e) in
  shr_m (fst (shr_fexp prec emax m e loc_Exact)) = m / 2 ^ n /\
  loc_of_shr_record (fst (shr_fexp prec emax m e loc_Exact)) =
  locate (m mod 2 ^ n) (2 ^ n) /\
  snd (shr_fexp prec emax m e loc_Exact) = e + n.
Proof.
  intros Hm n. unfold shr_fexp. simpl shr_record_of_loc.
  destruct (Z_le_gt_dec (fx (Zdigits2 m + e) - e) 0) as [Hle | Hgt].
  - assert (Hn : n = 0) by (unfold n; lia). rewrite Hn.
    assert (Hs : shr (Build_shr_record m false false) e
                     (fx (Zdigits2 m + e) - e) =
                 (Build_shr_record m false false, e)).
    { unfold shr. destruct (fx (Zdigits2 m + e) - e); try reflexivity. lia. }
    rewrite Hs. simpl. rewrite Z.div_1_r, Z.mod_1_r. repeat split. lia.
  - assert (Hn : n = fx (Zdigits2 m + e) - e) by (unfold n; lia).
    rewrite Hn. apply shr_spec; lia.
Qed.

Lemma binary_round_aux_exact (sx : bool) (m e : Z) :
  0 <= m ->
  binary_round_aux prec emax sx m e loc_Exact =
  let n := Z.max 0 (fx (Zdigits2 m + e) - e) in
  finish prec emax sx
         (round_nearest_even (m / 2 ^ n) (locate (m mod 2 ^ n) (2 ^ n)))
         (e + n).
Proof.
  intros Hm. cbv zeta. unfold binary_round_aux.
  destruct (shr_fexp_exact e Hm) as [H1 [H2 H3]].
  destruct (shr_fexp prec emax m e loc_Exact) as [mrs' e']. simpl in H1, H2, H3.
  rewrite H1, H2, H3.
  set (m2 := round_nearest_even _ _). set (e1 := e + _).
  assert (Hm2 : 0 <= m2).
  { unfold m2.
    assert (0 <= m / 2 ^ Z.max 0 (fx (Zdigits2 m + e) - e))
      by (apply Z.div_pos; [ lia | apply pow2_pos; lia ]).
    unfold round_nearest_even.
    destruct (locate _ _) as [ | [ | | ]]; try lia.
    destruct (Z.even _); lia. }
  destruct (shr_fexp_exact e1 Hm2) as [H4 [_ H6]].
  destruct (shr_fexp prec emax m2 e1 loc_Exact) as [mrs'' e''].
  simpl in H4, H6. rewrite H4, H6. unfold finish, classify.
  reflexivity.
Qed.

Lemma binary_round_scale (sx : bool) (mx : positive) (ex : Z) :
  binary_round prec emax sx mx ex =
  let e1 := fx (Zpos (digits2_pos mx) + ex) in
  finish prec emax sx (round_nearest_even (fst (scale_to (Zpos mx) ex e1))
                                (snd (scale_to (Zpos mx) ex e1))) e1.
Proof.
  cbv zeta. unfold binary_round, shl_align, scale_to.
  set (e1 := fx (Zpos (digits2_pos mx) + ex)).
  destruct (Z.leb_spec e1 ex) as [Hle | Hgt]; cbn [fst snd].
  - destruct (e1 - ex) as [ | d | d ] eqn:Hd; try lia.
    + (* e1 = ex *)
      rewrite binary_round_aux_exact by lia. cbv zeta.
      cbn [Zdigits2]. fold e1.
      replace (Z.max 0 (e1 - ex)) with 0 by lia.
      replace (ex - e1) with 0 by lia.
      rewrite Z.pow_0_r, Z.div_1_r, Z.mod_1_r, Z.mul_1_r, Z.add_0_r.
      replace e1 with ex by lia. reflexivity.
    + (* e1 < ex *)
      rewrite binary_round_aux_exact by lia. cbv zeta.
      cbn [Zdigits2]. rewrite digits2_pos_shift.
      replace (Zpos (digits2_pos mx) + Zpos d + e1)
        with (Zpos (digits2_pos mx) + ex) by lia.
      fold e1. replace (Z.max 0 (e1 - e1)) with 0 by lia.
      rewrite Z.pow_0_r, Z.div_1_r, Z.mod_1_r, Z.add_0_r, iter_xO.
      replace (ex - e1) with (Zpos d) by lia. reflexivity.
  - destruct (e1 - ex) as [ | d | d ] eqn:Hd; try lia.
    rewrite binary_round_aux_exact by lia. cbv zeta.
    cbn [Zdigits2]. fold e1. rewrite Hd.
    replace (Z.max 0 (Zpos d)) with (Zpos d) by lia.
    replace (ex + Zpos d) with e1 by lia. reflexivity.
Qed.

Lemma round_nearest_even_bounds (q : Z) (l : location) :
  q <= round_nearest_even q l <= q + 1.
Proof.
  unfold round_nearest_even. destruct l as [ | [ | | ]]; try lia.
  destruct (Z.even q); lia.
Qed.

Lemma locate_exact (d : Z) : locate 0 d = loc_Exact.
Proof. reflexivity. Qed.

(** The quotient of [scale_to] lies between the powers of two that
    bracket the number. *)
Lemma scale_to_bounds (mx : positive) (ex e1 : Z) :
  let g := Zpos (digits2_pos mx) + ex in
  let q := fst (scale_to (Zpos mx) ex e1) in
  0 <= q /\ q < 2 ^ Z.max 0 (g - e1) /\ (e1 <= g - 1 -> 2 ^ (g - 1 - e1) <= q).
Proof.
  intros g q. pose proof (digits2_pos_bounds mx) as [Hlo Hhi].
  assert (Hd : 0 < Zpos (digits2_pos mx)) by lia.
  unfold q, scale_to. destruct (Z.leb_spec e1 ex) as [Hle | Hgt]; cbn [fst].
  - assert (Hp : 0 < 2 ^ (ex - e1)) by (apply pow2_pos; lia).
    replace (Z.max 0 (g - e1)) with (Zpos (digits2_pos mx) + (ex - e1))
      by (unfold g; lia).
    rewrite Z.pow_add_r by lia.
    split; [ nia | ]. split; [ nia | ].
    intros _. replace (g - 1 - e1) with ((Zpos (digits2_pos mx) - 1) + (ex - e1))
      by (unfold g; lia).
    rewrite Z.pow_add_r by lia. nia.
  - assert (Hp : 0 < 2 ^ (e1 - ex)) by (apply pow2_pos; lia).
    split; [ apply Z.div_pos; lia | ]. split.
    + destruct (Z_le_gt_dec (g - e1) 0) as [Hneg | Hpos].
      * replace (Z.max 0 (g - e1)) with 0 by lia. simpl.
        assert (Zpos mx / 2 ^ (e1 - ex) = 0); [ | lia ].
        apply Z.div_small. split; [ lia | ].
        apply Z.lt_le_trans with (1 := Hhi).
        apply Z.pow_le_mono_r; unfold g in *; lia.
      * replace (Z.max 0 (g - e1)) with (g - e1) by lia.
        apply Z.div_lt_upper_bound; [ lia | ].
        rewrite <- Z.pow_add_r by lia.
        replace (e1 - ex + (g - e1)) with (Zpos (digits2_pos mx))
          by (unfold g; lia).
        assumption.
    + intros Hg. apply Z.div_le_lower_bound; [ lia | ].
      rewrite <- Z.pow_add_r by lia.
      replace (e1 - ex + (g - 1 - e1)) with (Zpos (digits2_pos mx) - 1)
        by (unfold g; lia).
      assumption.
Qed.

Lemma finish_zero (sx : bool) (e : Z) :
  emn <= e -> finish prec emax sx 0 e = S754_zero sx.
Proof.
  intros He. unfold finish. simpl Zdigits2.
  replace (Z.max 0 (fx (0 + e) - e)) with 0
    by (unfold SpecFloat.fexp; lia).
  reflexivity.
Qed.

Lemma finish_keep (sx : bool) (p : positive) (e : Z) :
  fx (Zpos (digits2_pos p) + e) <= e ->
  finish prec emax sx (Zpos p) e = classify prec emax sx (Zpos p) e.
Proof.
  intros H. unfold finish. simpl Zdigits2.
  replace (Z.max 0 (fx (Zpos (digits2_pos p) + e) - e)) with 0 by lia.
  now rewrite Z.pow_0_r, Z.div_1_r, Z.add_0_r.
Qed.

Lemma finish_shift (sx : bool) (p : positive) (e : Z) :
  emn <= e ->
  e < fx (Zpos (digits2_pos p) + e) ->
  exists p' : positive,
    finish prec emax sx (Zpos p) e =
    classify prec emax sx (Zpos p') (Zpos (digits2_pos p) + e - prec) /\
    Zpos p' = Zpos p / 2 ^ (Zpos (digits2_pos p) - prec) /\
    Zpos (digits2_pos p') = prec.
Proof.
  intros He H. unfold finish. simpl Zdigits2.
  set (d := Zpos (digits2_pos p)) in *.
  assert (Hf : fx (d + e) = d + e - prec) by (unfold SpecFloat.fexp in *; lia).
  rewrite Hf. replace (Z.max 0 (d + e - prec - e)) with (d - prec) by lia.
  replace (e + (d - prec)) with (d + e - prec) by lia.
  pose proof (digits2_pos_bounds p) as [Hlo Hhi]. fold d in Hlo, Hhi.
  assert (Hn : 0 < d - prec) by lia.
  assert (Hp : 0 < 2 ^ (d - prec)) by (apply pow2_pos; lia).
  assert (Hq : 2 ^ (prec - 1) <= Zpos p / 2 ^ (d - prec) < 2 ^ prec).
  { split.
    - apply Z.div_le_lower_bound; [ lia | ].
      rewrite <- Z.pow_add_r by lia.
      now replace (d - prec + (prec - 1)) with (d - 1) by lia.
    - apply Z.div_lt_upper_bound; [ lia | ].
      rewrite <- Z.pow_add_r by lia.
      now replace (d - prec + prec) with d by lia. }
  assert (0 < 2 ^ (prec - 1)) by (apply pow2_pos; lia).
  destruct (Zpos p / 2 ^ (d - prec)) as [ | p' | p' ] eqn:E; try lia.
  exists p'. repeat split. now apply digits2_pos_unique.
Qed.

(** The result of [binary_round] is a number of the format. *)
Lemma binary_round_bounded (sx sx' : bool) (mx : positive) (ex : Z)
      (m' : positive) (e' : Z) :
  binary_round prec emax sx mx ex = S754_finite sx' m' e' ->
  bounded prec emax m' e' = true.
Proof.
  rewrite binary_round_scale. cbv zeta.
  set (g := Zpos (digits2_pos mx) + ex). set (e1 := fx g).
  destruct (scale_to_bounds mx ex e1) as [Hq0 [_ Hqlo]]. fold g in Hqlo.
  pose proof (round_nearest_even_bounds (fst (scale_to (Zpos mx) ex e1))
                (snd (scale_to (Zpos mx) ex e1))) as Hm2.
  set (q := fst (scale_to (Zpos mx) ex e1)) in *.
  set (m2 := round_nearest_even q _) in *.
  assert (Hemin : emn <= e1) by apply fexp_ge_emin.
  unfold bounded, canonical_mantissa.
  destruct m2 as [ | p2 | p2 ] eqn:E; try lia.
  - rewrite finish_zero by assumption. discriminate.
  - pose proof (digits2_pos_bounds p2) as [Hlo2 Hhi2].
    set (d2 := Zpos (digits2_pos p2)) in *.
    destruct (Z_le_gt_dec (fx (d2 + e1)) e1) as [Hk | Hs];
      [ | apply Z.gt_lt in Hs ].
    + rewrite finish_keep by assumption. unfold classify.
      destruct (Z.leb_spec e1 (emax - prec)) as [Hle | Hgt]; [ | discriminate ].
      intros H. injection H as _ Hm He. subst m' e'. fold d2.
      apply andb_true_iff. split; [ | now apply Z.leb_le ].
      apply Z.eqb_eq. apply Z.le_antisymm; [ assumption | ].
      destruct (Z.eq_dec e1 emn) as [He | He].
      * rewrite He. apply fexp_ge_emin.
      * assert (He1 : e1 = g - prec) by (unfold e1, SpecFloat.fexp in *; lia).
        assert (Hqq : 2 ^ (g - 1 - e1) <= q) by (apply Hqlo; lia).
        replace (g - 1 - e1) with (prec - 1) in Hqq by lia.
        assert (prec - 1 < d2)
          by (apply pow2_lt_inv; [ unfold d2; lia | lia ]).
        unfold SpecFloat.fexp. lia.
    + destruct (finish_shift sx p2 Hemin Hs) as [p' [Hf [_ Hd']]].
      rewrite Hf. fold d2.
      assert (He3 : emn < d2 + e1 - prec)
        by (unfold SpecFloat.fexp in Hs; lia).
      set (e3 := d2 + e1 - prec) in *. unfold classify.
      destruct (Z.leb_spec e3 (emax - prec)) as [Hle | Hgt]; [ | discriminate ].
      intros H. injection H as _ Hm He. subst m' e'.
      apply andb_true_iff. split; [ | now apply Z.leb_le ].
      apply Z.eqb_eq. rewrite Hd'. unfold SpecFloat.fexp. lia.
Qed.

(** Rounding does not cross a number of the format from below: a number
    that is at most [mb * 2^eb] is rounded to zero or to a number that is
    at most [mb * 2^eb]. The two numbers are compared on a common
    exponent [e0]. *)
Lemma round_upper (mx : positive) (ex : Z) (mb : positive) (eb e0 : Z) :
  bounded prec emax mb eb = true ->
  e0 <= ex -> e0 <= eb ->
  Zpos mx * 2 ^ (ex - e0) <= Zpos mb * 2 ^ (eb - e0) ->
  binary_round prec emax false mx ex = S754_zero false \/
  exists m' e',
    binary_round prec emax false mx ex = S754_finite false m' e' /\
    (e' < eb \/ (e' = eb /\ Zpos m' <= Zpos mb)).
Proof.
  intros Hb H0x H0b Hle.
  unfold bounded, canonical_mantissa in Hb. apply andb_true_iff in Hb.
  destruct Hb as [Hcan Hmax]. apply Z.eqb_eq in Hcan. apply Z.leb_le in Hmax.
  pose proof (digits2_pos_bounds mx) as [Hlox Hhix].
  pose proof (digits2_pos_bounds mb) as [Hlob Hhib].
  set (dx := Zpos (digits2_pos mx)) in *.
  set (db := Zpos (digits2_pos mb)) in *.
  assert (Hdx : 0 < dx) by (unfold dx; lia).
  assert (Hdb : 0 < db) by (unfold db; lia).
  assert (Hpx : 0 < 2 ^ (ex - e0)) by (apply pow2_pos; lia).
  assert (Hpb : 0 < 2 ^ (eb - e0)) by (apply pow2_pos; lia).
  assert (Hg : dx + ex <= db + eb).
  { assert (2 ^ ((dx - 1) + (ex - e0)) < 2 ^ (db + (eb - e0)))
      by (rewrite !Z.pow_add_r by lia; nia).
    assert ((dx - 1) + (ex - e0) < db + (eb - e0))
      by (apply pow2_lt_inv; lia).
    lia. }
  rewrite binary_round_scale. cbv zeta. fold dx.
  set (g := dx + ex) in *. set (e1 := fx g).
  assert (He1 : e1 <= eb) by (rewrite <- Hcan; apply fexp_mono; lia).
  assert (Hemin : emn <= e1) by apply fexp_ge_emin.
  destruct (scale_to_bounds mx ex e1) as [Hq0 [Hqhi _]].
  fold dx in Hqhi. fold g in Hqhi.
  pose proof (round_nearest_even_bounds (fst (scale_to (Zpos mx) ex e1))
                (snd (scale_to (Zpos mx) ex e1))) as Hm2.
  destruct (Z.eq_dec e1 eb) as [Heq | Hne].
  - (* the two numbers have the same exponent *)
    assert (Hm2b : round_nearest_even (fst (scale_to (Zpos mx) ex e1))
                                      (snd (scale_to (Zpos mx) ex e1))
                   <= Zpos mb).
    { clear Hqhi. unfold scale_to in *.
      destruct (Z.leb_spec e1 ex) as [Hle1 | Hgt1]; cbn [fst snd] in *.
      - cbn [round_nearest_even].
        assert (Hp1 : 0 < 2 ^ (e1 - e0)) by (apply pow2_pos; lia).
        replace (ex - e0) with ((ex - e1) + (e1 - e0)) in Hle by lia.
        rewrite Z.pow_add_r in Hle by lia.
        replace (eb - e0) with (e1 - e0) in Hle by lia. nia.
      - assert (Hpn : 0 < 2 ^ (e1 - ex)) by (apply pow2_pos; lia).
        replace (eb - e0) with ((e1 - ex) + (ex - e0)) in Hle by lia.
        rewrite Z.pow_add_r in Hle by lia.
        assert (Hmx : Zpos mx <= Zpos mb * 2 ^ (e1 - ex)) by nia.
        assert (Hq : Zpos mx / 2 ^ (e1 - ex) <= Zpos mb)
          by (apply Z.div_le_upper_bound; lia).
        destruct (Z.eq_dec (Zpos mx / 2 ^ (e1 - ex)) (Zpos mb)) as [Hqe | Hqn];
          [ | lia ].
        pose proof (Z.mul_div_le (Zpos mx) (2 ^ (e1 - ex)) Hpn) as Hmd.
        assert (Hx : Zpos mx = Zpos mb * 2 ^ (e1 - ex)) by nia.
        rewrite Hx, Z.mod_mul, Z.div_mul by lia. rewrite locate_exact.
        cbn [round_nearest_even]. lia. }
    set (m2 := round_nearest_even _ _) in *.
    destruct m2 as [ | p2 | p2 ] eqn:E; try lia.
    + left. now apply finish_zero.
    + right. exists p2, e1. split; [ | right; split; [ assumption | lia ] ].
      rewrite finish_keep.
      * unfold classify.
        destruct (Z.leb_spec e1 (emax - prec)); [ reflexivity | lia ].
      * apply Z.le_trans with (fx (db + eb)); [ | lia ].
        apply fexp_mono.
        pose proof (digits2_pos_le Hm2b) as Hdd. fold db in Hdd. lia.
  - (* the number is in a binade below that of the bound *)
    set (m2 := round_nearest_even _ _) in *.
    set (k := Z.max 0 (g - e1)) in *.
    assert (Hk : k <= prec) by (unfold k, e1, SpecFloat.fexp; lia).
    assert (Hk0 : 0 <= k) by (unfold k; lia).
    destruct m2 as [ | p2 | p2 ] eqn:E; try lia.
    + left. now apply finish_zero.
    + right.
      pose proof (digits2_pos_bounds p2) as [Hlo2 Hhi2].
      set (d2 := Zpos (digits2_pos p2)) in *.
      assert (Hd2 : d2 - 1 < k + 1).
      { apply pow2_lt_inv; [ lia | ].
        rewrite Z.pow_add_r by lia. change (2 ^ 1) with 2.
        assert (0 < 2 ^ k) by (apply pow2_pos; lia). lia. }
      destruct (Z_le_gt_dec (fx (d2 + e1)) e1) as [Hkeep | Hshift];
        [ | apply Z.gt_lt in Hshift ].
      * exists p2, e1. split; [ | left; lia ].
        rewrite finish_keep by assumption. unfold classify.
        destruct (Z.leb_spec e1 (emax - prec)); [ reflexivity | lia ].
      * destruct (finish_shift false p2 Hemin Hshift) as [p' [Hf [Hp' Hd']]].
        fold d2 in Hf, Hp'.
        assert (Hd2' : d2 = prec + 1) by (unfold SpecFloat.fexp in Hshift; lia).
        exists p', (d2 + e1 - prec). split.
        -- rewrite Hf. unfold classify.
           destruct (Z.leb_spec (d2 + e1 - prec) (emax - prec));
             [ reflexivity | lia ].
        -- destruct (Z.eq_dec (d2 + e1 - prec) eb) as [He3 | He3];
             [ right; split; [ assumption | ] | left; lia ].
           assert (Hdbp : db = prec)
             by (unfold SpecFloat.fexp in Hcan; lia).
           rewrite Hdbp in Hlob. rewrite Hp'.
           replace (d2 - prec) with 1 by lia. change (2 ^ 1) with 2.
           assert (Hkp : k = prec) by lia.
           rewrite Hkp in Hqhi.
           assert (Hpp : 2 ^ prec = 2 * 2 ^ (prec - 1)).
           { replace prec with (1 + (prec - 1)) at 1 by lia.
             rewrite Z.pow_add_r by lia. reflexivity. }
           apply Z.le_trans with (2 ^ (prec - 1)); [ | assumption ].
           apply Z.div_le_upper_bound; lia.
Qed.

(** Rounding does not cross a number of the format from above: a number
    that is at least [mb * 2^eb] is rounded to an infinity or to a number
    that is at least [mb * 2^eb]. *)
Lemma round_lower (mx : positive) (ex : Z) (mb : positive) (eb e0 : Z) :
  bounded prec emax mb eb = true ->
  e0 <= ex -> e0 <= eb ->
  Zpos mb * 2 ^ (eb - e0) <= Zpos mx * 2 ^ (ex - e0) ->
  binary_round prec emax false mx ex = S754_infinity false \/
  exists m' e',
    binary_round prec emax false mx ex = S754_finite false m' e' /\
    (eb < e' \/ (e' = eb /\ Zpos mb <= Zpos m')).
Proof.
  intros Hb H0x H0b Hle.
  unfold bounded, canonical_mantissa in Hb. apply andb_true_iff in Hb.
  destruct Hb as [Hcan Hmax]. apply Z.eqb_eq in Hcan. apply Z.leb_le in Hmax.
  pose proof (digits2_pos_bounds mx) as [Hlox Hhix].
  pose proof (digits2_pos_bounds mb) as [Hlob Hhib].
  set (dx := Zpos (digits2_pos mx)) in *.
  set (db := Zpos (digits2_pos mb)) in *.
  assert (Hdx : 0 < dx) by (unfold dx; lia).
  assert (Hdb : 0 < db) by (unfold db; lia).
  assert (Hpx : 0 < 2 ^ (ex - e0)) by (apply pow2_pos; lia).
  assert (Hpb : 0 < 2 ^ (eb - e0)) by (apply pow2_pos; lia).
  assert (Hg : db + eb <= dx + ex).
  { assert (2 ^ ((db - 1) + (eb - e0)) < 2 ^ (dx + (ex - e0)))
      by (rewrite !Z.pow_add_r by lia; nia).
    assert ((db - 1) + (eb - e0) < dx + (ex - e0))
      by (apply pow2_lt_inv; lia).
    lia. }
  rewrite binary_round_scale. cbv zeta. fold dx.
  set (g := dx + ex) in *. set (e1 := fx g).
  assert (He1 : eb <= e1) by (rewrite <- Hcan; apply fexp_mono; lia).
  assert (Hemin : emn <= e1) by apply fexp_ge_emin.
  destruct (scale_to_bounds mx ex e1) as [Hq0 [_ Hqlo]].
  fold dx in Hqlo. fold g in Hqlo.
  pose proof (round_nearest_even_bounds (fst (scale_to (Zpos mx) ex e1))
                (snd (scale_to (Zpos mx) ex e1))) as Hm2.
  (* the rounded mantissa is positive, and at least [mb] on [eb] *)
  assert (Hpos : 0 < round_nearest_even (fst (scale_to (Zpos mx) ex e1))
                                        (snd (scale_to (Zpos mx) ex e1)) /\
                 (e1 = eb ->
                  Zpos mb <= round_nearest_even
                               (fst (scale_to (Zpos mx) ex e1))
                               (snd (scale_to (Zpos mx) ex e1)))).
  { destruct (Z.eq_dec e1 eb) as [Heq | Hne].
    - assert (Hqb : Zpos mb <= fst (scale_to (Zpos mx) ex e1)); [ | lia ].
      clear Hqlo Hm2 Hq0. unfold scale_to.
      destruct (Z.leb_spec e1 ex) as [Hle1 | Hgt1]; cbn [fst].
      + assert (Hp1 : 0 < 2 ^ (e1 - e0)) by (apply pow2_pos; lia).
        replace (ex - e0) with ((ex - e1) + (e1 - e0)) in Hle by lia.
        rewrite Z.pow_add_r in Hle by lia.
        replace (eb - e0) with (e1 - e0) in Hle by lia. nia.
      + assert (Hpn : 0 < 2 ^ (e1 - ex)) by (apply pow2_pos; lia).
        replace (eb - e0) with ((e1 - ex) + (ex - e0)) in Hle by lia.
        rewrite Z.pow_add_r in Hle by lia.
        apply Z.div_le_lower_bound; [ lia | ]. nia.
    - assert (Hgp : e1 = g - prec) by (unfold e1, SpecFloat.fexp in *; lia).
      assert (Hqq : 2 ^ (g - 1 - e1) <= fst (scale_to (Zpos mx) ex e1))
        by (apply Hqlo; lia).
      assert (0 < 2 ^ (g - 1 - e1)) by (apply pow2_pos; lia).
      split; [ lia | intros; lia ]. }
  set (m2 := round_nearest_even _ _) in *.
  destruct Hpos as [Hpos Hmb].
  destruct m2 as [ | p2 | p2 ] eqn:E; try lia.
  destruct (Z_le_gt_dec (fx (Zpos (digits2_pos p2) + e1)) e1) as [Hkeep | Hshift];
    [ | apply Z.gt_lt in Hshift ].
  - rewrite finish_keep by assumption. unfold classify.
    destruct (Z.leb_spec e1 (emax - prec)); [ right | left; reflexivity ].
    exists p2, e1. split; [ reflexivity | ].
    destruct (Z.eq_dec e1 eb) as [Heq | Hne]; [ right | left; lia ].
    split; [ assumption | now apply Hmb ].
  - destruct (finish_shift false p2 Hemin Hshift) as [p' [Hf _]].
    rewrite Hf. unfold classify.
    destruct (Z.leb_spec (Zpos (digits2_pos p2) + e1 - prec) (emax - prec));
      [ right | left; reflexivity ].
    exists p', (Zpos (digits2_pos p2) + e1 - prec).
    split; [ reflexivity | left ].
    unfold SpecFloat.fexp in Hshift. lia.
Qed.

(** The sign of a rounded number is the sign given to [binary_round]. *)
Lemma binary_round_sign (sx : bool) (mx : positive) (ex : Z) :
  match binary_round prec emax sx mx ex with
  | S754_zero s | S754_infinity s | S754_finite s _ _ => s = sx
  | S754_nan => True
  end.
Proof.
  rewrite binary_round_scale. cbv zeta. unfold finish, classify.
  destruct (_ / _) as [ | p | p ]; try reflexivity; try exact I.
  destruct (_ <=? _); reflexivity.
Qed.

End Format.

(** ** The mass window contains its centre *)

Lemma shl_align_fst (m : positive) (e e' : Z) :
  e' <= e -> Zpos (fst (shl_align m e e')) = Zpos m * 2 ^ (e - e').
Proof.
  intros H. unfold shl_align.
  destruct (e' - e) as [ | d | d ] eqn:Hd; try lia; cbn [fst].
  - replace (e - e') with 0 by lia. rewrite Z.pow_0_r. lia.
  - rewrite iter_xO. replace (e - e') with (Zpos d) by lia. reflexivity.
Qed.

Lemma binary_round_true_notPositive (prec emax : Z) (m : positive) (e : Z) :
  notPositive (binary_round prec emax true m e).
Proof.
  pose proof (binary_round_sign prec emax true m e) as H.
  destruct (binary_round prec emax true m e); simpl; auto.
Qed.

Lemma to_float_notPositive (x : double) :
  notPositive x -> notPositive (to_float x).
Proof.
  destruct x as [s | s | | s m e]; simpl; auto.
  intros ->. now apply binary_round_true_notPositive.
Qed.

Lemma lt_notPositive (m : positive) (e : Z) (y : spec_float) :
  notPositive y -> lt (S754_finite false m e) y = false.
Proof.
  destruct y as [s | s | | s m' e']; simpl; try reflexivity; intros ->;
    reflexivity.
Qed.

Lemma to_float_nominal :
  to_float d_0_497 = S754_finite false nominalMantissa32 (-25).
Proof. reflexivity. Qed.

(** Positive numbers of one format compare by exponent, then mantissa. *)
Lemma lt_finite_false (m m' : positive) (e e' : Z) :
  e' < e \/ (e' = e /\ Zpos m' <= Zpos m) ->
  lt (S754_finite false m e) (S754_finite false m' e') = false.
Proof.
  unfold lt, SFltb, SFcompare. intros [H | [-> H]].
  - destruct (Z.compare_spec e e'); try reflexivity; lia.
  - rewrite Z.compare_refl. fold (Pos.compare m m').
    destruct (Pos.compare_spec m m') as [ | Hlt | ]; try reflexivity.
    apply Pos2Z.pos_lt_pos in Hlt. lia.
Qed.

(** A [double] that is at most 0.497 narrows to a [float] that is at most
    (float)0.497. *)
Lemma to_float_below_nominal (mr : positive) (er : Z) :
  bounded prec64 emax64 mr er = true ->
  er < -54 \/ (er = -54 /\ Zpos mr <= Zpos nominalMantissa64) ->
  lt (to_float d_0_497) (to_float (S754_finite false mr er)) = false.
Proof.
  intros Hb Hle. rewrite to_float_nominal. cbn [to_float].
  assert (Hd : Zpos (digits2_pos mr) <= 53).
  { unfold bounded, canonical_mantissa in Hb. apply andb_true_iff in Hb.
    destruct Hb as [Hc _]. apply Z.eqb_eq in Hc.
    unfold fexp, prec64 in Hc. lia. }
  pose proof (digits2_pos_bounds mr) as [_ Hhi].
  assert (Hmr : Zpos mr < 2 ^ 53).
  { apply Z.lt_le_trans with (1 := Hhi). apply Z.pow_le_mono_r; lia. }
  assert (Hx : Zpos mr * 2 ^ (er - er) <=
               Zpos nominalMantissa32 * 2 ^ (-25 - er)).
  { rewrite Z.sub_diag, Z.pow_0_r, Z.mul_1_r.
    destruct Hle as [Hlt | [-> Hm]].
    - assert (2 ^ 30 <= 2 ^ (-25 - er)) by (apply Z.pow_le_mono_r; lia).
      change (2 ^ 53) with 9007199254740992 in Hmr.
      change (2 ^ 30) with 1073741824 in H.
      unfold nominalMantissa32. nia.
    - change (2 ^ (-25 - -54)) with 536870912.
      unfold nominalMantissa32, nominalMantissa64 in *. lia. }
  destruct (@round_upper prec32 emax32 eq_refl mr er nominalMantissa32 (-25) er
              eq_refl ltac:(lia) ltac:(lia) Hx) as [H | [m' [e' [H Hlex]]]];
    rewrite H.
  - reflexivity.
  - apply lt_finite_false. exact Hlex.
Qed.

(** A [double] that is at least 0.497 narrows to a [float] that is at
    least (float)0.497. *)
Lemma to_float_above_nominal (mr : positive) (er : Z) :
  bounded prec64 emax64 mr er = true ->
  -54 < er \/ (er = -54 /\ Zpos nominalMantissa64 <= Zpos mr) ->
  lt (to_float (S754_finite false mr er)) (to_float d_0_497) = false.
Proof.
  intros Hb Hle. rewrite to_float_nominal. cbn [to_float].
  assert (Hcan : emin prec64 emax64 < er -> Zpos (digits2_pos mr) = 53).
  { unfold bounded, canonical_mantissa in Hb. apply andb_true_iff in Hb.
    destruct Hb as [Hc _]. apply Z.eqb_eq in Hc.
    unfold fexp, prec64 in *. lia. }
  pose proof (digits2_pos_bounds mr) as [Hlo Hhi].
  assert (Hbig : er = -54 /\ Zpos mr < Zpos nominalMantissa32 * 2 ^ 29 \/
                 Zpos nominalMantissa32 * 2 ^ (-25 - -54) <=
                 Zpos mr * 2 ^ (er - -54)).
  { destruct Hle as [Hlt | [-> Hm]].
    - right. rewrite Hcan in Hlo by (unfold emin, prec64, emax64; lia).
      assert (2 ^ 1 <= 2 ^ (er - -54)) by (apply Z.pow_le_mono_r; lia).
      change (2 ^ (53 - 1)) with 4503599627370496 in Hlo.
      change (2 ^ 1) with 2 in H.
      change (2 ^ (-25 - -54)) with 536870912.
      unfold nominalMantissa32. nia.
    - destruct (Z_lt_le_dec (Zpos mr) (Zpos nominalMantissa32 * 2 ^ 29));
        [ left; auto | right ].
      change (-54 - -54) with 0. rewrite Z.pow_0_r, Z.mul_1_r. assumption. }
  destruct Hbig as [[-> Hsmall] | Hx].
  - (* between 0.497 and (float)0.497: rounded up to (float)0.497 *)
    assert (Hm : Zpos nominalMantissa64 <= Zpos mr) by (destruct Hle; lia).
    change (2 ^ 29) with 536870912 in Hsmall.
    unfold nominalMantissa32, nominalMantissa64 in *.
    assert (Hdig : Zpos (digits2_pos mr) = 53)
      by (apply digits2_pos_unique;
          change (2 ^ (53 - 1)) with 4503599627370496;
          change (2 ^ 53) with 9007199254740992; lia).
    rewrite (binary_round_scale prec32 emax32 false mr (-54)). cbv zeta.
    rewrite Hdig. change (fexp prec32 emax32 (53 + -54)) with (-25).
    unfold scale_to. change (-25 <=? -54) with false. cbn [fst snd].
    change (2 ^ (-25 - -54)) with 536870912.
    assert (Hq : Zpos mr / 536870912 = 16676552)
      by (symmetry; apply (Z.div_unique _ _ _ (Zpos mr - 16676552 * 536870912));
          lia).
    assert (Hr : Zpos mr mod 536870912 = Zpos mr - 16676552 * 536870912)
      by (symmetry; apply (Z.mod_unique _ _ 16676552); lia).
    rewrite Hq, Hr. unfold locate.
    destruct (Z.eqb_spec (Zpos mr - 16676552 * 536870912) 0) as [E | E];
      [ lia | ].
    destruct (Z.compare_spec (2 * (Zpos mr - 16676552 * 536870912)) 536870912)
      as [ E' | E' | E' ]; try lia.
    cbn [round_nearest_even]. reflexivity.
  - destruct (@round_lower prec32 emax32 eq_refl mr er nominalMantissa32 (-25)
                (-54) eq_refl ltac:(destruct Hle; lia) ltac:(lia) Hx)
      as [H | [m' [e' [H Hlex]]]]; rewrite H.
    + reflexivity.
    + apply lt_finite_false. destruct Hlex as [Hl | [Hl Hm']]; auto.
Qed.

Lemma bounded_nominal64 : bounded prec64 emax64 nominalMantissa64 (-54) = true.
Proof. reflexivity. Qed.

(** 0.497 - d, narrowed, is not above (float)0.497 when d is positive. *)
Lemma low_cut_below_nominal (md : positive) (ed : Z) :
  lt (to_float d_0_497)
     (to_float (f64_sub d_0_497 (S754_finite false md ed))) = false.
Proof.
  rewrite to_float_nominal.
  unfold f64_sub, d_0_497. cbn [SFsub cond_Zopp].
  fold nominalMantissa64.
  set (ez := Z.min (-54) ed).
  assert (Hez : ez <= -54) by (unfold ez; lia).
  assert (Hed : ez <= ed) by (unfold ez; lia).
  pose proof (shl_align_fst nominalMantissa64 Hez) as Ha.
  pose proof (shl_align_fst md Hed) as Hb.
  set (a := fst (shl_align nominalMantissa64 (-54) ez)) in *.
  set (b := fst (shl_align md ed ez)) in *.
  destruct (Zpos a - Zpos b) as [ | p | p ] eqn:Hz; cbn [binary_normalize].
  - reflexivity.
  - assert (Hx : Zpos p * 2 ^ (ez - ez) <=
                 Zpos nominalMantissa64 * 2 ^ (-54 - ez))
      by (rewrite Z.sub_diag, Z.pow_0_r; lia).
    destruct (@round_upper prec64 emax64 eq_refl p ez nominalMantissa64 (-54)
                ez bounded_nominal64 (Z.le_refl ez) Hez Hx)
      as [H | [mr [er [H Hlex]]]]; rewrite H.
    + reflexivity.
    + rewrite <- to_float_nominal.
      apply to_float_below_nominal; [ | assumption ].
      exact (@binary_round_bounded prec64 emax64 eq_refl false false p ez
               mr er H).
  - apply lt_notPositive, to_float_notPositive.
    apply binary_round_true_notPositive.
Qed.

(** 0.497 + d, narrowed, is not below (float)0.497 when d is positive. *)
Lemma high_cut_above_nominal (md : positive) (ed : Z) :
  lt (to_float (f64_add d_0_497 (S754_finite false md ed)))
     (to_float d_0_497) = false.
Proof.
  rewrite to_float_nominal.
  unfold f64_add, d_0_497. cbn [SFadd cond_Zopp].
  fold nominalMantissa64.
  set (ez := Z.min (-54) ed).
  assert (Hez : ez <= -54) by (unfold ez; lia).
  assert (Hed : ez <= ed) by (unfold ez; lia).
  pose proof (shl_align_fst nominalMantissa64 Hez) as Ha.
  set (a := fst (shl_align nominalMantissa64 (-54) ez)) in *.
  set (b := fst (shl_align md ed ez)) in *.
  destruct (Zpos a + Zpos b) as [ | p | p ] eqn:Hz; try lia.
  cbn [binary_normalize].
  assert (Hx : Zpos nominalMantissa64 * 2 ^ (-54 - ez) <=
               Zpos p * 2 ^ (ez - ez))
    by (rewrite Z.sub_diag, Z.pow_0_r; lia).
  destruct (@round_lower prec64 emax64 eq_refl p ez nominalMantissa64 (-54)
              ez bounded_nominal64 (Z.le_refl ez) Hez Hx)
    as [H | [mr [er [H Hlex]]]]; rewrite H.
  - reflexivity.
  - rewrite <- to_float_nominal. apply to_float_above_nominal.
    + exact (@binary_round_bounded prec64 emax64 eq_refl false false p ez
               mr er H).
    + destruct Hlex as [Hl | [Hl Hm]]; auto.
Qed.

(** For a half-width that is not negative, the nominal mass (float)0.497
    is neither below the low cut nor above the high cut. *)
Lemma nominal_in_window (d : double) :
  lt d (S754_zero false) = false ->
  lt (to_float d_0_497) (to_float (f64_sub d_0_497 d)) = false /\
  lt (to_float (f64_add d_0_497 d)) (to_float d_0_497) = false.
Proof.
  intros Hd. destruct d as [s | s | | s md ed].
  - split; reflexivity.
  - destruct s; [ discriminate Hd | split; reflexivity ].
  - split; reflexivity.
  - destruct s; [ discriminate Hd | ].
    split; [ apply low_cut_below_nominal | apply high_cut_above_nominal ].
Qed.

(** C2. The mass window of [SelectionV0] is
    [0.497 - cWidthKs0 * cSigmaMassKs0, 0.497 + cWidthKs0 * cSigmaMassKs0],
    the product, the difference and the sum taken in [double] and each
    bound then held in a [float], as the mass is.  [SelectionV0] returns
    false for every candidate whose [mK0Short] is strictly below the lower
    or strictly above the upper bound.  The window is no wider: a
    candidate that passes every other cut is accepted exactly when its
    mass is neither below the lower nor above the upper bound.  When the
    half-width cWidthKs0 * cSigmaMassKs0 is not negative, a candidate
    whose mass is the window's centre, (float)0.497, and that passes every
    other cut is accepted. *)
Theorem SelectionV0_mass_window {root : Root} (cfg : Config)
        (collision : Collision) (candidate : V0) (multiplicity : float) :
  (lt (mK0Short candidate)
      (to_float (f64_sub d_0_497
                         (f64_mul (cWidthKs0 cfg) (cSigmaMassKs0 cfg)))) = true \/
   gt (mK0Short candidate)
      (to_float (f64_add d_0_497
                         (f64_mul (cWidthKs0 cfg) (cSigmaMassKs0 cfg)))) = true ->
   fst (SelectionV0 cfg collision candidate multiplicity) = false) /\
  (passesAllButMass cfg collision candidate = true ->
   (fst (SelectionV0 cfg collision candidate multiplicity) = true <->
    lt (mK0Short candidate)
       (to_float (f64_sub d_0_497
                          (f64_mul (cWidthKs0 cfg) (cSigmaMassKs0 cfg)))) =
    false /\
    gt (mK0Short candidate)
       (to_float (f64_add d_0_497
                          (f64_mul (cWidthKs0 cfg) (cSigmaMassKs0 cfg)))) =
    false)) /\
  (lt (f64_mul (cWidthKs0 cfg) (cSigmaMassKs0 cfg)) (S754_zero false) = false ->
   mK0Short candidate = to_float d_0_497 ->
   passesAllButMass cfg collision candidate = true ->
   fst (SelectionV0 cfg collision candidate multiplicity) = true).
Proof.
  rewrite SelectionV0_cuts.
  unfold passesMassWindow, passesAllButMass, lowmasscutks0, highmasscutks0.
  split; [ | split ].
  - intros [H | H]; rewrite H; simpl; rewrite ?andb_false_r; reflexivity.
  - intros Hother.
    apply andb_true_iff in Hother. destruct Hother as [Hother Harm].
    rewrite Hother, Harm.
    destruct (lt (mK0Short candidate) _), (gt (mK0Short candidate) _);
      simpl; split; try tauto; try discriminate;
      intros [H1 H2]; discriminate.
  - intros Hw Hm Hother.
    destruct (nominal_in_window _ Hw) as [Hlo Hhi].
    unfold gt, lt in *. rewrite Hm, Hlo, Hhi.
    apply andb_true_iff in Hother. destruct Hother as [Hother Harm].
    rewrite Hother, Harm. reflexivity.
Qed.

Lemma SelectionV0_mass_window_witness :
  lt (f64_mul (cWidthKs0 defaultConfig) (cSigmaMassKs0 defaultConfig))
     (S754_zero false) = false /\
  mK0Short (Sample.goodV0 1 2) = to_float d_0_497 /\
  @passesAllButMass Sample.sampleRoot defaultConfig Sample.collision0
                    (Sample.goodV0 1 2) = true /\
  fst (@SelectionV0 Sample.sampleRoot defaultConfig Sample.collision0
                    (Sample.goodV0 1 2) Sample.f_5) = true.
Proof.
  split; [ reflexivity | ]. split; [ reflexivity | ].
  split; [ reflexivity | ].
  apply (proj2 (proj2 (@SelectionV0_mass_window Sample.sampleRoot
                         defaultConfig Sample.collision0
                         (Sample.goodV0 1 2) Sample.f_5)));
    reflexivity.
Defined.

(** Under [defaultConfig] the bounds are 0.477 and 0.517 as [float]s:
    0.476999998... and 0.517000019... *)
Example default_mass_window :
  to_float (f64_sub d_0_497
                    (f64_mul (cWidthKs0 defaultConfig)
                             (cSigmaMassKs0 defaultConfig))) =
  S754_finite false 16005464 (-25) /\
  to_float (f64_add d_0_497
                    (f64_mul (cWidthKs0 defaultConfig)
                             (cSigmaMassKs0 defaultConfig))) =
  S754_finite false 8673821 (-24).
Proof. split; reflexivity. Qed.

(** * Further properties of the engine

    ** Histogram registration and the fills made against it *)

Section RegistrationFacts.

Context {root : Root}.
Variable cfg : Config.
Variable hcfg : HistConfig.

(** What [SelectionV0] can fill, and when. *)
Lemma SelectionV0_fill_in (collision : Collision) (candidate : V0)
      (multiplicity : float) (f : FillEvent) :
  In f (snd (SelectionV0 cfg collision candidate multiplicity)) ->
  QAv0 cfg = true /\
  fst (SelectionV0 cfg collision candidate multiplicity) = true /\
  (f = Fill hLT [CtauK0s collision candidate] \/
   f = Fill hMassvsptvsmult
            [mK0Short candidate; v_pt candidate; multiplicity] \/
   f = Fill hDCAV0Daughters [dcaV0daughters candidate] \/
   f = Fill hV0CosPA [v0cosPA candidate]).
Proof.
  unfold SelectionV0.
  repeat match goal with
         | |- context [if ?b then (false, _) else _] =>
             destruct b; simpl; [ contradiction | ]
         end.
  destruct (QAv0 cfg); simpl; [ | contradiction ].
  intros [H | [H | [H | [H | []]]]]; subst f; auto 6.
Qed.

(** What one combination of [processME] can fill. *)
Lemma pairBodyME_in (c2 : Collision) (multiplicity : float)
      (t1 : Track) (t2 : V0) (f : FillEvent) :
  In f (pairBodyME cfg c2 multiplicity t1 t2) ->
  In f (snd (SelectionV0 cfg c2 t2 multiplicity)) \/
  f = Fill h3CKSInvMassMixed
           [multiplicity; tlv_Pt (mixVector t1 t2); tlv_M (mixVector t1 t2)].
Proof.
  unfold pairBodyME.
  destruct (selectionTrack cfg t1); simpl; [ | contradiction ].
  destruct (selectionPID cfg t1); simpl; [ | contradiction ].
  destruct (SelectionV0 cfg c2 t2 multiplicity) as [ok qa]. simpl.
  destruct ok; simpl; [ | tauto ].
  destruct (isSelectedV0Daughter cfg (posTrack t2) _ _); simpl; [ | tauto ].
  destruct (isSelectedV0Daughter cfg (negTrack t2) _ _); simpl; [ | tauto ].
  fold (mixVector t1 t2).
  destruct (lt (fabs (tlv_Rapidity (mixVector t1 t2))) d_0_5); [ | tauto ].
  rewrite in_app_iff. intros [H | [H | []]]; auto.
Qed.

Lemma SelectionV0_fill_registered (collision : Collision) (candidate : V0)
      (multiplicity : float) (f : FillEvent) :
  In f (snd (SelectionV0 cfg collision candidate multiplicity)) ->
  registered (init cfg hcfg) f = true.
Proof.
  intros H. apply SelectionV0_fill_in in H. destruct H as [HQ [_ H]].
  unfold registered, init. rewrite HQ.
  destruct (QAbefore cfg), (QAafter cfg);
    destruct H as [H | [H | [H | H]]]; subst f; reflexivity.
Qed.

Lemma trackFills_registered (track1 : Track) (f : FillEvent) :
  QAbefore cfg = QAafter cfg ->
  In f (trackFills cfg track1) -> registered (init cfg hcfg) f = true.
Proof.
  intros HQ. unfold trackFills, registered, init. rewrite <- HQ.
  rewrite in_app_iff.
  destruct (QAbefore cfg); rewrite ?andb_false_r; simpl In;
    [ | tauto ].
  intros [H | H].
  - destruct H as [H | [H | []]]; subst f; destruct (QAv0 cfg); reflexivity.
  - destruct (acceptPion cfg track1); simpl in H; [ | contradiction ].
    destruct H as [H | [H | [H | [H | [H | []]]]]]; subst f;
      destruct (QAv0 cfg); reflexivity.
Qed.

(** X1. [init] declares no histogram name twice, whatever the QA
    switches. *)
Theorem init_names_distinct : NoDup (map h_name (init cfg hcfg)).
Proof.
  unfold init.
  destruct (QAbefore cfg), (QAafter cfg), (QAv0 cfg); simpl;
    repeat (constructor; [ simpl; intuition discriminate | ]);
    constructor.
Qed.

(** X2. When [QAbefore] and [QAafter] are both set or both unset, every
    fill of [processSE] goes to a histogram that [init] declared in the
    registry the fill goes through, with as many axes as the fill has
    coordinates. *)
Theorem processSE_fills_registered (st : TaskState) (collision : Collision)
        (tracks : list Track) (V0s : list V0) (f : FillEvent) :
  QAbefore cfg = QAafter cfg ->
  In f (snd (processSE cfg st collision tracks V0s)) ->
  registered (init cfg hcfg) f = true.
Proof.
  intros HQ. rewrite processSE_fills.
  destruct (sel8 collision); [ | contradiction ].
  unfold selectionFillsSE, massFillsSE.
  rewrite !in_app_iff, !in_flat_map.
  intros [[H | [[t [_ H]] | [v [_ H]]]] | [t [_ H]]].
  - unfold registered, init.
    destruct H as [H | [H | []]]; subst f; reflexivity.
  - now apply (trackFills_registered t).
  - unfold v0Fills in H.
    destruct (daughtersSelected cfg v); [ | contradiction ].
    eapply SelectionV0_fill_registered; eauto.
  - apply in_flat_map in H. destruct H as [v [_ H]].
    unfold pairFillRows in H.
    match type of H with
    | In _ (if ?b then _ else _) => destruct b; [ | contradiction ]
    end.
    destruct H as [H | []]. subst f. unfold registered, init.
    destruct (QAbefore cfg && QAafter cfg), (QAv0 cfg); reflexivity.
Qed.

(** X3. Every fill of [processME] goes to a declared histogram, under
    every configuration. *)
Theorem processME_fills_registered (pairs : list MixedPair) (f : FillEvent) :
  In f (processME cfg pairs) -> registered (init cfg hcfg) f = true.
Proof.
  intros H. apply processME_in in H.
  destruct H as [c1 [tracks1 [c2 [tracks2 [t1 [t2 [_ [_ [_ [_ [_ H]]]]]]]]]]].
  apply pairBodyME_in in H. destruct H as [H | H].
  - eapply SelectionV0_fill_registered; eauto.
  - subst f. unfold registered, init.
    destruct (QAbefore cfg && QAafter cfg), (QAv0 cfg); reflexivity.
Qed.

(** X4. When exactly one of [QAbefore] and [QAafter] is set, [processSE]
    on a selected collision with an accepted pion row fills a histogram
    that [init] did not declare. *)
Theorem processSE_fill_undeclared (st : TaskState) (collision : Collision)
        (tracks : list Track) (V0s : list V0) (t : Track) :
  QAbefore cfg <> QAafter cfg ->
  sel8 collision = true ->
  In t tracks ->
  acceptPion cfg t = true ->
  exists f,
    In f (snd (processSE cfg st collision tracks V0s)) /\
    registered (init cfg hcfg) f = false.
Proof.
  intros HQ Hs Ht Ha. rewrite processSE_fills, Hs.
  unfold selectionFillsSE.
  destruct (QAbefore cfg) eqn:Hb, (QAafter cfg) eqn:Hf; try congruence.
  - exists (Fill hNsigmaPionTPC_before [tpcNSigmaPi t]). split.
    + rewrite !in_app_iff. left. right. left. apply in_flat_map.
      exists t. split; [ assumption | ].
      unfold trackFills. rewrite Hb. simpl. auto.
    + unfold registered, init. rewrite Hb, Hf.
      destruct (QAv0 cfg); reflexivity.
  - exists (Fill hEta_after [t_eta t]). split.
    + rewrite !in_app_iff. left. right. left. apply in_flat_map.
      exists t. split; [ assumption | ].
      unfold trackFills. rewrite Hb, Hf, Ha. simpl. auto.
    + unfold registered, init. rewrite Hb, Hf.
      destruct (QAv0 cfg); reflexivity.
Qed.

End RegistrationFacts.

(** ** Not-a-number and sign in the comparisons *)

Lemma lt_nan_l (y : spec_float) : lt S754_nan y = false.
Proof. destruct y; reflexivity. Qed.

Lemma lt_nan_r (x : spec_float) : lt x S754_nan = false.
Proof. destruct x; reflexivity. Qed.

Lemma f32_add_nan_r (x : float) : f32_add x S754_nan = S754_nan.
Proof. destruct x; reflexivity. Qed.

Lemma f32_add_nan_l (y : float) : f32_add S754_nan y = S754_nan.
Proof. destruct y; reflexivity. Qed.

Lemma f32_div_nan_r (x : float) : f32_div x S754_nan = S754_nan.
Proof. destruct x; reflexivity. Qed.

Lemma f64_mul_nan_l (y : double) : f64_mul S754_nan y = S754_nan.
Proof. destruct y; reflexivity. Qed.

(** A magnitude is below no threshold that is zero, negative or NaN. *)
Lemma lt_fabs_notPositive (x c : spec_float) :
  notPositive c -> lt (fabs x) c = false.
Proof.
  destruct x as [sx | sx | | sx mx ex], c as [sc | sc | | sc mc ec];
    simpl; try reflexivity; intros ->; reflexivity.
Qed.

(** A zero or a negative number is below 0.2. *)
Lemma lt_zeroOrNegative (x : spec_float) :
  zeroOrNegative x -> lt x d_0_2 = true.
Proof.
  destruct x as [s | s | | s m e]; simpl; try reflexivity; try contradiction;
    intros ->; reflexivity.
Qed.

(** The square of a threshold does not see its sign. *)
Lemma f32_mul_opp_opp (c : float) :
  f32_mul (SFopp c) (SFopp c) = f32_mul c c.
Proof. destruct c as [s | s | | s m e]; try destruct s; reflexivity. Qed.

Section SignOfRounding.

Variables prec emax : Z.

Lemma shr_1_nonneg (mrs : shr_record) :
  0 <= shr_m mrs -> 0 <= shr_m (shr_1 mrs).
Proof.
  destruct mrs as [m r s]. unfold shr_1. simpl shr_m.
  destruct m as [ | [ p | p | ] | p ]; simpl; lia.
Qed.

Lemma shr_nonneg (mrs : shr_record) (e n : Z) :
  0 <= shr_m mrs -> 0 <= shr_m (fst (shr mrs e n)).
Proof.
  intros H. unfold shr. destruct n as [ | p | p ]; simpl fst; auto.
  rewrite iter_pos_nat.
  induction (Pos.to_nat p) as [ | k IH ]; simpl; auto using shr_1_nonneg.
Qed.

Lemma shr_fexp_nonneg (m e : Z) (l : location) :
  0 <= m -> 0 <= shr_m (fst (shr_fexp prec emax m e l)).
Proof.
  intros H. unfold shr_fexp. apply shr_nonneg.
  destruct l as [ | [ | | ]]; exact H.
Qed.

(** Rounding a non-negative mantissa gives a number of the requested
    sign, never NaN. *)
Lemma binary_round_aux_signed (sx : bool) (m e : Z) (l : location) :
  0 <= m ->
  match binary_round_aux prec emax sx m e l with
  | S754_zero s | S754_infinity s | S754_finite s _ _ => s = sx
  | S754_nan => False
  end.
Proof.
  intros H. unfold binary_round_aux.
  pose proof (shr_fexp_nonneg e l H) as H1.
  destruct (shr_fexp prec emax m e l) as [mrs' e']. simpl in H1.
  pose proof (round_nearest_even_bounds (shr_m mrs') (loc_of_shr_record mrs'))
    as H2.
  assert (H3 : 0 <= round_nearest_even (shr_m mrs') (loc_of_shr_record mrs'))
    by lia.
  pose proof (shr_fexp_nonneg e' loc_Exact H3) as H4.
  destruct (shr_fexp prec emax _ e' loc_Exact) as [mrs'' e'']. simpl in H4.
  destruct (shr_m mrs'') as [ | p | p ]; try reflexivity; try lia.
  destruct (e'' <=? emax - prec); reflexivity.
Qed.

Lemma binary_round_signed (sx : bool) (mx : positive) (ex : Z) :
  match binary_round prec emax sx mx ex with
  | S754_zero s | S754_infinity s | S754_finite s _ _ => s = sx
  | S754_nan => False
  end.
Proof.
  unfold binary_round.
  destruct (shl_align mx ex _) as [mz ez].
  apply binary_round_aux_signed. lia.
Qed.

(** The quotient of two finite numbers has the product of their signs. *)
Lemma SFdiv_finite_signed (sx sy : bool) (mx my : positive) (ex ey : Z) :
  match SFdiv prec emax (S754_finite sx mx ex) (S754_finite sy my ey) with
  | S754_zero s | S754_infinity s | S754_finite s _ _ => s = xorb sx sy
  | S754_nan => False
  end.
Proof.
  unfold SFdiv, SFdiv_core_binary.
  set (s := ex - ey - _).
  set (m' := match s with Z0 => _ | Zpos _ => _ | Zneg _ => _ end).
  assert (Hm : 0 <= m').
  { unfold m'. destruct s; try lia. apply Z.shiftl_nonneg. lia. }
  pose proof (Z.div_pos m' (Zpos my) Hm eq_refl) as Hq.
  unfold Z.div in Hq.
  destruct (Z.div_eucl m' (Zpos my)) as [q r].
  now apply binary_round_aux_signed.
Qed.

End SignOfRounding.

Lemma to_double_zeroOrNegative (x : float) :
  zeroOrNegative x -> zeroOrNegative (to_double x).
Proof.
  destruct x as [s | s | | s m e]; simpl; auto. intros ->.
  pose proof (binary_round_signed prec64 emax64 true m e) as H.
  destruct (binary_round prec64 emax64 true m e); simpl; auto.
Qed.

(** ** The selectors at their edges *)

Section SelectorEdges.

Context {root : Root}.
Variable cfg : Config.

(** X5. No cut of [SelectionV0] rejects a value that is not a number: a
    candidate whose measured quantities are all NaN is accepted under
    every configuration. *)
Theorem SelectionV0_accepts_NaN (collision : Collision) (candidate : V0)
        (multiplicity : float) :
  dcav0topv candidate = S754_nan ->
  yK0Short candidate = S754_nan ->
  v_pt candidate = S754_nan ->
  dcaV0daughters candidate = S754_nan ->
  v0cosPA candidate = S754_nan ->
  v0radius candidate = S754_nan ->
  distovertotmom candidate (posX collision) (posY collision)
                 (posZ collision) = S754_nan ->
  mK0Short candidate = S754_nan ->
  alpha candidate = S754_nan ->
  fst (SelectionV0 cfg collision candidate multiplicity) = true.
Proof.
  intros H1 H2 H3 H4 H5 H6 H7 H8 H9. rewrite SelectionV0_cuts.
  unfold passesTopology, passesLifetime, passesMassWindow, passesArmenteros,
    CtauK0s, arm, gt.
  rewrite H1, H2, H3, H4, H5, H6, H7, H8, H9, f32_div_nan_r.
  cbn [to_double to_float fabs SFabs]. rewrite f64_mul_nan_l.
  cbn [to_double to_float fabs SFabs].
  rewrite !lt_nan_l, !lt_nan_r. reflexivity.
Qed.

(** X6. The ratio qt/alpha is compared with its sign: a candidate whose
    [qtarm] and [alpha] are finite, non-zero and of opposite signs is
    rejected, whatever the other quantities and the configuration. *)
Theorem SelectionV0_opposite_signs (collision : Collision) (candidate : V0)
        (multiplicity : float) (sq sa : bool) (mq ma : positive)
        (eq ea : Z) :
  qtarm candidate = S754_finite sq mq eq ->
  alpha candidate = S754_finite sa ma ea ->
  sq <> sa ->
  SelectionV0 cfg collision candidate multiplicity = (false, []).
Proof.
  intros Hq Ha Hs.
  assert (Hr : fst (SelectionV0 cfg collision candidate multiplicity) = false).
  { rewrite SelectionV0_cuts.
    assert (Harm : passesArmenteros candidate = false).
    { unfold passesArmenteros, arm, f32_div. rewrite Hq, Ha.
      pose proof (SFdiv_finite_signed prec32 emax32 sq sa mq ma eq ea) as H.
      assert (Hx : xorb sq sa = true) by (destruct sq, sa; simpl; congruence).
      rewrite Hx in H.
      rewrite lt_zeroOrNegative; [ reflexivity | ].
      apply to_double_zeroOrNegative.
      destruct (SFdiv prec32 emax32 _ _); simpl; auto. }
    rewrite Harm. apply andb_false_r. }
  pose proof (SelectionV0_rejected_no_fill cfg collision candidate
                multiplicity Hr) as Hn.
  destruct (SelectionV0 cfg collision candidate multiplicity) as [ok qa].
  simpl in Hr, Hn. now subst.
Qed.

(** X7. [selectionPID] rejects a candidate whose TPC n-sigma is NaN, and
    one with TOF whose TOF n-sigma is NaN. *)
Theorem selectionPID_NaN (candidate : Track) :
  tpcNSigmaPi candidate = S754_nan \/
  (hasTOF candidate = true /\ tofNSigmaPi candidate = S754_nan) ->
  selectionPID cfg candidate = false.
Proof.
  unfold selectionPID. intros [H | [Ht H]].
  - rewrite H. change (f32_mul S754_nan S754_nan) with S754_nan.
    rewrite f32_add_nan_r, lt_nan_l.
    change (fabs S754_nan) with S754_nan. rewrite lt_nan_l.
    now rewrite !andb_false_r.
  - rewrite H, Ht. change (f32_mul S754_nan S754_nan) with S754_nan.
    rewrite f32_add_nan_l, lt_nan_l. reflexivity.
Qed.

(** X8. The PID check of [isSelectedV0Daughter] does not reject NaN: a
    track accepted with some n-sigma is accepted with a NaN n-sigma. *)
Theorem isSelectedV0Daughter_NaN_nsigma (track : Track) (charge : float)
        (nsigmaV0Daughter : double) :
  isSelectedV0Daughter cfg track charge nsigmaV0Daughter = true ->
  isSelectedV0Daughter cfg track charge S754_nan = true.
Proof.
  rewrite !isSelectedV0Daughter_cuts. unfold daughterChecksExceptCharge.
  change (fabs S754_nan) with S754_nan. unfold gt at 4.
  rewrite lt_nan_r. rewrite !andb_true_iff. tauto.
Qed.

(** X9. With a TPC threshold that is zero, negative or NaN,
    [selectionPID] rejects every candidate without TOF. *)
Theorem selectionPID_nonpositive_TPC_cut (candidate : Track) :
  notPositive (nsigmaCutTPC cfg) ->
  hasTOF candidate = false ->
  selectionPID cfg candidate = false.
Proof.
  intros Hc Ht. unfold selectionPID. rewrite Ht.
  rewrite (lt_fabs_notPositive _ _ Hc). reflexivity.
Qed.

(** X10. The combined threshold enters [selectionPID] squared: its sign
    has no effect. *)
Theorem selectionPID_combined_cut_sign (candidate : Track) :
  selectionPID
    (reconfigure cfg (QAbefore cfg) (QAafter cfg) (QAv0 cfg)
                 (nsigmaCutTPC cfg) (SFopp (nsigmaCutCombined cfg))
                 (iscustomDCAcut cfg) (ismanualDCAcut cfg))
    candidate =
  selectionPID cfg candidate.
Proof.
  unfold selectionPID. cbn [reconfigure nsigmaCutCombined nsigmaCutTPC].
  now rewrite f32_mul_opp_opp.
Qed.

(** X11. With [iscustomDCAcut] unset, [selectionTrack] accepts every row
    that passed the row filter [DCAcutFilter]. *)
Theorem selectionTrack_filtered (candidate : Track) :
  iscustomDCAcut cfg = false ->
  DCAcutFilter cfg candidate = true ->
  selectionTrack cfg candidate = true.
Proof.
  intros Hc Hf. rewrite selectionTrack_policies, Hc.
  rewrite (DCAcutFilter_policyB cfg candidate Hf).
  now rewrite orb_true_r.
Qed.

(** X12. A composite whose two daughters pass [isSelectedV0Daughter] has
    a positive daughter of sign >= 0 and a negative daughter of
    sign <= 0, both with TPC information and at least 70 crossed rows. *)
Theorem daughtersSelected_signs (v0 : V0) :
  daughtersSelected cfg v0 = true ->
  (0 <= sign (posTrack v0) /\ sign (negTrack v0) <= 0) /\
  (hasTPC (posTrack v0) = true /\ hasTPC (negTrack v0) = true) /\
  (70 <= tpcNClsCrossedRows (posTrack v0) /\
   70 <= tpcNClsCrossedRows (negTrack v0)).
Proof.
  unfold daughtersSelected. rewrite !isSelectedV0Daughter_cuts.
  unfold daughterChecksExceptCharge, chargeMismatch.
  change (lt (float_of_int 1) (float_of_int 0)) with false.
  change (gt (float_of_int 1) (float_of_int 0)) with true.
  change (lt (float_of_int (-1)) (float_of_int 0)) with true.
  change (gt (float_of_int (-1)) (float_of_int 0)) with false.
  cbn [andb orb]. rewrite !andb_true_iff, !negb_true_iff, orb_false_r.
  rewrite !Z.ltb_ge. tauto.
Qed.

(** X13. The row filters let no NaN through in the columns they test. *)
Theorem filters_exclude_NaN :
  (forall c : Collision,
      posZFilter cfg c = true -> posZ c <> S754_nan) /\
  (forall t : Track,
      acceptanceFilter cfg t = true ->
      t_eta t <> S754_nan /\ t_pt t <> S754_nan) /\
  (forall t : Track,
      DCAcutFilter cfg t = true ->
      dcaXY t <> S754_nan /\ dcaZ t <> S754_nan).
Proof.
  unfold posZFilter, acceptanceFilter, DCAcutFilter, gt.
  split; [ | split ].
  - intros c H E. rewrite E in H. discriminate.
  - intros t H. apply andb_true_iff in H. destruct H as [H1 H2].
    split; intros E; rewrite E in *.
    + discriminate.
    + change (fabs S754_nan) with S754_nan in H2.
      rewrite lt_nan_r in H2. discriminate.
  - intros t H. apply andb_true_iff in H. destruct H as [H1 H2].
    split; intros E; rewrite E in *; discriminate.
Qed.

End SelectorEdges.

(** ** Counting fills *)

Lemma countHist_app (h : Hist) (l1 l2 : list FillEvent) :
  countHist h (l1 ++ l2) = (countHist h l1 + countHist h l2)%nat.
Proof. unfold countHist. now rewrite filter_app, length_app. Qed.

Lemma countHist_none (h : Hist) (l : list FillEvent) :
  (forall f, In f l -> fill_hist f <> h) -> countHist h l = 0%nat.
Proof.
  intros H. unfold countHist. rewrite filter_none; [ reflexivity | ].
  intros f Hf. unfold Hist_eqb.
  destruct (Hist_eq_dec (fill_hist f) h) as [E | E]; [ | reflexivity ].
  now apply H in Hf.
Qed.

Lemma countHist_flat_map {A : Type} (h : Hist) (g : A -> list FillEvent)
      (p : A -> bool) (l : list A) :
  (forall a, countHist h (g a) = if p a then 1%nat else 0%nat) ->
  countHist h (flat_map g l) = length (filter p l).
Proof.
  intros H. induction l as [ | a l IH ]; [ reflexivity | ].
  cbn [flat_map filter]. rewrite countHist_app, H, IH.
  destruct (p a); reflexivity.
Qed.


Lemma Permutation_filter_same {A : Type} (p : A -> bool) (l l' : list A) :
  Permutation l l' -> Permutation (filter p l) (filter p l').
Proof.
  induction 1 as [ | a l l' _ IH | a b l | l l' l'' _ IH1 _ IH2 ]; simpl.
  - constructor.
  - destruct (p a); auto.
  - destruct (p a), (p b); auto. apply perm_swap.
  - now transitivity (filter p l').
Qed.

Lemma Permutation_flat_map_pointwise {A B : Type} (g g' : A -> list B)
      (l : list A) :
  (forall a, Permutation (g a) (g' a)) ->
  Permutation (flat_map g l) (flat_map g' l).
Proof.
  intros H. induction l as [ | a l IH ]; simpl; [ constructor | ].
  now apply Permutation_app.
Qed.

(** ** The same-event engine as a whole *)

Section SameEventWhole.

Context {root : Root}.
Variable cfg : Config.

(** The mass fills of [processSE]. *)
Lemma processSE_mass_part (st : TaskState) (collision : Collision)
      (tracks : list Track) (V0s : list V0) :
  filter isMassFill (snd (processSE cfg st collision tracks V0s)) =
  if sel8 collision then massFillsSE cfg collision tracks V0s else [].
Proof.
  rewrite processSE_fills. destruct (sel8 collision); [ | reflexivity ].
  rewrite filter_app.
  rewrite (filter_none isMassFill (selectionFillsSE cfg collision tracks V0s)
             (@selectionFillsSE_no_mass_fill _ cfg collision tracks V0s)).
  simpl. apply filter_all.
  intros g Hg. unfold massFillsSE in Hg. apply in_flat_map in Hg.
  destruct Hg as [t [_ Hg]]. apply in_flat_map in Hg.
  destruct Hg as [v [_ Hg]]. unfold pairFillRows in Hg.
  match type of Hg with
  | In _ (if ?b then _ else _) => destruct b; [ | contradiction ]
  end.
  destruct Hg as [Hg | []]. now subst g.
Qed.


(** The histograms each part of [processSE] fills. *)
Lemma trackFills_hist (track1 : Track) (f : FillEvent) :
  In f (trackFills cfg track1) ->
  In (fill_hist f)
     [hNsigmaPionTPC_before; hNsigmaPionTOF_before; hEta_after; hDcaxy_after;
      hDcaz_after; hNsigmaPionTPC_after; hNsigmaPionTOF_after].
Proof.
  unfold trackFills. rewrite in_app_iff. intros [H | H].
  - destruct (QAbefore cfg); simpl in H; [ | contradiction ].
    destruct H as [H | [H | []]]; subst f; simpl; auto.
  - destruct (acceptPion cfg track1 && QAafter cfg); simpl in H;
      [ | contradiction ].
    destruct H as [H | [H | [H | [H | [H | []]]]]]; subst f; simpl; auto 10.
Qed.

Lemma massFillsSE_hist (collision : Collision) (tracks : list Track)
      (V0s : list V0) (f : FillEvent) :
  In f (massFillsSE cfg collision tracks V0s) ->
  fill_hist f = h3CKSInvMassUnlikeSign.
Proof.
  unfold massFillsSE. intros H. apply in_flat_map in H.
  destruct H as [t [_ H]]. apply in_flat_map in H.
  destruct H as [v [_ H]]. unfold pairFillRows in H.
  match type of H with
  | In _ (if ?b then _ else _) => destruct b; [ | contradiction ]
  end.
  destruct H as [H | []]. now subst f.
Qed.

(** What [SelectionV0] fills. *)
Lemma SelectionV0_fills (collision : Collision) (candidate : V0)
      (multiplicity : float) :
  snd (SelectionV0 cfg collision candidate multiplicity) =
  if fst (SelectionV0 cfg collision candidate multiplicity) && QAv0 cfg
  then [ Fill hLT [CtauK0s collision candidate];
         Fill hMassvsptvsmult
              [mK0Short candidate; v_pt candidate; multiplicity];
         Fill hDCAV0Daughters [dcaV0daughters candidate];
         Fill hV0CosPA [v0cosPA candidate] ]
  else [].
Proof.
  unfold SelectionV0.
  repeat match goal with
         | |- context [if ?b then (false, _) else _] =>
             destruct b; simpl; [ reflexivity | ]
         end.
  destruct (QAv0 cfg); reflexivity.
Qed.

Lemma SelectionV0_countHist (collision : Collision) (candidate : V0)
      (multiplicity : float) (h : Hist) :
  isV0QAHist h = true ->
  countHist h (snd (SelectionV0 cfg collision candidate multiplicity)) =
  if fst (SelectionV0 cfg collision candidate multiplicity) && QAv0 cfg
  then 1%nat else 0%nat.
Proof.
  intros Hh. rewrite SelectionV0_fills.
  destruct (fst (SelectionV0 cfg collision candidate multiplicity) && QAv0 cfg);
    [ | reflexivity ].
  destruct h; try discriminate; reflexivity.
Qed.


(** X15. Every mass fill of [processSE] pairs a pion row and a composite
    row that carry the same collision index. *)
Theorem processSE_same_collision (st : TaskState) (collision : Collision)
        (tracks : list Track) (V0s : list V0) (f : FillEvent) :
  In f (snd (processSE cfg st collision tracks V0s)) ->
  isMassFill f = true ->
  exists t v,
    In t tracks /\ In v V0s /\
    f = Fill h3CKSInvMassUnlikeSign
             [eventMultiplicity cfg collision;
              lv_Pt (pairVector t v); lv_M (pairVector t v)] /\
    t_collisionId t = v_collisionId v.
Proof.
  intros Hin Hm.
  destruct (processSE_mass_fill_in cfg st collision tracks V0s f Hin Hm)
    as [t [v [Ht [Hv Hf]]]].
  apply filter_In in Ht, Hv. apply pairFillRows_in in Hf.
  exists t, v. tauto.
Qed.

(** X16. The mass fills of [processSE] on a track table that is the
    concatenation of two are those of the first part followed by those of
    the second. *)
Theorem processSE_tracks_app (st : TaskState) (collision : Collision)
        (tracks1 tracks2 : list Track) (V0s : list V0) :
  filter isMassFill
         (snd (processSE cfg st collision (tracks1 ++ tracks2) V0s)) =
  filter isMassFill (snd (processSE cfg st collision tracks1 V0s)) ++
  filter isMassFill (snd (processSE cfg st collision tracks2 V0s)).
Proof.
  rewrite !processSE_mass_part. destruct (sel8 collision); [ | reflexivity ].
  unfold massFillsSE. now rewrite filter_app, flat_map_app.
Qed.

(** X17. The fills of [processSE] do not depend on the order of the rows:
    permuting the tracks and the V0s permutes the fills. *)
Theorem processSE_permutation (st st' : TaskState) (collision : Collision)
        (tracks tracks' : list Track) (V0s V0s' : list V0) :
  Permutation tracks tracks' ->
  Permutation V0s V0s' ->
  Permutation (snd (processSE cfg st collision tracks V0s))
              (snd (processSE cfg st' collision tracks' V0s')).
Proof.
  intros Ht Hv. rewrite !processSE_fills.
  destruct (sel8 collision); [ | constructor ].
  unfold selectionFillsSE, massFillsSE.
  repeat apply Permutation_app.
  - reflexivity.
  - now apply Permutation_flat_map.
  - now apply Permutation_flat_map.
  - transitivity
      (flat_map
         (fun t =>
            flat_map (pairFillRows (eventMultiplicity cfg collision) t)
                     (filter (acceptV0 cfg collision
                                       (eventMultiplicity cfg collision))
                             V0s'))
         (filter (acceptPion cfg) tracks)).
    + apply Permutation_flat_map_pointwise. intros t.
      apply Permutation_flat_map. now apply Permutation_filter_same.
    + apply Permutation_flat_map. now apply Permutation_filter_same.
Qed.

(** X18. A selected collision adds exactly one entry to each event
    counter, [hVertexZRec] and [hmult]; a collision that fails [sel8]
    adds none. *)
Theorem processSE_event_counter (st : TaskState) (collision : Collision)
        (tracks : list Track) (V0s : list V0) (h : Hist) :
  h = hVertexZRec \/ h = hmult ->
  countHist h (snd (processSE cfg st collision tracks V0s)) =
  if sel8 collision then 1%nat else 0%nat.
Proof.
  intros Hh. rewrite processSE_fills.
  destruct (sel8 collision); [ | reflexivity ].
  unfold selectionFillsSE. rewrite !countHist_app.
  rewrite (@countHist_none h (flat_map (trackFills cfg) tracks)).
  2:{ intros f Hf. apply in_flat_map in Hf. destruct Hf as [t [_ Hf]].
      apply trackFills_hist in Hf. simpl in Hf.
      destruct Hh; subst h; intuition congruence. }
  rewrite (@countHist_none h (flat_map (v0Fills cfg collision _) V0s)).
  2:{ intros f Hf. apply in_flat_map in Hf. destruct Hf as [v [_ Hf]].
      unfold v0Fills in Hf.
      destruct (daughtersSelected cfg v); [ | contradiction ].
      apply SelectionV0_fill_in in Hf. destruct Hf as [_ [_ Hf]].
      destruct Hh; subst h;
        destruct Hf as [Hf | [Hf | [Hf | Hf]]]; subst f; discriminate. }
  rewrite (@countHist_none h (massFillsSE cfg collision tracks V0s)).
  2:{ intros f Hf. apply massFillsSE_hist in Hf.
      destruct Hh; subst h; congruence. }
  destruct Hh; subst h; reflexivity.
Qed.

(** X19. With [QAv0] set, [processSE] adds to each of the four V0 QA
    histograms one entry per accepted composite (daughter checks and
    [SelectionV0] passed); with [QAv0] unset it adds none. *)
Theorem processSE_V0QA_count (st : TaskState) (collision : Collision)
        (tracks : list Track) (V0s : list V0) (h : Hist) :
  sel8 collision = true ->
  isV0QAHist h = true ->
  countHist h (snd (processSE cfg st collision tracks V0s)) =
  if QAv0 cfg
  then length (filter (acceptV0 cfg collision
                                (eventMultiplicity cfg collision)) V0s)
  else 0%nat.
Proof.
  intros Hs Hh. rewrite processSE_fills, Hs.
  unfold selectionFillsSE. rewrite !countHist_app.
  rewrite (@countHist_none h (eventFills cfg collision)).
  2:{ intros f [Hf | [Hf | []]]; subst f; intros E; subst h; discriminate. }
  rewrite (@countHist_none h (flat_map (trackFills cfg) tracks)).
  2:{ intros f Hf. apply in_flat_map in Hf. destruct Hf as [t [_ Hf]].
      apply trackFills_hist in Hf. simpl in Hf. intros E. subst h.
      repeat (destruct Hf as [Hf | Hf]; [ rewrite <- Hf in Hh; discriminate | ]).
      contradiction. }
  rewrite (@countHist_none h (massFillsSE cfg collision tracks V0s)).
  2:{ intros f Hf. apply massFillsSE_hist in Hf. intros E. subst h.
      rewrite Hf in Hh. discriminate. }
  simpl. rewrite Nat.add_0_r.
  destruct (QAv0 cfg) eqn:HQ.
  - apply countHist_flat_map. intros v. unfold v0Fills, acceptV0.
    destruct (daughtersSelected cfg v); [ | reflexivity ].
    rewrite SelectionV0_countHist by exact Hh. rewrite HQ, andb_true_r.
    reflexivity.
  - apply countHist_none. intros f Hf. apply in_flat_map in Hf.
    destruct Hf as [v [_ Hf]]. unfold v0Fills in Hf.
    destruct (daughtersSelected cfg v); [ | contradiction ].
    apply SelectionV0_fill_in in Hf. destruct Hf as [Hf _]. congruence.
Qed.

End SameEventWhole.

(** ** The mixed-event engine as a whole *)

Lemma flat_map_combinationsFull {A B C : Type} (g : A -> B -> list C)
      (l1 : list A) (l2 : list B) :
  flat_map (fun '(a, b) => g a b) (combinationsFull l1 l2) =
  flat_map (fun a => flat_map (g a) l2) l1.
Proof.
  unfold combinationsFull. induction l1 as [ | a l1 IH ]; simpl;
    [ reflexivity | ].
  rewrite flat_map_app, IH. f_equal. clear IH.
  induction l2 as [ | b l2 IH2 ]; simpl; [ reflexivity | ]. now f_equal.
Qed.

Lemma filter_flat_map {A B : Type} (p : B -> bool) (g : A -> list B)
      (l : list A) :
  filter p (flat_map g l) = flat_map (fun a => filter p (g a)) l.
Proof.
  induction l as [ | a l IH ]; simpl; [ reflexivity | ].
  now rewrite filter_app, IH.
Qed.

Lemma flat_map_filter {A B : Type} (q : A -> bool) (g : A -> list B)
      (l : list A) :
  flat_map g (filter q l) = flat_map (fun a => if q a then g a else []) l.
Proof.
  induction l as [ | a l IH ]; simpl; [ reflexivity | ].
  destruct (q a); simpl; now rewrite IH.
Qed.

Lemma flat_map_nil {A B : Type} (g : A -> list B) (l : list A) :
  (forall a, g a = []) -> flat_map g l = [].
Proof.
  intros H. induction l as [ | a l IH ]; simpl; [ reflexivity | ].
  now rewrite H, IH.
Qed.

Section MixedEventWhole.

Context {root : Root}.
Variable cfg : Config.

(** The body of a selected pair of collisions, track by track. *)
Lemma mixedPairBody_nested (c1 c2 : Collision) (tracks1 : list Track)
      (tracks2 : list V0) :
  sel8 c1 = true -> sel8 c2 = true ->
  mixedPairBody cfg (c1, tracks1, c2, tracks2) =
  flat_map
    (fun t1 =>
       flat_map (pairBodyME cfg c2 (eventMultiplicity cfg c1) t1) tracks2)
    tracks1.
Proof.
  intros H1 H2. unfold mixedPairBody. rewrite H1, H2. simpl.
  apply (flat_map_combinationsFull
           (pairBodyME cfg c2 (eventMultiplicity cfg c1))).
Qed.

(** What one combination fills: the QA fills of [SelectionV0] for an
    accepted track, then the mass fill. *)
Lemma pairBodyME_spec (c2 : Collision) (multiplicity : float)
      (t1 : Track) (t2 : V0) :
  pairBodyME cfg c2 multiplicity t1 t2 =
  if acceptTrackME cfg t1
  then snd (SelectionV0 cfg c2 t2 multiplicity) ++
       (if acceptV0 cfg c2 multiplicity t2 &&
           lt (fabs (tlv_Rapidity (mixVector t1 t2))) d_0_5
        then [Fill h3CKSInvMassMixed
                   [multiplicity; tlv_Pt (mixVector t1 t2);
                    tlv_M (mixVector t1 t2)]]
        else [])
  else [].
Proof.
  unfold pairBodyME, acceptTrackME, acceptV0, daughtersSelected.
  destruct (selectionTrack cfg t1); simpl; [ | reflexivity ].
  destruct (selectionPID cfg t1); simpl; [ | reflexivity ].
  destruct (SelectionV0 cfg c2 t2 multiplicity) as [ok qa]. simpl.
  destruct ok; simpl; [ | now rewrite andb_false_r, app_nil_r ].
  rewrite andb_true_r.
  destruct (isSelectedV0Daughter cfg (posTrack t2) _ _); simpl;
    [ | now rewrite app_nil_r ].
  destruct (isSelectedV0Daughter cfg (negTrack t2) _ _); simpl;
    [ | now rewrite app_nil_r ].
  fold (mixVector t1 t2).
  destruct (lt (fabs (tlv_Rapidity (mixVector t1 t2))) d_0_5);
    [ reflexivity | now rewrite app_nil_r ].
Qed.

Lemma SelectionV0_no_mass_part (collision : Collision) (candidate : V0)
      (multiplicity : float) :
  filter isMassFill (snd (SelectionV0 cfg collision candidate multiplicity)) =
  [].
Proof.
  apply filter_none. intros f Hf.
  eapply SelectionV0_no_mass_fill; eauto.
Qed.

(** The mass fill of one combination. *)
Lemma pairBodyME_mass_part (c2 : Collision) (multiplicity : float)
      (t1 : Track) (t2 : V0) :
  filter isMassFill (pairBodyME cfg c2 multiplicity t1 t2) =
  if acceptPion cfg t1 && acceptV0 cfg c2 multiplicity t2
  then mixFillRows multiplicity t1 t2
  else [].
Proof.
  rewrite pairBodyME_spec. unfold acceptTrackME, acceptPion, mixFillRows.
  rewrite (andb_comm (selectionPID cfg t1)).
  destruct (selectionTrack cfg t1 && selectionPID cfg t1); simpl;
    [ | reflexivity ].
  rewrite filter_app, SelectionV0_no_mass_part. simpl.
  destruct (acceptV0 cfg c2 multiplicity t2); simpl; [ | reflexivity ].
  destruct (lt _ d_0_5); reflexivity.
Qed.

(** X20. [processME] applies the selections of [processSE] in another
    order but to the same effect: the mass fills of a pair of selected
    collisions are those of the accepted pions of the first with the
    accepted composites (daughter checks and [SelectionV0]) of the second
    that pass the rapidity gate, in loop order. *)
Theorem mixedPairBody_mass_fills (c1 c2 : Collision) (tracks1 : list Track)
        (tracks2 : list V0) :
  filter isMassFill (mixedPairBody cfg (c1, tracks1, c2, tracks2)) =
  if sel8 c1 && sel8 c2
  then
    flat_map
      (fun t1 =>
         flat_map (mixFillRows (eventMultiplicity cfg c1) t1)
                  (filter (acceptV0 cfg c2 (eventMultiplicity cfg c1))
                          tracks2))
      (filter (acceptPion cfg) tracks1)
  else [].
Proof.
  destruct (sel8 c1) eqn:H1;
    [ | unfold mixedPairBody; rewrite H1; reflexivity ].
  destruct (sel8 c2) eqn:H2;
    [ | unfold mixedPairBody; rewrite H1, H2; reflexivity ].
  rewrite (@mixedPairBody_nested c1 c2 tracks1 tracks2 H1 H2).
  set (m := eventMultiplicity cfg c1). simpl andb. cbv iota.
  rewrite filter_flat_map, flat_map_filter. apply flat_map_ext. intros t1.
  rewrite filter_flat_map.
  destruct (acceptPion cfg t1) eqn:Hp.
  - rewrite flat_map_filter. apply flat_map_ext. intros t2.
    now rewrite pairBodyME_mass_part, Hp.
  - apply flat_map_nil. intros t2. now rewrite pairBodyME_mass_part, Hp.
Qed.

(** X21. [processME] skips every pair one of whose collisions fails
    [sel8]: its fills are those of the pairs with both collisions
    selected. *)
Theorem processME_skips_unselected (pairs : list MixedPair) :
  processME cfg pairs = processME cfg (filter bothSel8 pairs).
Proof.
  unfold processME.
  induction pairs as [ | [[[c1 tracks1] c2] tracks2] pairs IH ];
    [ reflexivity | ].
  cbn [flat_map filter bothSel8].
  destruct (sel8 c1) eqn:H1, (sel8 c2) eqn:H2; simpl andb; cbv iota;
    cbn [flat_map]; rewrite <- IH;
    try reflexivity;
    unfold mixedPairBody; rewrite H1, ?H2; reflexivity.
Qed.

(** X22. [processME] never looks at the identity of a track: giving the
    tracks of the first collision other [globalIndex] and [collisionId]
    values leaves the fills of the pair unchanged, so that a track is
    paired even with a composite it is a daughter of. *)
Theorem mixedPairBody_ignores_identity (c1 c2 : Collision)
        (tracks1 : list Track) (tracks2 : list V0) (gid cid : Track -> Z) :
  mixedPairBody cfg
    (c1, map (fun t => withIdentity t (gid t) (cid t)) tracks1, c2, tracks2) =
  mixedPairBody cfg (c1, tracks1, c2, tracks2).
Proof.
  unfold mixedPairBody.
  destruct (sel8 c1); simpl; [ | reflexivity ].
  destruct (sel8 c2); simpl; [ | reflexivity ].
  rewrite !(flat_map_combinationsFull
              (pairBodyME cfg c2 (eventMultiplicity cfg c1))).
  induction tracks1 as [ | t tracks1 IH ]; simpl; [ reflexivity | ].
  rewrite IH. f_equal.
Qed.

(** X23. With [QAv0] set, [processME] adds to each V0 QA histogram one
    entry per combination of an accepted track with a composite that
    passes [SelectionV0], whether or not the daughters pass: the same
    composite is counted once for every accepted track. *)
Theorem mixedPairBody_V0QA_count (c1 c2 : Collision) (tracks1 : list Track)
        (tracks2 : list V0) (h : Hist) :
  sel8 c1 = true -> sel8 c2 = true ->
  isV0QAHist h = true ->
  countHist h (mixedPairBody cfg (c1, tracks1, c2, tracks2)) =
  if QAv0 cfg
  then (length (filter (acceptTrackME cfg) tracks1) *
        length (filter
                  (fun t2 =>
                     fst (SelectionV0 cfg c2 t2 (eventMultiplicity cfg c1)))
                  tracks2))%nat
  else 0%nat.
Proof.
  intros H1 H2 Hh. rewrite (@mixedPairBody_nested c1 c2 tracks1 tracks2 H1 H2).
  set (m := eventMultiplicity cfg c1).
  assert (Hone : forall t1 t2,
             countHist h (pairBodyME cfg c2 m t1 t2) =
             if acceptTrackME cfg t1 && (fst (SelectionV0 cfg c2 t2 m) &&
                                         QAv0 cfg)
             then 1%nat else 0%nat).
  { intros t1 t2. rewrite pairBodyME_spec.
    destruct (acceptTrackME cfg t1); simpl; [ | reflexivity ].
    rewrite countHist_app, (SelectionV0_countHist cfg) by exact Hh.
    rewrite (@countHist_none h (if _ && _ then _ else _)); [ lia | ].
    intros f Hf.
    destruct (acceptV0 cfg c2 m t2 && _); [ | contradiction ].
    destruct Hf as [Hf | []]. subst f. simpl. intros E. subst h.
    discriminate. }
  induction tracks1 as [ | t1 tracks1 IH ].
  - simpl. destruct (QAv0 cfg); reflexivity.
  - cbn [flat_map filter]. rewrite countHist_app, IH.
    destruct (acceptTrackME cfg t1) eqn:Ht.
    + destruct (QAv0 cfg) eqn:HQ.
      * rewrite (countHist_flat_map h
                   (pairBodyME cfg c2 m t1)
                   (fun t2 => fst (SelectionV0 cfg c2 t2 m))).
        { simpl length. lia. }
        intros t2. rewrite Hone, Ht, ?HQ, andb_true_r. reflexivity.
      * rewrite (@countHist_none h (flat_map _ tracks2)); [ reflexivity | ].
        intros f Hf. apply in_flat_map in Hf. destruct Hf as [t2 [_ Hf]].
        intros E.
        assert (Hc : countHist h (pairBodyME cfg c2 m t1 t2) = 0%nat)
          by (rewrite Hone, ?HQ, andb_false_r, andb_false_r; reflexivity).
        unfold countHist in Hc.
        assert (Hin : In f (filter (fun f => Hist_eqb (fill_hist f) h)
                                   (pairBodyME cfg c2 m t1 t2))).
        { apply filter_In. split; [ assumption | ].
          unfold Hist_eqb. destruct (Hist_eq_dec (fill_hist f) h); congruence. }
        destruct (filter _ (pairBodyME cfg c2 m t1 t2)); [ contradiction | ].
        discriminate.
    + rewrite (@countHist_none h (flat_map _ tracks2)); [ reflexivity | ].
      intros f Hf. apply in_flat_map in Hf. destruct Hf as [t2 [_ Hf]].
      rewrite pairBodyME_spec, Ht in Hf. contradiction.
Qed.



End MixedEventWhole.


(** ** Track QA, the columns read by the mixed-event engine, the axes *)

Lemma filter_const {A : Type} (b : bool) (l : list A) :
  length (filter (fun _ => b) l) = if b then length l else 0%nat.
Proof.
  destruct b; [ now rewrite filter_all | now rewrite filter_none ].
Qed.

Section CountsAndColumns.

Context {root : Root}.
Variable cfg : Config.

Lemma trackFills_count_before (h : Hist) (track1 : Track) :
  isBeforeHist h = true ->
  countHist h (trackFills cfg track1) = if QAbefore cfg then 1%nat else 0%nat.
Proof.
  intros Hh. unfold trackFills. rewrite countHist_app.
  destruct h; try discriminate;
    destruct (QAbefore cfg), (acceptPion cfg track1 && QAafter cfg);
    reflexivity.
Qed.

Lemma trackFills_count_after (h : Hist) (track1 : Track) :
  isAfterHist h = true ->
  countHist h (trackFills cfg track1) =
  if acceptPion cfg track1 && QAafter cfg then 1%nat else 0%nat.
Proof.
  intros Hh. unfold trackFills. rewrite countHist_app.
  destruct h; try discriminate;
    destruct (QAbefore cfg), (acceptPion cfg track1 && QAafter cfg);
    reflexivity.
Qed.

(** The fills of [processSE] outside the track loop touch no track QA
    histogram. *)
Lemma processSE_count_track_hist (st : TaskState) (collision : Collision)
      (tracks : list Track) (V0s : list V0) (h : Hist) :
  sel8 collision = true ->
  isBeforeHist h || isAfterHist h = true ->
  countHist h (snd (processSE cfg st collision tracks V0s)) =
  countHist h (flat_map (trackFills cfg) tracks).
Proof.
  intros Hs Hh. rewrite processSE_fills, Hs.
  unfold selectionFillsSE. rewrite !countHist_app.
  rewrite (@countHist_none h (eventFills cfg collision)).
  2:{ intros f [Hf | [Hf | []]]; subst f; intros E; subst h; discriminate. }
  rewrite (@countHist_none h (flat_map (v0Fills cfg collision _) V0s)).
  2:{ intros f Hf. apply in_flat_map in Hf. destruct Hf as [v [_ Hf]].
      unfold v0Fills in Hf.
      destruct (daughtersSelected cfg v); [ | contradiction ].
      apply SelectionV0_fill_in in Hf. destruct Hf as [_ [_ Hf]].
      intros E. subst h.
      destruct Hf as [Hf | [Hf | [Hf | Hf]]]; subst f; discriminate. }
  rewrite (@countHist_none h (massFillsSE cfg collision tracks V0s)).
  2:{ intros f Hf. apply massFillsSE_hist in Hf. intros E. subst h.
      rewrite Hf in Hh. discriminate. }
  simpl. lia.
Qed.

(** X25. On a selected collision, with [QAbefore] set [processSE] adds to
    each of the two "before" histograms one entry per track row, and with
    [QAafter] set to each of the five "after" histograms one entry per
    accepted pion; a switch that is unset adds none. *)
Theorem processSE_trackQA_count (st : TaskState) (collision : Collision)
        (tracks : list Track) (V0s : list V0) (h : Hist) :
  sel8 collision = true ->
  (isBeforeHist h = true ->
   countHist h (snd (processSE cfg st collision tracks V0s)) =
   if QAbefore cfg then length tracks else 0%nat) /\
  (isAfterHist h = true ->
   countHist h (snd (processSE cfg st collision tracks V0s)) =
   if QAafter cfg then length (filter (acceptPion cfg) tracks) else 0%nat).
Proof.
  intros Hs. split; intros Hh.
  - rewrite processSE_count_track_hist by (rewrite ?Hh; auto).
    rewrite (countHist_flat_map h (trackFills cfg)
               (fun _ => QAbefore cfg)).
    + apply filter_const.
    + intros t. now apply trackFills_count_before.
  - rewrite processSE_count_track_hist
      by (rewrite ?Hh, ?orb_true_r; auto).
    rewrite (countHist_flat_map h (trackFills cfg)
               (fun t => acceptPion cfg t && QAafter cfg)).
    + destruct (QAafter cfg).
      * f_equal. apply filter_ext. intros t. apply andb_true_r.
      * rewrite filter_none; [ reflexivity | ].
        intros t _. apply andb_false_r.
    + intros t. now apply trackFills_count_after.
Qed.

(** The composite selection reads the collision's position only. *)
Lemma SelectionV0_position (c c' : Collision) (candidate : V0)
      (multiplicity : float) :
  posX c = posX c' -> posY c = posY c' -> posZ c = posZ c' ->
  SelectionV0 cfg c candidate multiplicity =
  SelectionV0 cfg c' candidate multiplicity.
Proof.
  intros Hx Hy Hz. unfold SelectionV0, CtauK0s.
  now rewrite Hx, Hy, Hz.
Qed.

(** X26. Of the first collision of a pair [processME] reads the [sel8]
    flag and the multiplicity estimate, of the second the [sel8] flag and
    the vertex position: two pairs that agree on these make the same
    fills. *)
Theorem mixedPairBody_columns_read (c1 c1' c2 c2' : Collision)
        (tracks1 : list Track) (tracks2 : list V0) :
  sel8 c1 = sel8 c1' ->
  eventMultiplicity cfg c1 = eventMultiplicity cfg c1' ->
  sel8 c2 = sel8 c2' ->
  posX c2 = posX c2' -> posY c2 = posY c2' -> posZ c2 = posZ c2' ->
  mixedPairBody cfg (c1, tracks1, c2, tracks2) =
  mixedPairBody cfg (c1', tracks1, c2', tracks2).
Proof.
  intros Hs1 Hm Hs2 Hx Hy Hz. unfold mixedPairBody.
  rewrite <- Hs1, <- Hs2, <- Hm.
  destruct (sel8 c1); simpl; [ | reflexivity ].
  destruct (sel8 c2); simpl; [ | reflexivity ].
  apply flat_map_ext. intros [t1 t2]. unfold pairBodyME.
  now rewrite (SelectionV0_position c2 c2' t2 _ Hx Hy Hz).
Qed.

End CountsAndColumns.

(** X27. With a positive [nBins], every axis [init] declares has at least
    one bin and a lower bound below its upper bound. *)
Theorem init_axes_well_formed (cfg : Config) (hcfg : HistConfig)
        (s : HistSpec) (a : AxisSpec) :
  0 < nBins hcfg ->
  In s (init cfg hcfg) -> In a (h_axes s) -> axisWellFormed a = true.
Proof.
  intros Hn Hs Ha. apply Z.ltb_lt in Hn.
  unfold init in Hs.
  destruct (QAbefore cfg && QAafter cfg), (QAv0 cfg); simpl in Hs;
    repeat (destruct Hs as [Hs | Hs];
            [ subst s; simpl in Ha;
              repeat (destruct Ha as [Ha | Ha];
                      [ subst a; unfold axisWellFormed; simpl a_nBins;
                        rewrite ?Hn; reflexivity | ]);
              contradiction | ]);
    contradiction.
Qed.

(** ** The state the same-event engine leaves *)

Lemma last_cons_default {A : Type} (a : A) (l : list A) (d d' : A) :
  last (a :: l) d = last (a :: l) d'.
Proof.
  revert a. induction l as [ | b l IH ]; intros a; [ reflexivity | ].
  change (last (a :: b :: l) d) with (last (b :: l) d).
  change (last (a :: b :: l) d') with (last (b :: l) d').
  apply IH.
Qed.

Lemma last_app_default {A : Type} (l1 l2 : list A) (d : A) :
  last (l1 ++ l2) d = last l2 (last l1 d).
Proof.
  revert d. induction l1 as [ | a l1 IH ]; intros d; [ reflexivity | ].
  destruct l1 as [ | b l1 ].
  - destruct l2 as [ | c l2 ]; [ reflexivity | ].
    change (last ([a] ++ c :: l2) d) with (last (c :: l2) d).
    apply last_cons_default.
  - change (last ((a :: b :: l1) ++ l2) d) with (last ((b :: l1) ++ l2) d).
    rewrite IH. reflexivity.
Qed.

Section SameEventStateFacts.

Context {root : Root}.
Variable cfg : Config.

Lemma pairBodySE_state (multiplicity : float) (pl : PionLists)
      (kl : KshortLists) (st : TaskState) (i1 i3 : nat) :
  CKSVector (fst (pairBodySE multiplicity pl kl st i1 i3)) =
  last (pairWritesSE pl kl i1 i3) (CKSVector st).
Proof.
  unfold pairBodySE, pairWritesSE, pairVectorSE.
  destruct (at_ 0 (PionIndex pl) i1 =? at_ 0 (KshortPosDaughIndex kl) i3);
    simpl; [ reflexivity | ].
  destruct (at_ 0 (PionIndex pl) i1 =? at_ 0 (KshortNegDaughIndex kl) i3);
    simpl; [ reflexivity | ].
  destruct (at_ 0 (PioncollIndex pl) i1 =? at_ 0 (V0collIndex kl) i3);
    simpl; [ | reflexivity ].
  destruct (lt _ d_0_5); reflexivity.
Qed.

Lemma innerLoopSE_state (multiplicity : float) (pl : PionLists)
      (kl : KshortLists) (i1 : nat) (l : list nat)
      (acc : TaskState * list FillEvent) :
  CKSVector
    (fst (fold_left
            (fun acc i3 =>
               let '(st', out) :=
                 pairBodySE multiplicity pl kl (fst acc) i1 i3 in
               (st', snd acc ++ out)) l acc)) =
  last (flat_map (pairWritesSE pl kl i1) l) (CKSVector (fst acc)).
Proof.
  revert acc. induction l as [ | i3 l IH ]; intros acc; [ reflexivity | ].
  cbn [fold_left flat_map]. rewrite IH, last_app_default.
  pose proof (pairBodySE_state multiplicity pl kl (fst acc) i1 i3) as H.
  destruct (pairBodySE multiplicity pl kl (fst acc) i1 i3) as [st' out].
  simpl in *. now rewrite H.
Qed.

Lemma outerLoopSE_state (multiplicity : float) (pl : PionLists)
      (kl : KshortLists) (l : list nat) (acc : TaskState * list FillEvent) :
  CKSVector (fst (fold_left (innerLoopSE multiplicity pl kl) l acc)) =
  last (flat_map
          (fun i1 =>
             flat_map (pairWritesSE pl kl i1) (seq 0 (length (kshorts kl))))
          l)
       (CKSVector (fst acc)).
Proof.
  revert acc. induction l as [ | i1 l IH ]; intros acc; [ reflexivity | ].
  cbn [fold_left flat_map]. rewrite IH, last_app_default.
  unfold innerLoopSE. now rewrite innerLoopSE_state.
Qed.

Lemma pairLoopSE_state (multiplicity : float) (pl : PionLists)
      (kl : KshortLists) (st : TaskState) :
  CKSVector (fst (pairLoopSE multiplicity pl kl st)) =
  last (flat_map
          (fun i1 =>
             flat_map (pairWritesSE pl kl i1) (seq 0 (length (kshorts kl))))
          (seq 0 (length (pions pl))))
       (CKSVector st).
Proof.
  unfold pairLoopSE.
  destruct (length (kshorts kl)) as [ | nk ] eqn:Ek.
  - rewrite andb_false_r. simpl.
    rewrite flat_map_nil; [ reflexivity | reflexivity ].
  - destruct (length (pions pl)) as [ | np ] eqn:Ep; [ reflexivity | ].
    change (negb (S np =? 0)%nat && negb (S nk =? 0)%nat) with true.
    cbv iota. rewrite outerLoopSE_state, Ek. reflexivity.
Qed.

Lemma pairWritesSE_rows (P : list Track) (K : list V0) :
  flat_map
    (fun i1 =>
       flat_map (pairWritesSE (pionListsOf P) (kshortListsOf K) i1)
                (seq 0 (length (kshorts (kshortListsOf K)))))
    (seq 0 (length (pions (pionListsOf P)))) =
  flat_map (fun t => flat_map (pairWrites t) K) P.
Proof.
  simpl. rewrite !length_map.
  apply flat_map_seq_nth. intros i1 t Ht.
  apply flat_map_seq_nth. intros i3 v Hv. simpl.
  unfold pairWritesSE, pairVectorSE, pairWrites, pairVector. simpl.
  rewrite (at_map t_globalIndex 0 P i1 Ht),
    (at_map t_collisionId 0 P i1 Ht),
    (at_map pionVector nullVector P i1 Ht),
    (at_map (fun v => t_globalIndex (posTrack v)) 0 K i3 Hv),
    (at_map (fun v => t_globalIndex (negTrack v)) 0 K i3 Hv),
    (at_map v_collisionId 0 K i3 Hv),
    (at_map kshortVector nullVector K i3 Hv).
  reflexivity.
Qed.

(** X28. After [processSE], [CKSVector] holds the sum formed for the last
    pair, in loop order, of an accepted pion and an accepted composite
    that passed the daughter-identity and collision-index checks, whether
    or not that pair passed the rapidity gate; with no such pair, or on a
    collision that fails [sel8], it is left as it was. *)
Theorem processSE_state (st : TaskState) (collision : Collision)
        (tracks : list Track) (V0s : list V0) :
  CKSVector (fst (processSE cfg st collision tracks V0s)) =
  if sel8 collision
  then last (writesSE cfg collision tracks V0s) (CKSVector st)
  else CKSVector st.
Proof.
  unfold processSE. destruct (sel8 collision); simpl; [ | reflexivity ].
  rewrite trackLoop_spec, v0Loop_spec. cbv zeta.
  match goal with
  | |- context [pairLoopSE ?m ?pl ?kl ?s] =>
      pose proof (pairLoopSE_state m pl kl s) as Hp;
      destruct (pairLoopSE m pl kl s) as [st' out]
  end.
  cbn [fst] in Hp |- *. rewrite Hp. unfold writesSE.
  rewrite <- (pairWritesSE_rows
                (filter (acceptPion cfg) tracks)
                (filter (acceptV0 cfg collision
                                  (eventMultiplicity cfg collision)) V0s)).
  reflexivity.
Qed.

End SameEventStateFacts.

(** ** The further properties on the sample rows *)

Section EdgeRuns.

#[local] Existing Instance Sample.sampleRoot.

(** The mass fill [processME] makes for pion 1 and the composite with
    daughters 3, 4. *)
Definition sampleMixedFill : FillEvent :=
  Fill h3CKSInvMassMixed
       [Sample.f_5;
        tlv_Pt (mixVector (Sample.track 1 1) (Sample.goodV0 3 4));
        tlv_M (mixVector (Sample.track 1 1) (Sample.goodV0 3 4))].

Lemma processSE_fills_registered_witness :
  QAbefore defaultConfig = QAafter defaultConfig /\
  In sampleMassFill
     (snd (processSE defaultConfig Sample.state0 Sample.collision0
                     [Sample.track 1 1; Sample.track 5 1]
                     [Sample.goodV0 1 2; Sample.goodV0 3 4])) /\
  registered (init defaultConfig defaultHistConfig) sampleMassFill = true.
Proof.
  assert (Hin : In sampleMassFill
                   (snd (processSE defaultConfig Sample.state0
                                   Sample.collision0
                                   [Sample.track 1 1; Sample.track 5 1]
                                   [Sample.goodV0 1 2; Sample.goodV0 3 4])))
    by (vm_compute; auto).
  split; [ reflexivity | ]. split; [ exact Hin | ].
  apply (@processSE_fills_registered _ defaultConfig defaultHistConfig
           Sample.state0 Sample.collision0
           [Sample.track 1 1; Sample.track 5 1]
           [Sample.goodV0 1 2; Sample.goodV0 3 4] sampleMassFill eq_refl Hin).
Defined.

Lemma processME_fills_registered_witness :
  In sampleMixedFill
     (processME defaultConfig
                [(Sample.collision0, [Sample.track 1 1],
                  Sample.collision0, [Sample.goodV0 3 4])]) /\
  registered (init defaultConfig defaultHistConfig) sampleMixedFill = true.
Proof.
  assert (Hin : In sampleMixedFill
                   (processME defaultConfig
                              [(Sample.collision0, [Sample.track 1 1],
                                Sample.collision0, [Sample.goodV0 3 4])]))
    by (vm_compute; auto).
  split; [ exact Hin | ].
  apply (@processME_fills_registered _ defaultConfig defaultHistConfig
           [(Sample.collision0, [Sample.track 1 1],
             Sample.collision0, [Sample.goodV0 3 4])] sampleMixedFill Hin).
Defined.

Lemma processSE_fill_undeclared_witness :
  QAbefore (cfgQA true false false) <> QAafter (cfgQA true false false) /\
  sel8 Sample.collision0 = true /\
  In (Sample.track 1 1) [Sample.track 1 1] /\
  acceptPion (cfgQA true false false) (Sample.track 1 1) = true /\
  exists f,
    In f (snd (processSE (cfgQA true false false) Sample.state0
                         Sample.collision0 [Sample.track 1 1] [])) /\
    registered (init (cfgQA true false false) defaultHistConfig) f = false.
Proof.
  split; [ discriminate | ]. split; [ reflexivity | ].
  split; [ left; reflexivity | ]. split; [ reflexivity | ].
  apply (@processSE_fill_undeclared _ (cfgQA true false false)
           defaultHistConfig Sample.state0 Sample.collision0
           [Sample.track 1 1] [] (Sample.track 1 1)).
  - discriminate.
  - reflexivity.
  - left; reflexivity.
  - reflexivity.
Defined.

Lemma SelectionV0_accepts_NaN_witness :
  mK0Short EdgeSample.nanV0 = S754_nan /\
  alpha EdgeSample.nanV0 = S754_nan /\
  fst (SelectionV0 defaultConfig Sample.collision0 EdgeSample.nanV0
                   Sample.f_5) = true.
Proof.
  split; [ reflexivity | ]. split; [ reflexivity | ].
  apply (@SelectionV0_accepts_NaN _ defaultConfig Sample.collision0
           EdgeSample.nanV0 Sample.f_5);
    reflexivity.
Defined.

Lemma SelectionV0_opposite_signs_witness :
  qtarm EdgeSample.v0AlphaNegative = S754_finite false 13421773 (-27) /\
  alpha EdgeSample.v0AlphaNegative = S754_finite true 8388608 (-25) /\
  SelectionV0 defaultConfig Sample.collision0 EdgeSample.v0AlphaNegative
              Sample.f_5 = (false, []).
Proof.
  split; [ reflexivity | ]. split; [ reflexivity | ].
  apply (@SelectionV0_opposite_signs _ defaultConfig Sample.collision0
           EdgeSample.v0AlphaNegative Sample.f_5
           false true 13421773 8388608 (-27) (-25) eq_refl eq_refl).
  discriminate.
Defined.

Lemma selectionPID_NaN_witness :
  tpcNSigmaPi (EdgeSample.pion false S754_nan f_zero) = S754_nan /\
  selectionPID defaultConfig (EdgeSample.pion false S754_nan f_zero) = false.
Proof.
  split; [ reflexivity | ].
  apply (selectionPID_NaN defaultConfig
           (EdgeSample.pion false S754_nan f_zero)).
  left. reflexivity.
Defined.

Lemma isSelectedV0Daughter_NaN_nsigma_witness :
  isSelectedV0Daughter defaultConfig (Sample.track 1 1) (float_of_int 1)
                       (to_double Sample.f_0_5) = true /\
  isSelectedV0Daughter defaultConfig (Sample.track 1 1) (float_of_int 1)
                       S754_nan = true.
Proof.
  split; [ reflexivity | ].
  apply (isSelectedV0Daughter_NaN_nsigma defaultConfig (Sample.track 1 1)
           (float_of_int 1) (to_double Sample.f_0_5)).
  reflexivity.
Defined.

(** [defaultConfig] with a TPC threshold of zero. *)
Definition cfgZeroTPCCut : Config :=
  reconfigure defaultConfig false false false (S754_zero false)
              (nsigmaCutCombined defaultConfig) false true.

Lemma selectionPID_nonpositive_TPC_cut_witness :
  notPositive (nsigmaCutTPC cfgZeroTPCCut) /\
  hasTOF (Sample.track 1 1) = false /\
  selectionPID cfgZeroTPCCut (Sample.track 1 1) = false.
Proof.
  split; [ exact I | ]. split; [ reflexivity | ].
  apply (selectionPID_nonpositive_TPC_cut cfgZeroTPCCut (Sample.track 1 1)).
  - exact I.
  - reflexivity.
Defined.

Lemma selectionTrack_filtered_witness :
  iscustomDCAcut defaultConfig = false /\
  DCAcutFilter defaultConfig (Sample.track 1 1) = true /\
  selectionTrack defaultConfig (Sample.track 1 1) = true.
Proof.
  split; [ reflexivity | ]. split; [ reflexivity | ].
  apply (selectionTrack_filtered defaultConfig (Sample.track 1 1));
    reflexivity.
Defined.

Lemma daughtersSelected_signs_witness :
  daughtersSelected defaultConfig (Sample.goodV0 3 4) = true /\
  0 <= sign (posTrack (Sample.goodV0 3 4)) /\
  sign (negTrack (Sample.goodV0 3 4)) <= 0.
Proof.
  split; [ reflexivity | ].
  apply (daughtersSelected_signs defaultConfig (Sample.goodV0 3 4)).
  reflexivity.
Defined.

Lemma filters_exclude_NaN_witness :
  posZFilter defaultConfig Sample.collision0 = true /\
  posZ Sample.collision0 <> S754_nan.
Proof.
  split; [ reflexivity | ].
  apply (proj1 (filters_exclude_NaN defaultConfig) Sample.collision0).
  reflexivity.
Defined.

Lemma processSE_same_collision_witness :
  In sampleMassFill
     (snd (processSE defaultConfig Sample.state0 Sample.collision0
                     [Sample.track 1 1; Sample.track 5 1]
                     [Sample.goodV0 1 2; Sample.goodV0 3 4])) /\
  isMassFill sampleMassFill = true /\
  exists t v,
    In t [Sample.track 1 1; Sample.track 5 1] /\
    In v [Sample.goodV0 1 2; Sample.goodV0 3 4] /\
    sampleMassFill =
    Fill h3CKSInvMassUnlikeSign
         [eventMultiplicity defaultConfig Sample.collision0;
          lv_Pt (pairVector t v); lv_M (pairVector t v)] /\
    t_collisionId t = v_collisionId v.
Proof.
  assert (Hin : In sampleMassFill
                   (snd (processSE defaultConfig Sample.state0
                                   Sample.collision0
                                   [Sample.track 1 1; Sample.track 5 1]
                                   [Sample.goodV0 1 2; Sample.goodV0 3 4])))
    by (vm_compute; auto).
  split; [ exact Hin | ]. split; [ reflexivity | ].
  apply (@processSE_same_collision _ defaultConfig Sample.state0
           Sample.collision0 [Sample.track 1 1; Sample.track 5 1]
           [Sample.goodV0 1 2; Sample.goodV0 3 4] sampleMassFill Hin eq_refl).
Defined.

Lemma processSE_permutation_witness :
  Permutation [Sample.track 1 1; Sample.track 5 1]
              [Sample.track 5 1; Sample.track 1 1] /\
  Permutation
    (snd (processSE defaultConfig Sample.state0 Sample.collision0
                    [Sample.track 1 1; Sample.track 5 1]
                    [Sample.goodV0 3 4]))
    (snd (processSE defaultConfig Sample.state0 Sample.collision0
                    [Sample.track 5 1; Sample.track 1 1]
                    [Sample.goodV0 3 4])).
Proof.
  split; [ apply perm_swap | ].
  apply (@processSE_permutation _ defaultConfig Sample.state0 Sample.state0
           Sample.collision0 [Sample.track 1 1; Sample.track 5 1]
           [Sample.track 5 1; Sample.track 1 1]
           [Sample.goodV0 3 4] [Sample.goodV0 3 4]).
  - apply perm_swap.
  - apply Permutation_refl.
Defined.

Lemma processSE_event_counter_witness :
  countHist hmult
            (snd (processSE defaultConfig Sample.state0 Sample.collision0
                            [Sample.track 1 1; Sample.track 5 1]
                            [Sample.goodV0 3 4])) = 1%nat.
Proof.
  apply (@processSE_event_counter _ defaultConfig Sample.state0
           Sample.collision0 [Sample.track 1 1; Sample.track 5 1]
           [Sample.goodV0 3 4] hmult).
  right. reflexivity.
Defined.

Lemma processSE_V0QA_count_witness :
  sel8 Sample.collision0 = true /\
  isV0QAHist hLT = true /\
  countHist hLT
            (snd (processSE (cfgQA false false true) Sample.state0
                            Sample.collision0 [Sample.track 1 1]
                            [Sample.goodV0 3 4; EdgeSample.v0AlphaNegative])) =
  1%nat.
Proof.
  split; [ reflexivity | ]. split; [ reflexivity | ].
  apply (@processSE_V0QA_count _ (cfgQA false false true) Sample.state0
           Sample.collision0 [Sample.track 1 1]
           [Sample.goodV0 3 4; EdgeSample.v0AlphaNegative] hLT eq_refl
           eq_refl).
Defined.

Lemma mixedPairBody_V0QA_count_witness :
  sel8 Sample.collision0 = true /\
  isV0QAHist hLT = true /\
  countHist hLT
            (mixedPairBody (cfgQA false false true)
               (Sample.collision0, [Sample.track 1 1; Sample.track 5 1],
                Sample.collision0, [Sample.goodV0 3 4])) = 2%nat.
Proof.
  split; [ reflexivity | ]. split; [ reflexivity | ].
  rewrite (@mixedPairBody_V0QA_count _ (cfgQA false false true)
             Sample.collision0 Sample.collision0
             [Sample.track 1 1; Sample.track 5 1] [Sample.goodV0 3 4] hLT
             eq_refl eq_refl eq_refl).
  reflexivity.
Defined.

Lemma processSE_trackQA_count_witness :
  sel8 Sample.collision0 = true /\
  isBeforeHist hNsigmaPionTPC_before = true /\
  countHist hNsigmaPionTPC_before
            (snd (processSE (cfgQA true true false) Sample.state0
                            Sample.collision0
                            [Sample.track 1 1; Sample.track 5 1]
                            [Sample.goodV0 3 4])) = 2%nat.
Proof.
  split; [ reflexivity | ]. split; [ reflexivity | ].
  rewrite (proj1 (@processSE_trackQA_count _ (cfgQA true true false)
                    Sample.state0 Sample.collision0
                    [Sample.track 1 1; Sample.track 5 1]
                    [Sample.goodV0 3 4] hNsigmaPionTPC_before eq_refl)
                 eq_refl).
  reflexivity.
Defined.

Lemma mixedPairBody_columns_read_witness :
  c_globalIndex MixingSample.cA <> c_globalIndex MixingSample.cB /\
  numContrib MixingSample.cA <> numContrib MixingSample.cB /\
  mixedPairBody defaultConfig
    (MixingSample.cA, [Sample.track 1 1],
     MixingSample.cA, [Sample.goodV0 3 4]) =
  mixedPairBody defaultConfig
    (MixingSample.cB, [Sample.track 1 1],
     MixingSample.cB, [Sample.goodV0 3 4]).
Proof.
  split; [ discriminate | ]. split; [ discriminate | ].
  apply (@mixedPairBody_columns_read _ defaultConfig
           MixingSample.cA MixingSample.cB MixingSample.cA MixingSample.cB
           [Sample.track 1 1] [Sample.goodV0 3 4]);
    reflexivity.
Defined.

Lemma init_axes_well_formed_witness :
  0 < nBins defaultHistConfig /\
  axisWellFormed (axis 100 Literal.d_m10 Literal.d_10) = true.
Proof.
  split; [ reflexivity | ].
  apply (@init_axes_well_formed defaultConfig defaultHistConfig
           (add rEventSelection hVertexZRec kTH1F
                [axis 100 Literal.d_m10 Literal.d_10] false)
           (axis 100 Literal.d_m10 Literal.d_10)).
  - reflexivity.
  - left. reflexivity.
  - left. reflexivity.
Defined.

End EdgeRuns.
